(** * myshell: the job-control core of [myshell.py]

    A shallow embedding of the job table ([jobs], [next_job_id],
    [pid_to_jid], [foreground_pid]), of the functions that read and write
    it, and of the dispatcher and the interactive loop around them.

    Conventions of the embedding.
    - The module globals are the fields of one record, [shell], threaded
      through every function.  Text given to [print] is appended to
      [stdout], one entry per call.
    - Statuses are the strings the program stores: ["Running"],
      ["Stopped"], ["Exited(<code>)"], ["Signaled(<sig>)"], ["Done"].
    - Everything the program asks of its environment (the operating
      system, [time.time], [shlex.split], [int], [str.strip]) is answered
      by a [world].  The operating-system answers may depend on the calls
      made so far, which the shell records in [calls].
    - Timestamps are integers ([Z]) in place of floating-point seconds:
      only differences and comparisons of timestamps are used.
    - The SIGCHLD handler runs between two operations of the control
      thread.  The handlers of SIGINT and SIGTSTP, which only act while a
      foreground wait is in progress, are left out.
    - To the dispatcher a file builtin is what the [world] makes of it;
      module [Files] writes each of them out over the file operations it
      performs, and [prompt] is given beside it. *)

From Stdlib Require Import ZArith Lia Ascii String List Sorted.
From stdpp Require Import base strings list gmap fin_maps pretty.

Open Scope Z_scope.

(** ** Strings as the program uses them *)

Definition startswith (s p : string) : bool := String.prefix p s.

Definition endswith (s p : string) : bool :=
  String.prefix (String.rev p) (String.rev s).

(** [s[1:]] *)
Definition drop_first (s : string) : string :=
  match s with
  | EmptyString => EmptyString
  | String _ s' => s'
  end.

(** [s[:-1]] *)
Fixpoint drop_last (s : string) : string :=
  match s with
  | EmptyString => EmptyString
  | String _ EmptyString => EmptyString
  | String c s' => String c (drop_last s')
  end.

(** [sep.join(l)] *)
Fixpoint join (sep : string) (l : list string) : string :=
  match l with
  | [] => ""
  | [x] => x
  | x :: l' => x +:+ sep +:+ join sep l'
  end.

(** The decimal text of an integer, as an f-string renders it. *)
Definition str (n : Z) : string := pretty n.

Definition Exited (exitcode : Z) : string := "Exited(" +:+ str exitcode +:+ ")".
Definition Signaled (sig : Z) : string := "Signaled(" +:+ str sig +:+ ")".

(** ** [OrderedDict] with integer keys: an association list in insertion order *)

Module OrderedDict.
Section Dict.
Context {V : Type}.

Definition t : Type := list (Z * V).

Definition keys (d : t) : list Z := map fst d.

(** A dictionary holds a key once. *)
Definition wf (d : t) : Prop := NoDup (keys d).

(** [d.get(k)] *)
Fixpoint get (k : Z) (d : t) : option V :=
  match d with
  | [] => None
  | (k', v) :: d' => if k =? k' then Some v else get k d'
  end.

(** [d[k] = v]: in place for a key that is present, at the end for a new one. *)
Fixpoint set (k : Z) (v : V) (d : t) : t :=
  match d with
  | [] => [(k, v)]
  | (k', v') :: d' => if k =? k' then (k, v) :: d' else (k', v') :: set k v d'
  end.

(** [d.pop(k, None)], the popped value dropped. *)
Definition pop (k : Z) (d : t) : t :=
  List.filter (fun kv => negb (fst kv =? k)) d.

(** [k in d] *)
Definition mem (k : Z) (d : t) : bool :=
  match get k d with
  | Some _ => true
  | None => false
  end.

(** [d[k][field] = x]: the value stored under [k] is changed in place. *)
Fixpoint alter (f : V -> V) (k : Z) (d : t) : t :=
  match d with
  | [] => []
  | (k', v) :: d' => if k =? k' then (k', f v) :: d' else (k', v) :: alter f k d'
  end.

(** [next(reversed(d))] on a dictionary that is not empty. *)
Definition last_key (d : t) : option Z := last (keys d).
End Dict.
Arguments t : clear implicits.
End OrderedDict.

(** ** The job table *)

(** The [subprocess.Popen] object of a child, known by its process id. *)
Record Popen_obj := { popen_pid : Z }.

Module Job.
Record t := mk {
  pid : Z;
  proc : Popen_obj;
  cmdline : string;
  status : string;
  start_time : Z;
  exitcode : option Z;
}.

Definition with_status (s : string) (j : t) : t :=
  mk (pid j) (proc j) (cmdline j) s (start_time j) (exitcode j).

Definition with_exitcode (c : Z) (j : t) : t :=
  mk (pid j) (proc j) (cmdline j) (status j) (start_time j) (Some c).
End Job.

(** ** The environment *)

Inductive signal := SIGTERM | SIGCONT.

(** The calls the control thread makes to the operating system. *)
Inductive os_call :=
  | call_time
  | call_Popen (argv : list string)
  | call_getpgid (pid : Z)
  | call_killpg (pgid : Z) (sig : signal)
  | call_kill (pid : Z) (sig : signal)
  | call_waitpid (pid : Z)
  | call_file_builtin (cmd : string) (args : list string).

(** A wait status, decoded as [os.WIFEXITED], [os.WIFSIGNALED],
    [os.WIFSTOPPED] and [os.WIFCONTINUED] decode it. *)
Inductive wstatus :=
  | WEXITED (exitcode : Z)
  | WSIGNALED (sig : Z)
  | WSTOPPED (sig : Z)
  | WCONTINUED.

(** One answer of the blocking [os.waitpid(pid, os.WUNTRACED)]. *)
Inductive waited :=
  | InterruptedError
  | Waited (wpid : Z) (ws : wstatus)
  | WaitRaised (e : string).

(** The outcome of [subprocess.Popen(tokens, preexec_fn=os.setpgrp)]. *)
Inductive spawned :=
  | Spawned (p : Popen_obj)
  | FileNotFoundError
  | SpawnRaised (e : string).

(** What one of the file builtins ([cd], [pwd], [ls], [cat], [mkdir],
    [rmdir], [rm], [touch]) does: it prints some lines, or it raises. *)
Inductive file_result :=
  | FilePrinted (lines : list string)
  | FileRaised (e : string).

Record world := {
  strip : string -> string;
  shlex_split : string -> string + list string; (* inl: the ValueError's text *)
  int : string -> option Z;                     (* None: ValueError *)
  time : list os_call -> Z;
  Popen : list os_call -> list string -> spawned;
  getpgid : list os_call -> Z -> string + Z;    (* inl: the exception's text *)
  killpg : list os_call -> Z -> signal -> option string; (* Some: the exception's text *)
  kill : list os_call -> Z -> signal -> option string;
  waitpid : list os_call -> Z -> waited;
  file_builtin : list os_call -> string -> list string -> file_result;
}.

(** ** The shell's state: the module globals *)

Record shell := mk_shell {
  jobs : OrderedDict.t Job.t;
  next_job_id : Z;
  pid_to_jid : gmap Z Z;
  foreground_pid : option Z;
  stdout : list string;
  calls : list os_call;
}.

Definition set_jobs (f : OrderedDict.t Job.t -> OrderedDict.t Job.t) (st : shell) : shell :=
  mk_shell (f (jobs st)) (next_job_id st) (pid_to_jid st) (foreground_pid st)
           (stdout st) (calls st).

Definition set_next_job_id (n : Z) (st : shell) : shell :=
  mk_shell (jobs st) n (pid_to_jid st) (foreground_pid st) (stdout st) (calls st).

Definition set_pid_to_jid (f : gmap Z Z -> gmap Z Z) (st : shell) : shell :=
  mk_shell (jobs st) (next_job_id st) (f (pid_to_jid st)) (foreground_pid st)
           (stdout st) (calls st).

Definition set_foreground_pid (p : option Z) (st : shell) : shell :=
  mk_shell (jobs st) (next_job_id st) (pid_to_jid st) p (stdout st) (calls st).

Definition print (line : string) (st : shell) : shell :=
  mk_shell (jobs st) (next_job_id st) (pid_to_jid st) (foreground_pid st)
           (stdout st ++ [line]) (calls st).

Definition called (c : os_call) (st : shell) : shell :=
  mk_shell (jobs st) (next_job_id st) (pid_to_jid st) (foreground_pid st)
           (stdout st) (calls st ++ [c]).

(** The globals as the module initialises them. *)
Definition initial : shell :=
  mk_shell [] 1 ∅ None [] [].

(** [DONE_ENTRY_TTL = 60.0] *)
Definition DONE_ENTRY_TTL : Z := 60.

(** ** Job helpers *)

Definition _get_next_job_id (st : shell) : Z * shell :=
  let jid := next_job_id st in
  (jid, set_next_job_id (next_job_id st + 1) st).

Section Program.
Variable W : world.

Definition add_job (p : Popen_obj) (cmdline status : string)
    (st : shell) : Z * shell :=
  let '(jid, st) := _get_next_job_id st in
  let now := time W (calls st) in
  let st := called call_time st in
  let st := set_jobs (OrderedDict.set jid
              (Job.mk (popen_pid p) p cmdline status now None)) st in
  let st := set_pid_to_jid (insert (popen_pid p) jid) st in
  (jid, st).

Definition remove_job_by_pid (pid : Z) (st : shell) : shell :=
  match pid_to_jid st !! pid with
  | Some jid => set_jobs (OrderedDict.pop jid) (set_pid_to_jid (delete pid) st)
  | None => st
  end.

Definition update_job_status (pid : Z) (status : string)
    (exitcode : option Z) (st : shell) : shell :=
  match pid_to_jid st !! pid with
  | Some jid =>
      if OrderedDict.mem jid (jobs st) then
        let st := set_jobs (OrderedDict.alter (Job.with_status status) jid) st in
        match exitcode with
        | Some c => set_jobs (OrderedDict.alter (Job.with_exitcode c) jid) st
        | None => st
        end
      else st
  | None => st
  end.

Definition mark_job_done (pid : Z) (exitcode : option Z) (st : shell) : shell :=
  match pid_to_jid st !! pid with
  | Some jid =>
      if OrderedDict.mem jid (jobs st) then
        let st :=
          match exitcode with
          | Some c =>
              let st := set_jobs (OrderedDict.alter (Job.with_status (Exited c)) jid) st in
              set_jobs (OrderedDict.alter (Job.with_exitcode c) jid) st
          | None =>
              set_jobs (OrderedDict.alter (Job.with_status "Done") jid) st
          end in
        set_pid_to_jid (delete pid) st
      else st
  | None => st
  end.

Definition find_job_by_jid (jid : Z) (st : shell) : option Job.t :=
  OrderedDict.get jid (jobs st).

(** ** The SIGCHLD handler

    [events] are the answers of the successive calls
    [os.waitpid(-1, WNOHANG|WUNTRACED|WCONTINUED)]; the end of the list
    stands for the [ChildProcessError] of a shell without children.  The
    handler runs between two operations of the control thread. *)
Fixpoint sigchld_handler (events : list (Z * wstatus)) (st : shell) : shell :=
  match events with
  | [] => st
  | (pid, ws) :: events' =>
      if pid =? 0 then st
      else if pid <? 0 then st
      else
        let st :=
          match ws with
          | WEXITED exitcode =>
              let st := update_job_status pid (Exited exitcode) (Some exitcode) st in
              mark_job_done pid (Some exitcode) st
          | WSIGNALED sig =>
              let st := update_job_status pid (Signaled sig) None st in
              mark_job_done pid None st
          | WSTOPPED sig => update_job_status pid "Stopped" None st
          | WCONTINUED => update_job_status pid "Running" None st
          end in
        sigchld_handler events' st
  end.

(** ** Calls to the operating system *)

(** [os.killpg(os.getpgid(pid), sig)]: [Some e] when either call raises. *)
Definition killpg_getpgid (pid : Z) (sig : signal) (st : shell) : option string * shell :=
  let r := getpgid W (calls st) pid in
  let st := called (call_getpgid pid) st in
  match r with
  | inl e => (Some e, st)
  | inr pgid => (killpg W (calls st) pgid sig, called (call_killpg pgid sig) st)
  end.

(** [os.kill(pid, sig)] *)
Definition os_kill (pid : Z) (sig : signal) (st : shell) : option string * shell :=
  (kill W (calls st) pid sig, called (call_kill pid sig) st).

(** [os.waitpid(pid, os.WUNTRACED)] *)
Definition os_waitpid (pid : Z) (st : shell) : waited * shell :=
  (waitpid W (calls st) pid, called (call_waitpid pid) st).

(** ** How a call ends *)

Inductive exn :=
  | SystemExit (code : Z)
  | Exception (e : string).

(** [Blocked]: the call is still inside a blocking wait when the fuel of
    its loop runs out. *)
Inductive outcome :=
  | Returned (st : shell)
  | Raised (e : exn) (st : shell)
  | Blocked (st : shell).

(** ** Builtins *)

Definition builtin_exit (args : list string) (st : shell) : outcome :=
  let st := print "Exiting shell." st in
  let st := fold_left (fun st '(jid, job) =>
                         snd (killpg_getpgid (Job.pid job) SIGTERM st))
                      (jobs st) st in
  Raised (SystemExit 0) st.

Definition builtin_echo (args : list string) (st : shell) : outcome :=
  Returned (print (join " " args) st).

Definition builtin_clear (args : list string) (st : shell) : outcome :=
  Returned (print (String (ascii_of_nat 27) "[H" +:+ String (ascii_of_nat 27) "[J") st).

(** [cd], [pwd], [ls], [cat], [mkdir], [rmdir], [rm], [touch]: wrappers
    around file operations, which leave the job table alone. *)
Definition builtin_file (cmd : string) (args : list string) (st : shell) : outcome :=
  let r := file_builtin W (calls st) cmd args in
  let st := called (call_file_builtin cmd args) st in
  match r with
  | FilePrinted lines => Returned (fold_left (fun st l => print l st) lines st)
  | FileRaised e => Raised (Exception e) st
  end.

(** The body of the loop of [builtin_kill]. *)
Definition builtin_kill_token (token : string) (st : shell) : shell :=
  if startswith token "%" then
    match int W (drop_first token) with
    | None => print ("kill: invalid pid/job: " +:+ token) st
    | Some jid =>
        match find_job_by_jid jid st with
        | None => print ("kill: % " +:+ str jid +:+ ": no such job") st
        | Some job =>
            let pid := Job.pid job in
            match killpg_getpgid pid SIGTERM st with
            | (Some e, st) => print ("kill: " +:+ e) st
            | (None, st) => st
            end
        end
    end
  else
    match int W token with
    | None => print ("kill: invalid pid/job: " +:+ token) st
    | Some pid =>
        match os_kill pid SIGTERM st with
        | (Some e, st) => print ("kill: " +:+ e) st
        | (None, st) => st
        end
    end.

Definition builtin_kill (args : list string) (st : shell) : outcome :=
  match args with
  | [] => Returned (print "kill: missing pid/job" st)
  | _ => Returned (fold_left (fun st token => builtin_kill_token token st) args st)
  end.

Definition builtin_jobs (args : list string) (st : shell) : outcome :=
  let now := time W (calls st) in
  let st := called call_time st in
  Returned
    (fold_left
       (fun st '(jid, job) =>
          let status := Job.status job in
          let age := now - Job.start_time job in
          print ("[" +:+ str jid +:+ "] " +:+ str (Job.pid job) +:+ " " +:+ status
                 +:+ String (ascii_of_nat 9) (Job.cmdline job)
                 +:+ " (age " +:+ str age +:+ "s)") st)
       (jobs st) st).

(** The job a [fg] or [bg] without a usable argument or target ends on,
    or the id it selects. *)
Definition select_job (name : string) (args : list string) (st : shell) : shell + Z :=
  match args with
  | a :: _ =>
      match int W a with
      | None => inl (print (name +:+ ": bad job id") st)
      | Some jid => inr jid
      end
  | [] =>
      match OrderedDict.last_key (jobs st) with
      | None => inl (print (name +:+ ": no current job") st)
      | Some jid => inr jid
      end
  end.

(** The wait loop of [builtin_fg]; [None] when the fuel runs out. The
    [except Exception: pass] around the loop ends it on [WaitRaised]. *)
Fixpoint builtin_fg_wait (fuel : nat) (jid pid : Z) (st : shell) : option shell :=
  match fuel with
  | O => None
  | S fuel =>
      match os_waitpid pid st with
      | (InterruptedError, st) => builtin_fg_wait fuel jid pid st
      | (WaitRaised _, st) => Some st
      | (Waited wpid ws, st) =>
          if wpid =? 0 then builtin_fg_wait fuel jid pid st
          else
            match ws with
            | WSTOPPED _ =>
                let st := set_jobs (OrderedDict.alter (Job.with_status "Stopped") jid) st in
                let st := set_pid_to_jid (insert pid jid) st in
                Some (print (String (ascii_of_nat 10)
                               ("[" +:+ str jid +:+ "] " +:+ str pid +:+ " Stopped")) st)
            | WEXITED exitcode =>
                let st := set_jobs (OrderedDict.alter (Job.with_status (Exited exitcode)) jid) st in
                let st := set_jobs (OrderedDict.alter (Job.with_exitcode exitcode) jid) st in
                Some (set_pid_to_jid (delete pid) st)
            | WSIGNALED sig =>
                let st := set_jobs (OrderedDict.alter (Job.with_status (Signaled sig)) jid) st in
                Some (set_pid_to_jid (delete pid) st)
            | WCONTINUED => builtin_fg_wait fuel jid pid st
            end
      end
  end.

Definition builtin_fg (fuel : nat) (args : list string) (st : shell) : outcome :=
  match select_job "fg" args st with
  | inl st => Returned st
  | inr jid =>
      match find_job_by_jid jid st with
      | None => Returned (print ("fg: job " +:+ str jid +:+ " not found") st)
      | Some job =>
          let pid := Job.pid job in
          let st := snd (killpg_getpgid pid SIGCONT st) in
          let st := set_jobs (OrderedDict.alter (Job.with_status "Running") jid) st in
          let st := set_foreground_pid (Some pid) st in
          match builtin_fg_wait fuel jid pid st with
          | None => Blocked st
          | Some st => Returned (set_foreground_pid None st)
          end
      end
  end.

Definition builtin_bg (args : list string) (st : shell) : outcome :=
  match select_job "bg" args st with
  | inl st => Returned st
  | inr jid =>
      match find_job_by_jid jid st with
      | None => Returned (print ("bg: job " +:+ str jid +:+ " not found") st)
      | Some job =>
          let pid := Job.pid job in
          match killpg_getpgid pid SIGCONT st with
          | (None, st) =>
              let st := set_jobs (OrderedDict.alter (Job.with_status "Running") jid) st in
              let st := set_pid_to_jid (insert pid jid) st in
              Returned (print ("[" +:+ str jid +:+ "] " +:+ str pid
                               +:+ " continued in background") st)
          | (Some e, st) => Returned (print ("bg: " +:+ e) st)
          end
      end
  end.

(** The dispatch table [builtins]. *)
Definition builtins (fuel : nat) (cmd : string)
    : option (list string -> shell -> outcome) :=
  if String.eqb cmd "exit" then Some builtin_exit
  else if String.eqb cmd "echo" then Some builtin_echo
  else if String.eqb cmd "clear" then Some builtin_clear
  else if String.eqb cmd "kill" then Some builtin_kill
  else if String.eqb cmd "jobs" then Some builtin_jobs
  else if String.eqb cmd "fg" then Some (builtin_fg fuel)
  else if String.eqb cmd "bg" then Some builtin_bg
  else if existsb (String.eqb cmd)
            ["cd"; "pwd"; "ls"; "cat"; "mkdir"; "rmdir"; "rm"; "touch"]
       then Some (builtin_file cmd)
  else None.

(** ** Command execution *)

(** The wait loop of a foreground launch; [None] when the fuel runs out. *)
Fixpoint launch_external_wait (fuel : nat) (p : Popen_obj) (cmdline : string)
    (st : shell) : option shell :=
  match fuel with
  | O => None
  | S fuel =>
      match os_waitpid (popen_pid p) st with
      | (InterruptedError, st) => launch_external_wait fuel p cmdline st
      | (WaitRaised _, st) => Some st
      | (Waited wpid ws, st) =>
          if wpid =? 0 then launch_external_wait fuel p cmdline st
          else
            match ws with
            | WSTOPPED _ =>
                let '(jid, st) := add_job p cmdline "Stopped" st in
                Some (print (String (ascii_of_nat 10)
                               ("[" +:+ str jid +:+ "] " +:+ str (popen_pid p)
                                +:+ " Stopped")) st)
            | WEXITED _ => Some st
            | WSIGNALED _ => Some st
            | WCONTINUED => launch_external_wait fuel p cmdline st
            end
      end
  end.

(** The [Popen] object or [None] that the function returns is dropped:
    no caller reads it. *)
Definition launch_external (fuel : nat) (tokens : list string) (background : bool)
    (st : shell) : outcome :=
  let cmdline := join " " tokens in
  let r := Popen W (calls st) tokens in
  let st := called (call_Popen tokens) st in
  match r with
  | FileNotFoundError =>
      match tokens with
      | [] => Raised (Exception "list index out of range") st
      | t0 :: _ => Returned (print (t0 +:+ ": command not found") st)
      end
  | SpawnRaised e =>
      match tokens with
      | [] => Raised (Exception "list index out of range") st
      | t0 :: _ => Returned (print ("Error launching " +:+ t0 +:+ ": " +:+ e) st)
      end
  | Spawned p =>
      if background then
        let '(jid, st) := add_job p cmdline "Running" st in
        Returned (print ("[" +:+ str jid +:+ "] " +:+ str (popen_pid p)) st)
      else
        let st := set_foreground_pid (Some (popen_pid p)) st in
        match launch_external_wait fuel p cmdline st with
        | None => Blocked st
        | Some st => Returned (set_foreground_pid None st)
        end
  end.

(** ** The retention pruner *)

Definition finished (status : string) : bool :=
  startswith status "Exited" || startswith status "Signaled"
  || String.eqb status "Done".

Definition prune_done_jobs (st : shell) : shell :=
  let now := time W (calls st) in
  let st := called call_time st in
  let to_remove :=
    flat_map (fun '(jid, job) =>
                if finished (Job.status job) then
                  let age := now - Job.start_time job in
                  if age >? DONE_ENTRY_TTL then [jid] else []
                else [])
             (jobs st) in
  fold_left (fun st jid => set_jobs (OrderedDict.pop jid) st) to_remove st.

(** ** The dispatcher *)

(** The background marker: a last token [&], or a last token ending in [&]. *)
Definition background_marker (tokens : list string) : list string * bool :=
  match last tokens with
  | None => (tokens, false)
  | Some l =>
      if String.eqb l "&" then (removelast tokens, true)
      else if endswith l "&" && negb (String.eqb l "&")
           then (removelast tokens ++ [drop_last l], true)
           else (tokens, false)
  end.

Definition parse_and_execute (fuel : nat) (line : string) (st : shell) : outcome :=
  let line := strip W line in
  if String.eqb line "" then Returned st
  else
    match shlex_split W line with
    | inl e => Returned (print ("Parsing error: " +:+ e) st)
    | inr [] => Returned st
    | inr tokens =>
        let '(tokens, background) := background_marker tokens in
        match tokens with
        | [] => Raised (Exception "list index out of range") st
        | cmd :: args =>
            match builtins fuel cmd with
            | Some builtin =>
                match builtin args st with
                | Raised (Exception e) st =>
                    Returned (print (cmd +:+ ": error: " +:+ e) st)
                | r => r
                end
            | None => launch_external fuel tokens background st
            end
        end
    end.

(** ** The interactive loop *)

(** What reaches the loop: a line read by [input], the two exceptions
    [input] raises, and a SIGCHLD delivered while the shell is at its
    prompt. *)
Inductive input :=
  | Line (line : string)
  | EOFError
  | KeyboardInterrupt
  | SIGCHLD (events : list (Z * wstatus)).

(** How the loop stands when the inputs are used up or it has ended. *)
Inductive ending :=
  | AtPrompt
  | EndOfInput
  | Exit
  | ShellError (e : string)
  | InWait.

Fixpoint main_loop (fuel : nat) (inputs : list input) (st : shell) : ending * shell :=
  match inputs with
  | [] => (AtPrompt, st)
  | EOFError :: _ => (EndOfInput, print "" st)
  | KeyboardInterrupt :: inputs' => main_loop fuel inputs' (print "" st)
  | SIGCHLD events :: inputs' => main_loop fuel inputs' (sigchld_handler events st)
  | Line line :: inputs' =>
      match parse_and_execute fuel line st with
      | Returned st => main_loop fuel inputs' (prune_done_jobs st)
      | Raised (SystemExit _) st => (Exit, st)
      | Raised (Exception e) st => (ShellError e, print ("Shell error: " +:+ e) st)
      | Blocked st => (InWait, st)
      end
  end.

Definition main (fuel : nat) (inputs : list input) : ending * shell :=
  main_loop fuel inputs
    (print "myshell — Deliverable 1 shell (type 'exit' to quit)." initial).

End Program.

(** ** The prompt *)

(** [os.path.basename]: what follows the last slash. *)
Fixpoint basename (path : string) : string :=
  match path with
  | EmptyString => EmptyString
  | String c rest =>
      if existsb (Ascii.eqb "/") (list_ascii_of_string rest) then basename rest
      else if Ascii.eqb c "/" then rest
      else path
  end.

(** [prompt], from the answers of [getpass.getuser] and [os.getcwd]. *)
Definition prompt (user cwd : string) : string :=
  let base := if String.eqb (basename cwd) "" then "/"%string else basename cwd in
  user +:+ ":" +:+ base +:+ "$ ".

(** ** The file builtins, one by one

    In the dispatcher above a file builtin is whatever the environment
    makes of it.  Here each of them is written out over the operations
    on files it performs, which a [files] answers from the operations
    performed so far.  A builtin takes the operations and the output so
    far and gives those after it. *)

Module Files.

Inductive op :=
  | chdir (path : string)
  | getcwd
  | listdir (path : string)
  | read (path : string)
  | makedirs (path : string)
  | rmdir (path : string)
  | isdir (path : string)
  | remove (path : string)
  | open_append (path : string)
  | utime (path : string).

(** The answers: [Some e] and [inl e] are exceptions with the text [e]. *)
Record files := {
  HOME : string;
  expanduser : string -> string;
  do_chdir : list op -> string -> option string;
  do_getcwd : list op -> string + string;
  do_listdir : list op -> string -> string + list string;
  do_read : list op -> string -> string + string;
  do_makedirs : list op -> string -> option string;
  do_rmdir : list op -> string -> option string;
  do_isdir : list op -> string -> bool;
  do_remove : list op -> string -> option string;
  do_open_append : list op -> string -> option string;
  do_utime : list op -> string -> option string;
}.

(** The operations performed and the output written so far. *)
Definition io : Type := list op * list string.

Definition performed (o : op) (s : io) : io := (fst s ++ [o], snd s).
Definition written (text : string) (s : io) : io := (fst s, snd s ++ [text]).

(** [names.sort()]: the names in the order of their characters.  A list
    of strings has one sorted arrangement, which an insertion sort
    gives. *)
Fixpoint insert_sorted (name : string) (names : list string) : list string :=
  match names with
  | [] => [name]
  | n :: names' =>
      if String.leb name n then name :: names else n :: insert_sorted name names'
  end.

Definition sort (names : list string) : list string :=
  fold_right insert_sorted [] names.

Section Builtins.
Variable F : files.

Definition builtin_cd (args : list string) (s : io) : io :=
  let target := match args with a :: _ => a | [] => HOME F end in
  let path := expanduser F target in
  let r := do_chdir F (fst s) path in
  let s := performed (chdir path) s in
  match r with
  | Some e => written ("cd: " +:+ e) s
  | None => s
  end.

(** [inl e]: the exception of [os.getcwd], which [builtin_pwd] lets out. *)
Definition builtin_pwd (args : list string) (s : io) : string + io :=
  let r := do_getcwd F (fst s) in
  let s := performed getcwd s in
  match r with
  | inl e => inl e
  | inr cwd => inr (written cwd s)
  end.

Definition builtin_ls (args : list string) (s : io) : io :=
  let target := match args with a :: _ => a | [] => "."%string end in
  let r := do_listdir F (fst s) target in
  let s := performed (listdir target) s in
  match r with
  | inr names => fold_left (fun s n => written n s) (sort names) s
  | inl e => written ("ls: " +:+ e) s
  end.

Definition builtin_cat (args : list string) (s : io) : io :=
  match args with
  | [] => written "cat: missing filename" s
  | _ =>
      fold_left
        (fun s filename =>
           let r := do_read F (fst s) filename in
           let s := performed (read filename) s in
           match r with
           | inr text => written text s
           | inl e => written ("cat: " +:+ filename +:+ ": " +:+ e) s
           end)
        args s
  end.

Definition builtin_mkdir (args : list string) (s : io) : io :=
  match args with
  | [] => written "mkdir: missing directory" s
  | _ =>
      fold_left
        (fun s d =>
           let r := do_makedirs F (fst s) d in
           let s := performed (makedirs d) s in
           match r with
           | Some e => written ("mkdir: " +:+ d +:+ ": " +:+ e) s
           | None => s
           end)
        args s
  end.

Definition builtin_rmdir (args : list string) (s : io) : io :=
  match args with
  | [] => written "rmdir: missing directory" s
  | _ =>
      fold_left
        (fun s d =>
           let r := do_rmdir F (fst s) d in
           let s := performed (rmdir d) s in
           match r with
           | Some e => written ("rmdir: " +:+ d +:+ ": " +:+ e) s
           | None => s
           end)
        args s
  end.

(** The body of the loop of [builtin_rm]. *)
Definition builtin_rm_one (s : io) (f : string) : io :=
  let d := do_isdir F (fst s) f in
  let s := performed (isdir f) s in
  if d then written ("rm: " +:+ f +:+ ": is a directory") s
  else
    let r := do_remove F (fst s) f in
    let s := performed (remove f) s in
    match r with
    | Some e => written ("rm: " +:+ f +:+ ": " +:+ e) s
    | None => s
    end.

Definition builtin_rm (args : list string) (s : io) : io :=
  match args with
  | [] => written "rm: missing filename" s
  | _ => fold_left builtin_rm_one args s
  end.

(** The body of the loop of [builtin_touch]. *)
Definition builtin_touch_one (s : io) (fname : string) : io :=
  let r := do_open_append F (fst s) fname in
  let s := performed (open_append fname) s in
  match r with
  | Some e => written ("touch: " +:+ fname +:+ ": " +:+ e) s
  | None =>
      let r := do_utime F (fst s) fname in
      let s := performed (utime fname) s in
      match r with
      | Some e => written ("touch: " +:+ fname +:+ ": " +:+ e) s
      | None => s
      end
  end.

Definition builtin_touch (args : list string) (s : io) : io :=
  match args with
  | [] => written "touch: missing filename" s
  | _ => fold_left builtin_touch_one args s
  end.

End Builtins.

(** A directory [d] holding three names, a file [f] beside it, and
    nothing else. *)
Definition demo : files := {|
  HOME := "/home/user";
  expanduser := fun s => s;
  do_chdir := fun _ _ => None;
  do_getcwd := fun _ => inr "/home/user"%string;
  do_listdir := fun _ path =>
    if String.eqb path "d" then inr ["pear"; "Apple"; "fig"]%string
    else inl "[Errno 2] No such file or directory"%string;
  do_read := fun _ _ => inr ""%string;
  do_makedirs := fun _ _ => None;
  do_rmdir := fun _ _ => None;
  do_isdir := fun _ path => String.eqb path "d";
  do_remove := fun _ path =>
    if String.eqb path "f" then None
    else Some "[Errno 2] No such file or directory"%string;
  do_open_append := fun _ path =>
    if String.eqb path "d" then Some "[Errno 21] Is a directory"%string else None;
  do_utime := fun _ _ => None;
|}.

(** Whether [os.makedirs] has been called on [path]. *)
Definition made (path : string) (ops : list op) : bool :=
  existsb (fun o => match o with makedirs p => String.eqb p path | _ => false end) ops.

(** A file [a] holding a line of text and nothing else, where a
    directory can be made once and a directory that was not made cannot
    be removed. *)
Definition shelf : files := {|
  HOME := "/home/user";
  expanduser := fun s => s;
  do_chdir := fun _ _ => None;
  do_getcwd := fun _ => inr "/home/user"%string;
  do_listdir := fun _ _ => inr ["a"%string];
  do_read := fun _ path =>
    if String.eqb path "a" then inr "first line"%string
    else inl ("[Errno 2] No such file or directory: '" +:+ path +:+ "'");
  do_makedirs := fun ops path =>
    if made path ops then Some ("[Errno 17] File exists: '" +:+ path +:+ "'") else None;
  do_rmdir := fun ops path =>
    if made path ops then None
    else Some ("[Errno 2] No such file or directory: '" +:+ path +:+ "'");
  do_isdir := fun ops path => made path ops;
  do_remove := fun _ path =>
    if String.eqb path "a" then None
    else Some ("[Errno 2] No such file or directory: '" +:+ path +:+ "'");
  do_open_append := fun _ _ => None;
  do_utime := fun _ _ => None;
|}.

End Files.

(** * Vocabulary of the properties *)

(** ** Statuses, as the specification names them *)

(** The terminal statuses: [Exited(<code>)], [Signaled(<sig>)], [Done]. *)
Definition terminal (status : string) : Prop :=
  (exists exitcode, status = Exited exitcode)
  \/ (exists sig, status = Signaled sig)
  \/ status = "Done"%string.

(** The statuses of a job that is still there: [Running], [Stopped]. *)
Definition live (status : string) : Prop :=
  status = "Running"%string \/ status = "Stopped"%string.

(** The ids [prune_done_jobs] collects in [to_remove] at time [now]. *)
Definition to_remove (now : Z) (d : OrderedDict.t Job.t) : list Z :=
  flat_map (fun '(jid, job) =>
              if finished (Job.status job) then
                let age := now - Job.start_time job in
                if age >? DONE_ENTRY_TTL then [jid] else []
              else [])
           d.

(** The text a failed system call adds to the output. *)
Definition complaint (name : string) (r : option string) : list string :=
  match r with
  | Some e => [name +:+ ": " +:+ e]
  | None => []
  end.

(** ** Steps of the shell *)

(** The state the shell is in when a call ends, however it ends. *)
Definition state_of (r : outcome) : shell :=
  match r with
  | Returned st | Raised _ st | Blocked st => st
  end.

(** What the control thread and the reaper do to the shell, one
    operation at a time. *)
Inductive step (W : world) : shell -> shell -> Prop :=
  | step_line fuel line st :
      step W st (state_of (parse_and_execute W fuel line st))
  | step_prune st :
      step W st (prune_done_jobs W st)
  | step_sigchld events st :
      step W st (sigchld_handler events st).

(** [st'] has the ids of [st] in its table and the same counter. *)
Definition same_ids (st st' : shell) : Prop :=
  OrderedDict.keys (jobs st') = OrderedDict.keys (jobs st)
  /\ next_job_id st' = next_job_id st.

(** The counter has not gone back, and an id of the table of [st'] was in
    the table of [st] or has been drawn from the counter since. *)
Definition advances (st st' : shell) : Prop :=
  next_job_id st <= next_job_id st'
  /\ (OrderedDict.wf (jobs st) -> OrderedDict.wf (jobs st'))
  /\ (forall k, In k (OrderedDict.keys (jobs st')) ->
        In k (OrderedDict.keys (jobs st)) \/ next_job_id st <= k < next_job_id st').

(** The registry invariant: a job is in the pid index exactly when its
    status is Running or Stopped. *)
Definition index_matches_status (st : shell) : Prop :=
  forall jid job,
    OrderedDict.get jid (jobs st) = Some job ->
    (pid_to_jid st !! Job.pid job = Some jid <-> live (Job.status job)).

(** ** Concrete environments, to run the program on *)

Module Demo.

(** [int] on an optional minus sign followed by ASCII digits. *)
Fixpoint digits (acc : Z) (s : string) : option Z :=
  match s with
  | EmptyString => Some acc
  | String c s' =>
      let n := Z.of_nat (nat_of_ascii c) in
      if (48 <=? n) && (n <=? 57) then digits (10 * acc + (n - 48)) s' else None
  end.

Definition parse_int (s : string) : option Z :=
  match s with
  | EmptyString => None
  | String "-" EmptyString => None
  | String "-" s' => Z.opp <$> digits 0 s'
  | _ => digits 0 s
  end.

(** The number of double quotes in a line. *)
Fixpoint quotes (s : string) : nat :=
  match s with
  | EmptyString => O
  | String c s' => ((if Nat.eqb (nat_of_ascii c) 34 then 1 else 0) + quotes s')%nat
  end.

(** A machine on which [sleep] is the one program installed and every
    child gets the process id 100.  Lines are split at their spaces, as
    [shlex.split] splits a line without quotes or escapes, and a line
    with an odd number of double quotes is refused as it refuses it.
    [alive] says whether process 100 exists when the shell looks for it
    or signals it, [answers] is what the blocking [waitpid] returns, call
    after call, and [clock] is the time, which may move with the calls
    made. *)
Definition machine_at (alive : bool) (answers : list waited)
    (clock : list os_call -> Z) : world := {|
  strip := fun s => s;
  shlex_split := fun s =>
    if Nat.odd (quotes s) then inl "No closing quotation"%string
    else inr (String.words s);
  int := parse_int;
  time := clock;
  Popen := fun _ argv =>
    match argv with
    | "sleep"%string :: _ => Spawned {| popen_pid := 100 |}
    | _ => FileNotFoundError
    end;
  getpgid := fun _ pid =>
    if alive && (pid =? 100) then inr pid else inl "[Errno 3] No such process"%string;
  killpg := fun _ _ _ => None;
  kill := fun _ pid _ =>
    if alive && (pid =? 100) then None else Some "[Errno 3] No such process"%string;
  waitpid := fun calls _ =>
    nth (length (List.filter (fun c => match c with call_waitpid _ => true | _ => false end)
                             calls))
        answers (WaitRaised "[Errno 10] No child processes");
  file_builtin := fun _ _ _ => FilePrinted [];
|}.

(** The same machine with the clock standing at [now]. *)
Definition machine (alive : bool) (answers : list waited) (now : Z) : world :=
  machine_at alive answers (fun _ => now).

(** The same machine with a clock that moves 100 on at every call. *)
Definition ticking (alive : bool) (answers : list waited) : world :=
  machine_at alive answers (fun calls => 100 * Z.of_nat (length calls)).

End Demo.

(** A shell with three records of different status and age. *)
Definition three_records : shell :=
  mk_shell
    [(1, Job.mk 100 {| popen_pid := 100 |} "sleep 1" "Running" 0 None);
     (2, Job.mk 101 {| popen_pid := 101 |} "sleep 2" (Exited 0) 0 (Some 0));
     (3, Job.mk 102 {| popen_pid := 102 |} "sleep 3" "Done" 50 None)]
    4 {[ 100 := 1 ]} None [] [].

(** The shell after [sleep 1 &] and the reaped exit of the child. *)
Definition after_exit : shell :=
  snd (main (Demo.machine false [] 0) 1 [Line "sleep 1 &"; SIGCHLD [(100, WEXITED 0)]]).

(** ** The registry as a whole *)

(** The registry is consistent: the table holds a key once, a job is in
    the pid index exactly when it is Running or Stopped, and an entry of
    the index leads to a record of the table with that process id. *)
Definition registry_ok (st : shell) : Prop :=
  OrderedDict.wf (jobs st)
  /\ index_matches_status st
  /\ (forall pid jid,
        pid_to_jid st !! pid = Some jid ->
        exists job, OrderedDict.get jid (jobs st) = Some job /\ Job.pid job = pid).

(** [st'] differs from [st] in its output and its record of calls only. *)
Definition quiet (st st' : shell) : Prop :=
  jobs st' = jobs st
  /\ next_job_id st' = next_job_id st
  /\ pid_to_jid st' = pid_to_jid st
  /\ foreground_pid st' = foreground_pid st.

(** The output, the calls, the slot and the counter are the same, the
    table has the same ids, and the index has lost entries at most. *)
Definition silent (st st' : shell) : Prop :=
  stdout st' = stdout st
  /\ calls st' = calls st
  /\ foreground_pid st' = foreground_pid st
  /\ next_job_id st' = next_job_id st
  /\ OrderedDict.keys (jobs st') = OrderedDict.keys (jobs st)
  /\ forall q jid, pid_to_jid st' !! q = Some jid -> pid_to_jid st !! q = Some jid.

(** The events of a drain that carry the id of a process. *)
Definition of_children (events : list (Z * wstatus)) : Prop :=
  Forall (fun e => 0 < fst e) events.

(** ** Blocking waits *)

(** An answer of [os.waitpid] after which a wait loop goes round again:
    an interruption, a process id of 0, a status that is neither a stop
    nor an exit nor a death by signal. *)
Definition inconclusive (w : waited) : bool :=
  match w with
  | InterruptedError => true
  | Waited wpid ws =>
      (wpid =? 0) || match ws with WCONTINUED => true | _ => false end
  | WaitRaised _ => false
  end.

(** The shell after [n] more calls of [os.waitpid] on [pid]. *)
Fixpoint waiting (n : nat) (pid : Z) (st : shell) : shell :=
  match n with
  | O => st
  | S n => waiting n pid (called (call_waitpid pid) st)
  end.

(** The first [n] answers to a wait on [pid] that begins in [st] are
    inconclusive. *)
Definition retried (W : world) (n : nat) (pid : Z) (st : shell) : Prop :=
  forall i, (i < n)%nat -> inconclusive (waitpid W (calls (waiting i pid st)) pid) = true.

(** The shell as [builtin_fg] has it when its wait on [job] begins: the
    continue signal sent, the record Running, the slot taken. *)
Definition fg_entry (W : world) (jid : Z) (job : Job.t) (st : shell) : shell :=
  set_foreground_pid (Some (Job.pid job))
    (set_jobs (OrderedDict.alter (Job.with_status "Running") jid)
       (snd (killpg_getpgid W (Job.pid job) SIGCONT st))).

(** The shell as [launch_external] has it when its wait on a foreground
    child begins. *)
Definition launch_entry (tokens : list string) (p : Popen_obj) (st : shell) : shell :=
  set_foreground_pid (Some (popen_pid p)) (called (call_Popen tokens) st).

(** ** The listing and the order of the table *)

(** The row [builtin_jobs] prints for a record at time [now]. *)
Definition jobs_row (now : Z) (entry : Z * Job.t) : string :=
  let '(jid, job) := entry in
  "[" +:+ str jid +:+ "] " +:+ str (Job.pid job) +:+ " " +:+ Job.status job
  +:+ String (ascii_of_nat 9) (Job.cmdline job)
  +:+ " (age " +:+ str (now - Job.start_time job) +:+ "s)".

(** The ids of the table grow along it, and lie between 1 and the
    counter. *)
Definition ascending_ids (st : shell) : Prop :=
  StronglySorted Z.lt (OrderedDict.keys (jobs st))
  /\ Forall (fun k => 1 <= k < next_job_id st) (OrderedDict.keys (jobs st))
  /\ 1 <= next_job_id st.


(** How a call stands to the slot: it returns or raises with the slot
    empty, or it is in a wait with the slot taken. *)
Definition slot_matches (r : outcome) : Prop :=
  match r with
  | Returned st | Raised _ st => foreground_pid st = None
  | Blocked st => exists pid, foreground_pid st = Some pid
  end.

(** ** The start time of a record *)

(** The wait statuses that end a job: an exit, a death by signal. *)
Definition final (ws : wstatus) : Prop :=
  match ws with
  | WEXITED _ | WSIGNALED _ => True
  | WSTOPPED _ | WCONTINUED => False
  end.

(** [st'] has the counter of [st] and, under every id, a record with the
    start time of the record [st] has there, or none where [st] has
    none. *)
Definition same_stamps (st st' : shell) : Prop :=
  next_job_id st' = next_job_id st
  /\ forall jid,
       Job.start_time <$> find_job_by_jid jid st'
       = Job.start_time <$> find_job_by_jid jid st.

(** The counter has not gone back, and a record that [st'] holds under
    an id drawn before [st] has the start time of the record [st] holds
    under that id. *)
Definition keeps_stamps (st st' : shell) : Prop :=
  next_job_id st <= next_job_id st'
  /\ forall jid job',
       jid < next_job_id st ->
       find_job_by_jid jid st' = Some job' ->
       exists job,
         find_job_by_jid jid st = Some job
         /\ Job.start_time job' = Job.start_time job.

(** * Properties *)

(** ** The dictionary operations *)

Module OrderedDictFacts.
Import OrderedDict.
Section Facts.
Context {V : Type}.
Implicit Types (d : OrderedDict.t V) (k : Z) (v : V).

Lemma get_set k k' v d :
  get k (set k' v d) = if k =? k' then Some v else get k d.
Proof.
  induction d as [|[k0 v0] d IH]; simpl.
  - destruct (k =? k'); reflexivity.
  - destruct (Z.eqb_spec k' k0) as [->|Hne]; simpl.
    + destruct (k =? k0); reflexivity.
    + rewrite IH. destruct (Z.eqb_spec k k0) as [->|]; [|reflexivity].
      destruct (Z.eqb_spec k0 k'); [congruence|reflexivity].
Qed.

Lemma get_alter f k k' d :
  get k (alter f k' d) = if k =? k' then f <$> get k d else get k d.
Proof.
  induction d as [|[k0 v0] d IH]; simpl.
  - destruct (k =? k'); reflexivity.
  - destruct (Z.eqb_spec k' k0) as [->|Hne]; simpl.
    + destruct (k =? k0); reflexivity.
    + rewrite IH. destruct (Z.eqb_spec k k0) as [->|]; [|reflexivity].
      destruct (Z.eqb_spec k0 k'); [congruence|reflexivity].
Qed.

Lemma get_pop k k' d :
  get k (pop k' d) = if k =? k' then None else get k d.
Proof.
  unfold pop. induction d as [|[k0 v0] d IH]; simpl.
  - destruct (k =? k'); reflexivity.
  - destruct (Z.eqb_spec k0 k') as [->|Hne]; simpl.
    + rewrite IH. destruct (k =? k'); reflexivity.
    + rewrite IH. destruct (Z.eqb_spec k k0) as [->|]; [|reflexivity].
      destruct (Z.eqb_spec k0 k'); [congruence|reflexivity].
Qed.

Lemma get_pops k (l : list Z) d :
  get k (fold_left (fun d k' => pop k' d) l d)
  = if existsb (Z.eqb k) l then None else get k d.
Proof.
  revert d. induction l as [|k' l IH]; intros d; simpl; [reflexivity|].
  rewrite IH, get_pop. destruct (k =? k'); simpl; [|reflexivity].
  destruct (existsb _ l); reflexivity.
Qed.

Lemma get_In k v d : get k d = Some v -> In (k, v) d.
Proof.
  induction d as [|[k0 v0] d IH]; simpl; [discriminate|].
  destruct (Z.eqb_spec k k0) as [->|]; [intros [= ->]; auto|auto].
Qed.

Lemma get_None k d : get k d = None <-> ~ In k (keys d).
Proof.
  induction d as [|[k0 v0] d IH]; simpl; [tauto|].
  destruct (Z.eqb_spec k k0) as [->|Hne].
  - split; [discriminate|]. intros H. exfalso. apply H. now left.
  - rewrite IH. split; [intros H [Heq|Hin]; [congruence|tauto]|tauto].
Qed.

Lemma In_get k v d : wf d -> In (k, v) d -> get k d = Some v.
Proof.
  unfold wf. induction d as [|[k0 v0] d IH]; simpl; [tauto|].
  intros Hnd [Heq|Hin].
  - injection Heq as -> ->. rewrite Z.eqb_refl. reflexivity.
  - apply NoDup_cons in Hnd as [Hnotin Hnd].
    destruct (Z.eqb_spec k k0) as [->|]; [|auto].
    exfalso. apply Hnotin. apply list_elem_of_In.
    change k0 with (fst (k0, v)). apply in_map. exact Hin.
Qed.

Lemma mem_true k d : mem k d = true <-> In k (keys d).
Proof.
  unfold mem. destruct (get k d) eqn:E.
  - split; [intros _|reflexivity].
    apply get_In in E. change k with (fst (k, v)). apply in_map, E.
  - apply get_None in E. split; [discriminate|tauto].
Qed.

Lemma get_mem k v d : get k d = Some v -> mem k d = true.
Proof. unfold mem. intros ->. reflexivity. Qed.

Lemma mem_alter f k k' d : mem k (alter f k' d) = mem k d.
Proof.
  unfold mem. rewrite get_alter.
  destruct (k =? k'); [|reflexivity]. destruct (get k d); reflexivity.
Qed.

Lemma keys_alter f k d : keys (alter f k d) = keys d.
Proof.
  induction d as [|[k0 v0] d IH]; simpl; [reflexivity|].
  destruct (k =? k0); simpl; [reflexivity|]. f_equal. exact IH.
Qed.

Lemma keys_set k v d :
  keys (set k v d) = if mem k d then keys d else keys d ++ [k].
Proof.
  unfold mem. induction d as [|[k0 v0] d IH]; simpl; [reflexivity|].
  destruct (Z.eqb_spec k k0) as [->|Hne]; simpl; [reflexivity|].
  rewrite IH. destruct (get k d); reflexivity.
Qed.

Lemma keys_pop k d : keys (pop k d) = List.filter (fun k' => negb (k' =? k)) (keys d).
Proof.
  unfold pop. induction d as [|[k0 v0] d IH]; simpl; [reflexivity|].
  destruct (k0 =? k); simpl; [exact IH|]. f_equal. exact IH.
Qed.

Lemma wf_alter f k d : wf d -> wf (alter f k d).
Proof. unfold wf. rewrite keys_alter. auto. Qed.

Lemma wf_set k v d : wf d -> wf (set k v d).
Proof.
  unfold wf. rewrite keys_set. destruct (mem k d) eqn:E; [auto|].
  intros Hnd. apply NoDup_app. split; [exact Hnd|]. split.
  - intros x Hx Hx'. apply list_elem_of_singleton in Hx'. subst x.
    apply list_elem_of_In in Hx. apply mem_true in Hx. congruence.
  - apply NoDup_singleton.
Qed.

Lemma wf_pop k d : wf d -> wf (pop k d).
Proof.
  unfold wf. rewrite keys_pop. intros Hnd.
  apply NoDup_ListNoDup. apply List.NoDup_filter. apply NoDup_ListNoDup, Hnd.
Qed.

End Facts.
End OrderedDictFacts.


Lemma finished_terminal status : terminal status -> finished status = true.
Proof. intros [[c ->]|[[g ->]| ->]]; reflexivity. Qed.

Lemma finished_live status : live status -> finished status = false.
Proof. intros [->| ->]; reflexivity. Qed.

(** ** The pruner *)

Section Pruner.
Variable W : world.
Import OrderedDict OrderedDictFacts.

Lemma pops_frame (l : list Z) (st : shell) :
  let st' := fold_left (fun st jid => set_jobs (pop jid) st) l st in
  jobs st' = fold_left (fun d k => pop k d) l (jobs st)
  /\ next_job_id st' = next_job_id st
  /\ pid_to_jid st' = pid_to_jid st
  /\ foreground_pid st' = foreground_pid st
  /\ stdout st' = stdout st
  /\ calls st' = calls st.
Proof.
  revert st. induction l as [|k l IH]; intros st; simpl; [tauto|].
  destruct (IH (set_jobs (pop k) st)) as (-> & -> & -> & -> & -> & ->).
  simpl. tauto.
Qed.

Lemma prune_frame (st : shell) :
  let st' := prune_done_jobs W st in
  jobs st' = fold_left (fun d k => pop k d)
               (to_remove (time W (calls st)) (jobs st)) (jobs st)
  /\ next_job_id st' = next_job_id st
  /\ pid_to_jid st' = pid_to_jid st
  /\ foreground_pid st' = foreground_pid st
  /\ stdout st' = stdout st
  /\ calls st' = calls st ++ [call_time].
Proof.
  unfold prune_done_jobs.
  destruct (pops_frame (to_remove (time W (calls st)) (jobs (called call_time st)))
                       (called call_time st)) as (H1 & H2 & H3 & H4 & H5 & H6).
  unfold to_remove in *. simpl in *. tauto.
Qed.

Lemma to_remove_spec (now jid : Z) (d : OrderedDict.t Job.t) :
  existsb (Z.eqb jid) (to_remove now d) = true
  <-> exists job, In (jid, job) d /\ finished (Job.status job) = true
                  /\ now - Job.start_time job > DONE_ENTRY_TTL.
Proof.
  rewrite existsb_exists. unfold to_remove. split.
  - intros (k & Hin & Heq). apply Z.eqb_eq in Heq. subst k.
    apply in_flat_map in Hin as ([k job] & Hin & Hk).
    destruct (finished (Job.status job)) eqn:Hf; [|contradiction].
    destruct (Z.gtb_spec (now - Job.start_time job) DONE_ENTRY_TTL) as [Hgt|];
      [|contradiction].
    destruct Hk as [->|[]]. exists job. split; [exact Hin|]. split; [exact Hf|lia].
  - intros (job & Hin & Hf & Hgt). exists jid. split; [|apply Z.eqb_refl].
    apply in_flat_map. exists (jid, job). split; [exact Hin|].
    rewrite Hf. destruct (Z.gtb_spec (now - Job.start_time job) DONE_ENTRY_TTL);
      [now left|lia].
Qed.

(** What a prune leaves under an id, from what was under it before. *)
Lemma prune_get (st : shell) (jid : Z) (job : Job.t) :
  wf (jobs st) ->
  get jid (jobs st) = Some job ->
  get jid (jobs (prune_done_jobs W st))
  = if finished (Job.status job)
       && (time W (calls st) - Job.start_time job >? DONE_ENTRY_TTL)
    then None else Some job.
Proof.
  intros Hwf Hget. destruct (prune_frame st) as (-> & _). rewrite get_pops.
  destruct (existsb _ _) eqn:E.
  - apply to_remove_spec in E as (job' & Hin & Hf & Hgt).
    apply (In_get _ _ _ Hwf) in Hin. rewrite Hget in Hin. injection Hin as <-.
    rewrite Hf. simpl.
    destruct (Z.gtb_spec (time W (calls st) - Job.start_time job) DONE_ENTRY_TTL);
      [reflexivity|lia].
  - destruct (finished (Job.status job)) eqn:Hf; simpl; [|exact Hget].
    destruct (Z.gtb_spec (time W (calls st) - Job.start_time job) DONE_ENTRY_TTL)
      as [Hgt|]; [|exact Hget].
    assert (existsb (Z.eqb jid) (to_remove (time W (calls st)) (jobs st)) = true)
      as E'; [|congruence].
    apply to_remove_spec. exists job. split; [apply get_In, Hget|]. split; [exact Hf|lia].
Qed.

Lemma prune_get_None (st : shell) (jid : Z) :
  get jid (jobs st) = None -> get jid (jobs (prune_done_jobs W st)) = None.
Proof.
  intros Hget. destruct (prune_frame st) as (-> & _). rewrite get_pops.
  destruct (existsb _ _); [reflexivity|exact Hget].
Qed.

Lemma prune_wf (st : shell) : wf (jobs st) -> wf (jobs (prune_done_jobs W st)).
Proof.
  intros Hwf. destruct (prune_frame st) as (-> & _).
  generalize (to_remove (time W (calls st)) (jobs st)) as l.
  generalize dependent (jobs st).
  intros d Hwf l. revert d Hwf.
  induction l as [|k l IH]; intros d Hwf; simpl; [exact Hwf|].
  apply IH, wf_pop, Hwf.
Qed.

End Pruner.

(** C6. At every prune, taken at the time [now] the clock shows: a record
    whose status is Running or Stopped stays, whatever its age; a record
    whose status is terminal (Exited, Signaled or Done) and whose age
    [now - start_time] exceeds the retention window of 60 is removed; a
    terminal record whose age does not exceed the window stays. *)
Theorem prune_removes_exactly_old_terminal_records
    (W : world) (st : shell) (jid : Z) (job : Job.t) :
  OrderedDict.wf (jobs st) ->
  OrderedDict.get jid (jobs st) = Some job ->
  let now := time W (calls st) in
  let st' := prune_done_jobs W st in
  DONE_ENTRY_TTL = 60
  /\ (live (Job.status job) -> OrderedDict.get jid (jobs st') = Some job)
  /\ (terminal (Job.status job) -> now - Job.start_time job > DONE_ENTRY_TTL ->
      OrderedDict.get jid (jobs st') = None)
  /\ (terminal (Job.status job) -> now - Job.start_time job <= DONE_ENTRY_TTL ->
      OrderedDict.get jid (jobs st') = Some job).
Proof.
  intros Hwf Hget now st'. subst st'.
  rewrite (prune_get W st jid job Hwf Hget). fold now.
  split; [reflexivity|]. split; [|split].
  - intros Hl. rewrite (finished_live _ Hl). reflexivity.
  - intros Ht Hgt. rewrite (finished_terminal _ Ht). simpl.
    destruct (Z.gtb_spec (now - Job.start_time job) DONE_ENTRY_TTL); [reflexivity|lia].
  - intros Ht Hle. rewrite (finished_terminal _ Ht). simpl.
    destruct (Z.gtb_spec (now - Job.start_time job) DONE_ENTRY_TTL); [lia|reflexivity].
Qed.

Lemma three_records_wf : OrderedDict.wf (jobs three_records).
Proof. apply (bool_decide_unpack _). reflexivity. Defined.

Lemma prune_removes_exactly_old_terminal_records_witness :
  let st' := prune_done_jobs (Demo.machine true [] 100) three_records in
  OrderedDict.get 1 (jobs st')
    = Some (Job.mk 100 {| popen_pid := 100 |} "sleep 1" "Running" 0 None)
  /\ OrderedDict.get 2 (jobs st') = None
  /\ OrderedDict.get 3 (jobs st')
     = Some (Job.mk 102 {| popen_pid := 102 |} "sleep 3" "Done" 50 None).
Proof.
  split; [|split].
  - destruct (prune_removes_exactly_old_terminal_records
                (Demo.machine true [] 100) three_records 1 _ three_records_wf eq_refl)
      as (_ & Hlive & _).
    apply Hlive. left. reflexivity.
  - destruct (prune_removes_exactly_old_terminal_records
                (Demo.machine true [] 100) three_records 2 _ three_records_wf eq_refl)
      as (_ & _ & Hold & _).
    apply Hold.
    + left. exists 0. reflexivity.
    + simpl. unfold DONE_ENTRY_TTL. lia.
  - destruct (prune_removes_exactly_old_terminal_records
                (Demo.machine true [] 100) three_records 3 _ three_records_wf eq_refl)
      as (_ & _ & _ & Hyoung).
    apply Hyoung.
    + right. right. reflexivity.
    + simpl. unfold DONE_ENTRY_TTL. lia.
Defined.

(** ** The reaper *)

Section Reaper.
Import OrderedDict OrderedDictFacts.

(** An exit reaped for an indexed job: status and exit code recorded,
    index entry dropped, nothing else touched. *)
Lemma sigchld_exited (st : shell) (pid jid exitcode : Z) (job : Job.t) :
  0 < pid ->
  pid_to_jid st !! pid = Some jid ->
  get jid (jobs st) = Some job ->
  let st' := sigchld_handler [(pid, WEXITED exitcode)] st in
  get jid (jobs st')
    = Some (Job.with_exitcode exitcode (Job.with_status (Exited exitcode) job))
  /\ pid_to_jid st' = delete pid (pid_to_jid st)
  /\ keys (jobs st') = keys (jobs st)
  /\ next_job_id st' = next_job_id st
  /\ calls st' = calls st /\ stdout st' = stdout st.
Proof.
  intros Hpos Hidx Hget. simpl.
  destruct (Z.eqb_spec pid 0); [lia|]. destruct (Z.ltb_spec pid 0); [lia|].
  unfold update_job_status, mark_job_done. rewrite Hidx, (get_mem _ _ _ Hget). simpl.
  rewrite Hidx, !mem_alter, (get_mem _ _ _ Hget). simpl.
  rewrite !get_alter, Z.eqb_refl, Hget, !keys_alter. simpl. tauto.
Qed.

(** The same for a child killed by a signal: the status the handler
    leaves is [Done]. *)
Lemma sigchld_signaled (st : shell) (pid jid sig : Z) (job : Job.t) :
  0 < pid ->
  pid_to_jid st !! pid = Some jid ->
  get jid (jobs st) = Some job ->
  let st' := sigchld_handler [(pid, WSIGNALED sig)] st in
  get jid (jobs st') = Some (Job.with_status "Done" job)
  /\ pid_to_jid st' = delete pid (pid_to_jid st)
  /\ keys (jobs st') = keys (jobs st)
  /\ next_job_id st' = next_job_id st
  /\ calls st' = calls st /\ stdout st' = stdout st.
Proof.
  intros Hpos Hidx Hget. simpl.
  destruct (Z.eqb_spec pid 0); [lia|]. destruct (Z.ltb_spec pid 0); [lia|].
  unfold update_job_status, mark_job_done. rewrite Hidx, (get_mem _ _ _ Hget). simpl.
  rewrite Hidx, !mem_alter, (get_mem _ _ _ Hget). simpl.
  rewrite !get_alter, Z.eqb_refl, Hget, !keys_alter. simpl. tauto.
Qed.

End Reaper.

Lemma Done_is_not_Signaled (sig : Z) : "Done"%string <> Signaled sig.
Proof. unfold Signaled. simpl. discriminate. Qed.

(** C2, as the program behaves.  When the reaper drains the event of a
    child killed by signal [sig], the record of its job ends with the
    status [Done], which is not [Signaled(sig)]: [update_job_status]
    writes [Signaled(sig)] and the [mark_job_done] that follows, called
    without an exit code, overwrites it.  The index entry is removed. *)
Theorem sigchld_signaled_job_ends_Done
    (st : shell) (pid jid sig : Z) (job : Job.t) :
  0 < pid ->
  pid_to_jid st !! pid = Some jid ->
  OrderedDict.get jid (jobs st) = Some job ->
  let st' := sigchld_handler [(pid, WSIGNALED sig)] st in
  (exists job', OrderedDict.get jid (jobs st') = Some job'
                /\ Job.status job' = "Done"%string
                /\ Job.status job' <> Signaled sig)
  /\ pid_to_jid st' !! pid = None.
Proof.
  intros Hpos Hidx Hget st'.
  destruct (sigchld_signaled st pid jid sig job Hpos Hidx Hget) as (H1 & H2 & _).
  split.
  - exists (Job.with_status "Done" job). split; [exact H1|].
    split; [reflexivity|apply Done_is_not_Signaled].
  - subst st'. rewrite H2. apply lookup_delete_eq.
Qed.

Lemma sigchld_signaled_job_ends_Done_witness :
  let st := snd (main (Demo.machine true [] 0) 1 [Line "sleep 1 &"]) in
  let st' := sigchld_handler [(100, WSIGNALED 9)] st in
  (exists job', OrderedDict.get 1 (jobs st') = Some job'
                /\ Job.status job' = "Done"%string
                /\ Job.status job' <> Signaled 9)
  /\ pid_to_jid st' !! 100 = None.
Proof.
  apply (sigchld_signaled_job_ends_Done
           (snd (main (Demo.machine true [] 0) 1 [Line "sleep 1 &"])) 100 1 9
           (Job.mk 100 {| popen_pid := 100 |} "sleep 1" "Running" 0 None)).
  - lia.
  - reflexivity.
  - reflexivity.
Defined.

(** The listing after that event shows the job as [Done]. *)
Example jobs_lists_signaled_job_as_Done :
  let st := snd (main (Demo.machine true [] 0) 1
                   [Line "sleep 1 &"; SIGCHLD [(100, WSIGNALED 9)]; Line "jobs"]) in
  last (stdout st)
  = Some ("[1] 100 Done" +:+ String (ascii_of_nat 9) "sleep 1 (age 0s)").
Proof. reflexivity. Qed.

(** ** Launch failures *)

(** C8. When the spawn fails, whether no executable is found or the
    system refuses the creation, [launch_external] prints one line that
    names [tokens[0]] and returns; no record is created and no id is
    consumed: the job table, the pid index and the id counter are as they
    were. *)
Theorem launch_failure_leaves_registry
    (W : world) (fuel : nat) (t0 : string) (rest : list string)
    (background : bool) (st : shell) :
  let tokens := t0 :: rest in
  Popen W (calls st) tokens = FileNotFoundError
  \/ (exists e, Popen W (calls st) tokens = SpawnRaised e) ->
  exists st' line,
    launch_external W fuel tokens background st = Returned st'
    /\ stdout st' = stdout st ++ [line]
    /\ (line = t0 +:+ ": command not found"
        \/ exists e, line = "Error launching " +:+ t0 +:+ ": " +:+ e)
    /\ jobs st' = jobs st
    /\ next_job_id st' = next_job_id st
    /\ pid_to_jid st' = pid_to_jid st
    /\ foreground_pid st' = foreground_pid st.
Proof.
  intros tokens [H|[e H]]; unfold launch_external; fold tokens; rewrite H; simpl.
  - eexists _, _. split; [reflexivity|]. simpl. split; [reflexivity|].
    split; [left; reflexivity|tauto].
  - eexists _, _. split; [reflexivity|]. simpl. split; [reflexivity|].
    split; [right; exists e; reflexivity|tauto].
Qed.

Lemma launch_failure_leaves_registry_witness :
  exists st' line,
    launch_external (Demo.machine true [] 0) 1 ["nosuch"; "x"]%string true three_records
      = Returned st'
    /\ stdout st' = stdout three_records ++ [line]
    /\ (line = "nosuch" +:+ ": command not found"
        \/ exists e, line = "Error launching " +:+ "nosuch" +:+ ": " +:+ e)
    /\ jobs st' = jobs three_records
    /\ next_job_id st' = next_job_id three_records
    /\ pid_to_jid st' = pid_to_jid three_records
    /\ foreground_pid st' = foreground_pid three_records.
Proof.
  apply (launch_failure_leaves_registry (Demo.machine true [] 0) 1 "nosuch" ["x"%string]
           true three_records).
  left. reflexivity.
Defined.

(** ** Terminate *)

(** C7, as the program behaves.  For every token given to [kill], the job
    table, the pid index and the id counter are left as they were, and:
    - a bare process id [pid] has SIGTERM sent by [os.kill] to that one
      process, not to a process group;
    - a reference [%N] to a job of the table has SIGTERM sent by
      [os.killpg] to the process group of the job's process, when
      [os.getpgid] finds that group, and otherwise the failure is
      printed;
    - a reference [%N] to no job prints [no such job] and calls nothing;
    - a token [int] rejects prints [invalid pid/job] and calls nothing;
    and in every case the tokens after it are still processed. *)
Theorem kill_token_behaviour (W : world) (token : string) (st : shell) :
  let st' := builtin_kill_token W token st in
  (jobs st' = jobs st /\ next_job_id st' = next_job_id st
   /\ pid_to_jid st' = pid_to_jid st)
  /\ (forall pid,
        startswith token "%" = false -> int W token = Some pid ->
        calls st' = calls st ++ [call_kill pid SIGTERM]
        /\ stdout st' = stdout st ++ complaint "kill" (kill W (calls st) pid SIGTERM))
  /\ (forall jid job,
        startswith token "%" = true -> int W (drop_first token) = Some jid ->
        find_job_by_jid jid st = Some job ->
        match getpgid W (calls st) (Job.pid job) with
        | inr pgid =>
            calls st' = calls st ++ [call_getpgid (Job.pid job); call_killpg pgid SIGTERM]
            /\ stdout st'
               = stdout st
                 ++ complaint "kill"
                      (killpg W (calls st ++ [call_getpgid (Job.pid job)]) pgid SIGTERM)
        | inl e =>
            calls st' = calls st ++ [call_getpgid (Job.pid job)]
            /\ stdout st' = stdout st ++ ["kill: " +:+ e]
        end)
  /\ (forall jid,
        startswith token "%" = true -> int W (drop_first token) = Some jid ->
        find_job_by_jid jid st = None ->
        calls st' = calls st
        /\ stdout st' = stdout st ++ ["kill: % " +:+ str jid +:+ ": no such job"])
  /\ (int W (if startswith token "%" then drop_first token else token) = None ->
      calls st' = calls st
      /\ stdout st' = stdout st ++ ["kill: invalid pid/job: " +:+ token])
  /\ (forall rest,
        builtin_kill W (token :: rest) st
        = Returned (fold_left (fun st t => builtin_kill_token W t st) rest st')).
Proof.
  intros st'. subst st'. repeat apply conj.
  1-3: unfold builtin_kill_token, killpg_getpgid, os_kill;
       repeat case_match; simplify_eq; reflexivity.
  - intros pid Hpct Hint. unfold builtin_kill_token, os_kill. rewrite Hpct, Hint.
    destruct (kill W (calls st) pid SIGTERM); simpl; rewrite ?app_nil_r; auto.
  - intros jid job Hpct Hint Hjob. unfold builtin_kill_token, killpg_getpgid.
    rewrite Hpct, Hint, Hjob.
    destruct (getpgid W (calls st) (Job.pid job)) as [e|pgid]; simpl; [auto|].
    destruct (killpg _ _ pgid SIGTERM); simpl; rewrite <- ?app_assoc, ?app_nil_r; auto.
  - intros jid Hpct Hint Hjob. unfold builtin_kill_token. rewrite Hpct, Hint, Hjob. auto.
  - unfold builtin_kill_token. destruct (startswith token "%"); intros ->; auto.
  - reflexivity.
Qed.

(** [kill 100] signals process 100 alone; [kill %1] signals the group of
    job 1; [kill %7] and [kill abc] print one line each and signal
    nothing. *)
Lemma kill_token_behaviour_witness :
  let W := Demo.machine true [] 0 in
  calls (builtin_kill_token W "100" three_records) = [call_kill 100 SIGTERM]
  /\ calls (builtin_kill_token W "%1" three_records)
     = [call_getpgid 100; call_killpg 100 SIGTERM]
  /\ stdout (builtin_kill_token W "%7" three_records) = ["kill: % 7: no such job"%string]
  /\ stdout (builtin_kill_token W "abc" three_records) = ["kill: invalid pid/job: abc"%string]
  /\ jobs (builtin_kill_token W "%7" three_records) = jobs three_records.
Proof.
  intros W. repeat apply conj.
  - destruct (kill_token_behaviour W "100" three_records) as (_ & H & _).
    apply (H 100); reflexivity.
  - destruct (kill_token_behaviour W "%1" three_records) as (_ & _ & H & _).
    apply (H 1 (Job.mk 100 {| popen_pid := 100 |} "sleep 1" "Running" 0 None));
      reflexivity.
  - destruct (kill_token_behaviour W "%7" three_records) as (_ & _ & _ & H & _).
    apply (H 7); reflexivity.
  - destruct (kill_token_behaviour W "abc" three_records) as (_ & _ & _ & _ & H & _).
    apply H; reflexivity.
  - destruct (kill_token_behaviour W "%7" three_records) as ((H & _) & _).
    exact H.
Defined.

(** C7 as stated fails on a bare process id: the signal goes to process
    100 through [os.kill], and no process group is looked up or
    signalled. *)
Lemma kill_bare_pid_signals_no_group :
  let st' := builtin_kill_token (Demo.machine true [] 0) "100" three_records in
  calls st' = [call_kill 100 SIGTERM]
  /\ forall pgid sig, ~ In (call_killpg pgid sig) (calls st').
Proof.
  split; [reflexivity|]. intros pgid sig [H|[]]. discriminate H.
Qed.

(** ** Job ids *)

Section Ids.
Variable W : world.
Import OrderedDict OrderedDictFacts.

Lemma same_ids_refl st : same_ids st st.
Proof. split; reflexivity. Qed.

Lemma same_ids_trans st1 st2 st3 :
  same_ids st1 st2 -> same_ids st2 st3 -> same_ids st1 st3.
Proof. intros [H1 H2] [H3 H4]. split; congruence. Qed.

Lemma same_ids_advances st st' : same_ids st st' -> advances st st'.
Proof.
  intros [Hk Hn]. unfold advances, wf. rewrite Hk, Hn.
  split; [lia|]. split; [auto|]. intros k Hin. left. exact Hin.
Qed.

Lemma advances_refl st : advances st st.
Proof. apply same_ids_advances, same_ids_refl. Qed.

Lemma advances_trans st1 st2 st3 :
  advances st1 st2 -> advances st2 st3 -> advances st1 st3.
Proof.
  intros (Hn1 & Hw1 & Hk1) (Hn2 & Hw2 & Hk2). split; [lia|]. split; [auto|].
  intros k Hin. destruct (Hk2 k Hin) as [Hin2|Hr]; [|right; lia].
  destruct (Hk1 k Hin2) as [Hin1|Hr]; [left; exact Hin1|right; lia].
Qed.

Local Ltac ids :=
  unfold same_ids; simpl; rewrite ?keys_alter; auto.

Lemma same_ids_update_job_status pid status exitcode st :
  same_ids st (update_job_status pid status exitcode st).
Proof. unfold update_job_status. repeat case_match; ids. Qed.

Lemma same_ids_mark_job_done pid exitcode st :
  same_ids st (mark_job_done pid exitcode st).
Proof. unfold mark_job_done. repeat case_match; ids. Qed.

Lemma same_ids_sigchld_handler events st :
  same_ids st (sigchld_handler events st).
Proof.
  revert st. induction events as [|[pid ws] events IH]; intros st; simpl;
    [apply same_ids_refl|].
  destruct (pid =? 0); [apply same_ids_refl|].
  destruct (pid <? 0); [apply same_ids_refl|].
  eapply same_ids_trans; [|apply IH].
  destruct ws;
    eauto using same_ids_trans, same_ids_update_job_status, same_ids_mark_job_done.
Qed.

Lemma same_ids_killpg_getpgid pid sig st :
  same_ids st (snd (killpg_getpgid W pid sig st)).
Proof. unfold killpg_getpgid. case_match; ids. Qed.

Lemma same_ids_fold {A : Type} (f : shell -> A -> shell) (l : list A) st :
  (forall st a, same_ids st (f st a)) -> same_ids st (fold_left f l st).
Proof.
  intros Hf. revert st. induction l as [|a l IH]; intros st; simpl;
    [apply same_ids_refl|].
  eapply same_ids_trans; [apply Hf|apply IH].
Qed.

Lemma same_ids_builtin_kill_token token st :
  same_ids st (builtin_kill_token W token st).
Proof.
  unfold builtin_kill_token, killpg_getpgid, os_kill.
  repeat case_match; simplify_eq; ids.
Qed.

Lemma same_ids_select_job name args st st' :
  select_job W name args st = inl st' -> same_ids st st'.
Proof. unfold select_job. repeat case_match; intros [= <-]; ids. Qed.

Lemma same_ids_builtin_fg_wait fuel jid pid st st' :
  builtin_fg_wait W fuel jid pid st = Some st' -> same_ids st st'.
Proof.
  revert st. induction fuel as [|fuel IH]; intros st; simpl; [discriminate|].
  assert (forall st0, same_ids st (called (call_waitpid pid) st0) ->
            builtin_fg_wait W fuel jid pid (called (call_waitpid pid) st0) = Some st' ->
            same_ids st st') as Hloop.
  { intros st0 Hs Hw. apply IH in Hw. eapply same_ids_trans; eassumption. }
  destruct (waitpid W (calls st) pid) as [|wpid ws|e].
  - apply Hloop. ids.
  - destruct (wpid =? 0); [apply Hloop; ids|].
    destruct ws; try (intros [= <-]; ids). apply Hloop. ids.
  - intros [= <-]. ids.
Qed.

(** Every builtin leaves the ids of the table and the counter alone. *)
Lemma same_ids_builtins fuel cmd builtin args st :
  builtins W fuel cmd = Some builtin -> same_ids st (state_of (builtin args st)).
Proof.
  unfold builtins. repeat case_match; intros [= <-].
  - unfold builtin_exit. simpl.
    eapply same_ids_trans; [|apply same_ids_fold; intros st0 [jid job];
                              apply same_ids_killpg_getpgid].
    ids.
  - ids.
  - ids.
  - unfold builtin_kill. destruct args; simpl; [ids|].
    eapply same_ids_trans; [apply same_ids_builtin_kill_token|].
    apply same_ids_fold. intros; apply same_ids_builtin_kill_token.
  - unfold builtin_jobs. simpl.
    eapply same_ids_trans; [|apply same_ids_fold; intros st0 [jid job]; ids]. ids.
  - unfold builtin_fg. destruct (select_job W "fg" args st) as [st1|jid] eqn:Hsel.
    { simpl. eapply same_ids_select_job, Hsel. }
    destruct (find_job_by_jid jid st) as [job|]; [|ids].
    destruct (builtin_fg_wait _ _ _ _ _) as [st2|] eqn:Hwait; simpl.
    + apply same_ids_builtin_fg_wait in Hwait.
      eapply same_ids_trans; [|eapply same_ids_trans; [exact Hwait|ids]].
      eapply same_ids_trans; [apply (same_ids_killpg_getpgid (Job.pid job) SIGCONT)|ids].
    + eapply same_ids_trans; [apply (same_ids_killpg_getpgid (Job.pid job) SIGCONT)|ids].
  - unfold builtin_bg. destruct (select_job W "bg" args st) as [st1|jid] eqn:Hsel.
    { simpl. eapply same_ids_select_job, Hsel. }
    destruct (find_job_by_jid jid st) as [job|]; [|ids].
    pose proof (same_ids_killpg_getpgid (Job.pid job) SIGCONT st) as Hk.
    destruct (killpg_getpgid W (Job.pid job) SIGCONT st) as [[e|] st1]; simpl in *;
      (eapply same_ids_trans; [exact Hk|ids]).
  - unfold builtin_file. case_match; simpl.
    + eapply same_ids_trans; [|apply same_ids_fold; intros; ids]. ids.
    + ids.
Qed.

Local Ltac registers :=
  unfold add_job, advances; simpl; split; [lia|]; split; [apply wf_set|];
  let k := fresh "k" in
  let Hin := fresh "Hin" in
  intros k; rewrite keys_set; destruct (mem _ _); [auto|];
  intros Hin; apply in_app_or in Hin as [Hin|[<-|[]]]; [auto|right; lia].

(** A registration draws the id at the counter and moves the counter on. *)
Lemma add_job_id p cmdline status st :
  fst (add_job W p cmdline status st) = next_job_id st
  /\ next_job_id (snd (add_job W p cmdline status st)) = next_job_id st + 1.
Proof. unfold add_job. simpl. auto. Qed.

Lemma advances_add_job p cmdline status st :
  advances st (snd (add_job W p cmdline status st)).
Proof. registers. Qed.

Lemma advances_launch_external_wait fuel p cmdline st st' :
  launch_external_wait W fuel p cmdline st = Some st' -> advances st st'.
Proof.
  revert st. induction fuel as [|fuel IH]; intros st; simpl; [discriminate|].
  assert (forall st0, same_ids st (called (call_waitpid (popen_pid p)) st0) ->
            launch_external_wait W fuel p cmdline (called (call_waitpid (popen_pid p)) st0)
            = Some st' ->
            advances st st') as Hloop.
  { intros st0 Hs Hw. apply IH in Hw.
    eapply advances_trans; [apply same_ids_advances|]; eassumption. }
  destruct (waitpid W (calls st) (popen_pid p)) as [|wpid ws|e].
  - apply Hloop. ids.
  - destruct (wpid =? 0); [apply Hloop; ids|].
    destruct ws; try (intros [= <-]; apply same_ids_advances; ids; fail).
    + intros [= <-]. registers.
    + apply Hloop. ids.
  - intros [= <-]. apply same_ids_advances. ids.
Qed.

Lemma advances_launch_external fuel tokens background st :
  advances st (state_of (launch_external W fuel tokens background st)).
Proof.
  unfold launch_external.
  destruct (Popen W (calls st) tokens) as [p| |e].
  - destruct background.
    + registers.
    + destruct (launch_external_wait _ _ _ _ _) as [st1|] eqn:Hwait; simpl.
      * apply advances_launch_external_wait in Hwait.
        eapply advances_trans; [|eapply advances_trans; [exact Hwait|]];
          apply same_ids_advances; ids.
      * apply same_ids_advances. ids.
  - destruct tokens; apply same_ids_advances; ids.
  - destruct tokens; apply same_ids_advances; ids.
Qed.

Lemma advances_parse_and_execute fuel line st :
  advances st (state_of (parse_and_execute W fuel line st)).
Proof.
  unfold parse_and_execute.
  destruct (String.eqb (strip W line) ""); [apply advances_refl|].
  destruct (shlex_split W (strip W line)) as [e|tokens];
    [apply same_ids_advances; ids|].
  destruct tokens as [|t ts]; [apply advances_refl|].
  destruct (background_marker (t :: ts)) as [[|cmd args] background];
    [apply advances_refl|].
  destruct (builtins W fuel cmd) as [builtin|] eqn:Hb;
    [|apply advances_launch_external].
  pose proof (same_ids_builtins fuel cmd builtin args st Hb) as Hs.
  apply same_ids_advances.
  destruct (builtin args st) as [st1|[c|e] st1|st1]; simpl in *; exact Hs.
Qed.

Lemma advances_prune_done_jobs st : advances st (prune_done_jobs W st).
Proof.
  destruct (prune_frame W st) as (Hj & Hn & _). unfold advances.
  rewrite Hn. split; [lia|]. split; [apply prune_wf|].
  intros k Hin. left. apply mem_true. apply mem_true in Hin.
  unfold mem in *. destruct (get k (jobs st)) eqn:E; [reflexivity|].
  rewrite (prune_get_None W st k E) in Hin. discriminate.
Qed.

Lemma advances_step st st' : step W st st' -> advances st st'.
Proof.
  intros [fuel line st0|st0|events st0].
  - apply advances_parse_and_execute.
  - apply advances_prune_done_jobs.
  - apply same_ids_advances, same_ids_sigchld_handler.
Qed.

Lemma advances_steps st st' : rtc (step W) st st' -> advances st st'.
Proof.
  induction 1 as [st|st1 st2 st3 Hstep _ IH]; [apply advances_refl|].
  eapply advances_trans; [apply advances_step, Hstep|exact IH].
Qed.

(** The table of a shell that has run from the start holds a key once,
    and its ids lie between 1 and the counter. *)
Lemma ids_of_reachable st :
  rtc (step W) initial st ->
  wf (jobs st) /\ 1 <= next_job_id st
  /\ forall k, In k (keys (jobs st)) -> 1 <= k < next_job_id st.
Proof.
  intros Hr. apply advances_steps in Hr as (Hn & Hw & Hk). simpl in *.
  split; [apply Hw, NoDup_nil_2|]. split; [exact Hn|].
  intros k Hin. destruct (Hk k Hin) as [[]|Hr]. exact Hr.
Qed.

End Ids.

(** C5. Ids start at 1: the first registration of a shell gets 1.  They
    strictly increase: of two registrations, with any operations of the
    shell between them (commands, prunes, reaped events), the later one
    gets the greater id; and a record that enters the table carries a
    greater id than every record that was in the table before.  None is
    reused: every id in the table of a reachable shell is below the
    counter, the next registration gets the counter itself, a prune
    leaves the counter where it is, and an id that has left the table
    never comes back. *)
Theorem job_ids_start_at_1_and_strictly_increase (W : world) :
  (forall p cmdline status, fst (add_job W p cmdline status initial) = 1)
  /\ (forall st1 st2 p1 cmdline1 status1 p2 cmdline2 status2,
        rtc (step W) initial st1 ->
        rtc (step W) (snd (add_job W p1 cmdline1 status1 st1)) st2 ->
        1 <= fst (add_job W p1 cmdline1 status1 st1)
          < fst (add_job W p2 cmdline2 status2 st2))
  /\ (forall st st' k k',
        rtc (step W) initial st -> rtc (step W) st st' ->
        In k (OrderedDict.keys (jobs st)) ->
        In k' (OrderedDict.keys (jobs st')) ->
        ~ In k' (OrderedDict.keys (jobs st)) ->
        k < k')
  /\ (forall st p cmdline status k,
        rtc (step W) initial st ->
        In k (OrderedDict.keys (jobs st)) ->
        1 <= k < fst (add_job W p cmdline status st))
  /\ (forall st, next_job_id (prune_done_jobs W st) = next_job_id st)
  /\ (forall st0 st st' k,
        rtc (step W) initial st0 -> rtc (step W) st0 st -> rtc (step W) st st' ->
        In k (OrderedDict.keys (jobs st0)) ->
        ~ In k (OrderedDict.keys (jobs st)) ->
        ~ In k (OrderedDict.keys (jobs st'))).
Proof.
  repeat apply conj.
  - reflexivity.
  - intros st1 st2 p1 c1 s1 p2 c2 s2 Hr1 Hr2.
    destruct (ids_of_reachable W st1 Hr1) as (_ & Hn1 & _).
    apply advances_steps in Hr2 as (Hn & _).
    rewrite (proj2 (add_job_id W p1 c1 s1 st1)) in Hn.
    rewrite (proj1 (add_job_id W p1 c1 s1 st1)), (proj1 (add_job_id W p2 c2 s2 st2)). lia.
  - intros st st' k k' Hr Hr' Hk Hk' Hnew.
    destruct (ids_of_reachable W st Hr) as (_ & _ & Hbound).
    apply advances_steps in Hr' as (_ & _ & Hfrom).
    destruct (Hfrom k' Hk') as [Hold|Hge]; [contradiction|].
    specialize (Hbound k Hk). lia.
  - intros st p c s k Hr Hin. rewrite (proj1 (add_job_id W p c s st)).
    apply (ids_of_reachable W st Hr), Hin.
  - intros st. apply (prune_frame W st).
  - intros st0 st st' k Hr0 Hr Hr' Hk0 Hgone Hback.
    destruct (ids_of_reachable W st0 Hr0) as (_ & _ & Hbound).
    specialize (Hbound k Hk0).
    apply advances_steps in Hr as (Hn & _).
    apply advances_steps in Hr' as (_ & _ & Hfrom).
    destruct (Hfrom k Hback) as [Hold|Hge]; [contradiction|lia].
Qed.

(** A job registered, reaped and pruned away: the table is empty again,
    and the next registration still gets a new id. *)
Lemma job_ids_start_at_1_and_strictly_increase_witness :
  let W := Demo.ticking true [] in
  let first := add_job W {| popen_pid := 100 |} "sleep 1" "Running" initial in
  let st2 := prune_done_jobs W (sigchld_handler [(100, WEXITED 0)] (snd first)) in
  let second := add_job W {| popen_pid := 100 |} "sleep 2" "Running" st2 in
  fst first = 1 /\ jobs st2 = [] /\ 1 <= fst first < fst second.
Proof.
  intros W first st2 second.
  destruct (job_ids_start_at_1_and_strictly_increase W) as (Hfirst & Hlater & _).
  split; [apply Hfirst|]. split; [reflexivity|].
  apply (Hlater initial st2).
  - apply rtc_refl.
  - eapply rtc_l; [apply (step_sigchld W [(100, WEXITED 0)])|].
    eapply rtc_l; [apply step_prune|]. apply rtc_refl.
Defined.

(** ** The pid index and the statuses *)

(** C1, as the program behaves.  A shell runs [sleep 1 &], the reaper
    records the exit of the child, and the user types [fg 1].  Before the
    [fg] the invariant holds.  [builtin_fg] finds the record through
    [jobs], sets its status to Running without an index entry, and its
    wait fails at once, the child having been reaped: the shell is left
    with a Running job that the index does not hold. *)
Theorem fg_on_finished_job_breaks_index_invariant :
  let W := Demo.machine false [] 0 in
  let before := snd (main W 1 [Line "sleep 1 &"; SIGCHLD [(100, WEXITED 0)]]) in
  let after :=
    snd (main W 1 [Line "sleep 1 &"; SIGCHLD [(100, WEXITED 0)]; Line "fg 1"]) in
  index_matches_status before
  /\ fst (main W 1 [Line "sleep 1 &"; SIGCHLD [(100, WEXITED 0)]; Line "fg 1"]) = AtPrompt
  /\ OrderedDict.get 1 (jobs after)
     = Some (Job.mk 100 {| popen_pid := 100 |} "sleep 1" "Running" 0 (Some 0))
  /\ pid_to_jid after !! 100 = None
  /\ ~ index_matches_status after.
Proof.
  intros W before after. repeat apply conj.
  - intros jid job.
    change (jobs before)
      with [(1, Job.mk 100 {| popen_pid := 100 |} "sleep 1" (Exited 0) 0 (Some 0))].
    change (pid_to_jid before) with (∅ : gmap Z Z).
    simpl. destruct (jid =? 1); [|discriminate].
    intros [= <-]. simpl. rewrite lookup_empty. split; [discriminate|].
    intros [H|H]; discriminate H.
  - reflexivity.
  - reflexivity.
  - reflexivity.
  - intros Hinv.
    destruct (Hinv 1 (Job.mk 100 {| popen_pid := 100 |} "sleep 1" "Running" 0 (Some 0))
                eq_refl) as [_ H].
    specialize (H (or_introl eq_refl)). discriminate H.
Qed.

(** ** Resuming a finished record *)

Section Resume.
Variable W : world.
Import OrderedDict OrderedDictFacts.

(** A record that is Running or Stopped outlives any number of prunes. *)
Lemma live_record_outlives_prunes (st : shell) (jid : Z) (job : Job.t) (n : nat) :
  wf (jobs st) ->
  get jid (jobs st) = Some job ->
  live (Job.status job) ->
  get jid (jobs (Nat.iter n (prune_done_jobs W) st)) = Some job
  /\ wf (jobs (Nat.iter n (prune_done_jobs W) st)).
Proof.
  intros Hwf Hget Hlive. induction n as [|n [IHget IHwf]]; simpl; [auto|].
  split; [|apply prune_wf, IHwf].
  rewrite (prune_get W _ jid job IHwf IHget), (finished_live _ Hlive). reflexivity.
Qed.

End Resume.

(** C9 as stated fails for [bg]: a shell runs [sleep 1 &], the child
    exits and is reaped, and the user types [bg 1].  The process is gone,
    [os.getpgid] raises, and [builtin_bg] prints the error: the record
    keeps its status [Exited(0)] and the pid index stays without it. *)
Lemma bg_on_finished_job_of_gone_process_is_refused :
  let W := Demo.machine false [] 0 in
  let st := snd (main W 1 [Line "sleep 1 &"; SIGCHLD [(100, WEXITED 0)]; Line "bg 1"]) in
  OrderedDict.get 1 (jobs st)
  = Some (Job.mk 100 {| popen_pid := 100 |} "sleep 1" (Exited 0) 0 (Some 0))
  /\ Exited 0 <> "Running"%string
  /\ pid_to_jid st !! 100 = None
  /\ last (stdout st) = Some "bg: [Errno 3] No such process"%string.
Proof. repeat apply conj; try reflexivity. discriminate. Qed.

(** C9, as the program behaves.  Let [fg] or [bg] select a job that is
    in the table, whatever its status, a terminal one included.
    - [fg] does not reject it: when the process is gone, so that the wait
      fails at once, it returns with the record Running, the pid index
      as it was, and nothing printed.
    - [bg], when the continue signal is delivered, sets the record
      Running, puts its pid in the index and announces it.
    - [bg], when the signal cannot be delivered (the process is gone),
      prints the error and leaves the table and the index as they were.
    A record set Running in this way stays in the table through any
    number of prunes. *)
Theorem resume_of_finished_record
    (W : world) (fuel : nat) (args : list string) (jid : Z) (job : Job.t)
    (st : shell) :
  OrderedDict.wf (jobs st) ->
  find_job_by_jid jid st = Some job ->
  let pid := Job.pid job in
  let revived := Job.with_status "Running" job in
  let sent := killpg_getpgid W pid SIGCONT st in
  (select_job W "fg" args st = inr jid ->
   (exists e, waitpid W (calls (snd sent)) pid = WaitRaised e) ->
   exists st',
     builtin_fg W (S fuel) args st = Returned st'
     /\ OrderedDict.get jid (jobs st') = Some revived
     /\ pid_to_jid st' = pid_to_jid st
     /\ stdout st' = stdout st
     /\ forall n, OrderedDict.get jid (jobs (Nat.iter n (prune_done_jobs W) st'))
                  = Some revived)
  /\ (select_job W "bg" args st = inr jid ->
      fst sent = None ->
      exists st',
        builtin_bg W args st = Returned st'
        /\ OrderedDict.get jid (jobs st') = Some revived
        /\ pid_to_jid st' = <[pid := jid]> (pid_to_jid st)
        /\ stdout st'
           = stdout st ++ ["[" +:+ str jid +:+ "] " +:+ str pid
                           +:+ " continued in background"]
        /\ forall n, OrderedDict.get jid (jobs (Nat.iter n (prune_done_jobs W) st'))
                     = Some revived)
  /\ (select_job W "bg" args st = inr jid ->
      forall e, fst sent = Some e ->
      exists st',
        builtin_bg W args st = Returned st'
        /\ jobs st' = jobs st
        /\ pid_to_jid st' = pid_to_jid st
        /\ stdout st' = stdout st ++ ["bg: " +:+ e]).
Proof.
  intros Hwf Hjob pid revived sent.
  assert (jobs (snd sent) = jobs st /\ pid_to_jid (snd sent) = pid_to_jid st
          /\ stdout (snd sent) = stdout st) as (Hj & Hi & Ho).
  { subst sent. unfold killpg_getpgid. case_match; simpl; auto. }
  assert (Job.status revived = "Running"%string) as Hrun by reflexivity.
  repeat apply conj.
  - intros Hsel [e Hwait]. unfold builtin_fg. rewrite Hsel, Hjob. fold pid. fold sent.
    simpl. rewrite Hwait. simpl. eexists. split; [reflexivity|]. simpl.
    rewrite Hj, Hi, Ho, OrderedDictFacts.get_alter, Z.eqb_refl.
    unfold find_job_by_jid in Hjob. rewrite Hjob. simpl. repeat apply conj; try reflexivity.
    intros n. apply live_record_outlives_prunes; simpl.
    + rewrite Hj. apply OrderedDictFacts.wf_alter, Hwf.
    + rewrite Hj, OrderedDictFacts.get_alter, Z.eqb_refl, Hjob. reflexivity.
    + left. reflexivity.
  - intros Hsel Hsent. unfold builtin_bg. rewrite Hsel, Hjob. fold pid. fold sent.
    destruct sent as [r st1]. simpl in *. subst r. eexists. split; [reflexivity|]. simpl.
    rewrite Hj, Hi, Ho, OrderedDictFacts.get_alter, Z.eqb_refl.
    unfold find_job_by_jid in Hjob. rewrite Hjob. simpl. repeat apply conj; try reflexivity.
    intros n. apply live_record_outlives_prunes; simpl.
    + rewrite Hj. apply OrderedDictFacts.wf_alter, Hwf.
    + rewrite Hj, OrderedDictFacts.get_alter, Z.eqb_refl, Hjob. reflexivity.
    + left. reflexivity.
  - intros Hsel e Hsent. unfold builtin_bg. rewrite Hsel, Hjob. fold pid. fold sent.
    destruct sent as [r st1]. simpl in *. subst r. eexists. split; [reflexivity|]. simpl.
    rewrite Hj, Hi, Ho. auto.
Qed.

Lemma after_exit_wf : OrderedDict.wf (jobs after_exit).
Proof. apply (bool_decide_unpack _). reflexivity. Defined.

(** On that shell: [fg 1] with the process gone, [bg 1] on a machine
    where process 100 exists again, and [bg 1] with the process gone. *)
Lemma resume_of_finished_record_witness :
  let finished_job := Job.mk 100 {| popen_pid := 100 |} "sleep 1" (Exited 0) 0 (Some 0) in
  let revived := Job.mk 100 {| popen_pid := 100 |} "sleep 1" "Running" 0 (Some 0) in
  OrderedDict.get 1 (jobs after_exit) = Some finished_job
  /\ (exists st',
        builtin_fg (Demo.machine false [] 0) 1 ["1"%string] after_exit = Returned st'
        /\ OrderedDict.get 1 (jobs st') = Some revived
        /\ pid_to_jid st' !! 100 = None
        /\ OrderedDict.get 1 (jobs (prune_done_jobs (Demo.machine false [] 1000) st'))
           = Some revived)
  /\ (exists st',
        builtin_bg (Demo.machine true [] 0) ["1"%string] after_exit = Returned st'
        /\ OrderedDict.get 1 (jobs st') = Some revived
        /\ pid_to_jid st' !! 100 = Some 1)
  /\ (exists st',
        builtin_bg (Demo.machine false [] 0) ["1"%string] after_exit = Returned st'
        /\ jobs st' = jobs after_exit
        /\ stdout st' = stdout after_exit ++ ["bg: [Errno 3] No such process"%string]).
Proof.
  intros finished_job revived. split; [reflexivity|]. repeat apply conj.
  - destruct (resume_of_finished_record (Demo.machine false [] 0) 0 ["1"%string] 1
                finished_job after_exit after_exit_wf eq_refl) as (Hfg & _).
    destruct Hfg as (st' & Hrun & Hget & Hidx & _ & _);
      [reflexivity|eexists; reflexivity|].
    exists st'. split; [exact Hrun|]. split; [exact Hget|]. split.
    + rewrite Hidx. reflexivity.
    + injection Hrun as <-. reflexivity.
  - destruct (resume_of_finished_record (Demo.machine true [] 0) 0 ["1"%string] 1
                finished_job after_exit after_exit_wf eq_refl) as (_ & Hbg & _).
    destruct Hbg as (st' & Hrun & Hget & Hidx & _); [reflexivity|reflexivity|].
    exists st'. split; [exact Hrun|]. split; [exact Hget|].
    rewrite Hidx. reflexivity.
  - destruct (resume_of_finished_record (Demo.machine false [] 0) 0 ["1"%string] 1
                finished_job after_exit after_exit_wf eq_refl) as (_ & _ & Hbg).
    destruct (Hbg eq_refl "[Errno 3] No such process"%string eq_refl)
      as (st' & Hrun & Hjobs & _ & Hout).
    exists st'. split; [exact Hrun|]. split; [exact Hjobs|exact Hout].
Defined.

(** ** Errors of job-control operations *)

Section Errors.
Variable W : world.

(** A builtin raises only as [exit] does, or with an [Exception]. *)
Lemma builtins_raised fuel cmd builtin args st e st' :
  builtins W fuel cmd = Some builtin ->
  builtin args st = Raised e st' ->
  (cmd = "exit"%string /\ e = SystemExit 0) \/ exists msg, e = Exception msg.
Proof.
  unfold builtins.
  destruct (String.eqb_spec cmd "exit") as [->|_].
  { intros [= <-]. unfold builtin_exit. intros [= <- _]. left. auto. }
  repeat case_match; intros [= <-].
  - discriminate.
  - discriminate.
  - unfold builtin_kill. destruct args; discriminate.
  - discriminate.
  - unfold builtin_fg. repeat case_match; discriminate.
  - unfold builtin_bg. repeat case_match; discriminate.
  - unfold builtin_file. case_match; [discriminate|].
    intros [= <- _]. right. eauto.
Qed.

(** A launch with a command word never raises. *)
Lemma launch_external_not_raised fuel t0 rest background st e st' :
  launch_external W fuel (t0 :: rest) background st <> Raised e st'.
Proof. unfold launch_external. repeat case_match; discriminate. Qed.

(** What the dispatcher lets out: the [SystemExit] of [exit], and the
    failure of [tokens[0]] on a line that is a background marker only. *)
Lemma parse_and_execute_raised fuel line st e st' :
  parse_and_execute W fuel line st = Raised e st' ->
  exists tokens background,
    shlex_split W (strip W line) = inr tokens
    /\ ((exists args, background_marker tokens = ("exit"%string :: args, background)
                      /\ e = SystemExit 0)
        \/ background_marker tokens = ([], background)).
Proof.
  unfold parse_and_execute.
  destruct (String.eqb (strip W line) ""); [discriminate|].
  destruct (shlex_split W (strip W line)) as [msg|tokens]; [discriminate|].
  destruct tokens as [|t ts]; [discriminate|].
  destruct (background_marker (t :: ts)) as [[|cmd args] background] eqn:Hbm.
  { intros _. exists (t :: ts), background. split; [reflexivity|]. right. exact Hbm. }
  destruct (builtins W fuel cmd) as [builtin|] eqn:Hb.
  - destruct (builtin args st) as [st1|e1 st1|st1] eqn:Hr; try discriminate.
    destruct (builtins_raised fuel cmd builtin args st e1 st1 Hb Hr)
      as [[-> ->]|[msg ->]]; [|discriminate].
    intros [= <- _]. exists (t :: ts), background. split; [reflexivity|].
    left. exists args. split; [exact Hbm|reflexivity].
  - intros H. exfalso. eapply launch_external_not_raised, H.
Qed.

End Errors.

(** C4 as stated fails for [fg]: the shell has run [sleep 1 &], the child
    has exited and has been reaped, and the user types [fg 1].  Looking up
    the process group fails, the wait fails, both exceptions are
    discarded, and [fg] returns without printing a line. *)
Lemma fg_process_lookup_failure_is_silent :
  let W := Demo.machine false [] 0 in
  getpgid W (calls after_exit) 100 = inl "[Errno 3] No such process"%string
  /\ exists st',
       parse_and_execute W 1 "fg 1" after_exit = Returned st'
       /\ stdout st' = stdout after_exit.
Proof. split; [reflexivity|]. eexists. split; reflexivity. Qed.

(** C4, as the program behaves.  On a line that has a command word:
    - a parse failure, an unknown job ([fg], [bg], [kill %N]), a token
      that is no integer ([fg], [bg], [kill]), a failed launch, and a
      process that cannot be found by [kill] or [bg] are each printed as
      one line, and the call returns;
    - a process that cannot be found by [fg] is not reported: [fg]
      returns with nothing printed;
    - the dispatcher lets no exception out other than the [SystemExit] of
      [exit] (and the failure on a line made of the background marker
      alone), and after a call that returns the loop prunes and goes on
      with the next input. *)
Theorem job_control_errors_are_contained (W : world) (fuel : nat) (st : shell) :
  (forall line e,
      String.eqb (strip W line) "" = false ->
      shlex_split W (strip W line) = inl e ->
      parse_and_execute W fuel line st = Returned (print ("Parsing error: " +:+ e) st))
  /\ (forall a args jid,
        int W a = Some jid -> find_job_by_jid jid st = None ->
        builtin_fg W fuel (a :: args) st
        = Returned (print ("fg: job " +:+ str jid +:+ " not found") st)
        /\ builtin_bg W (a :: args) st
           = Returned (print ("bg: job " +:+ str jid +:+ " not found") st))
  /\ (forall token jid,
        startswith token "%" = true -> int W (drop_first token) = Some jid ->
        find_job_by_jid jid st = None ->
        builtin_kill W [token] st
        = Returned (print ("kill: % " +:+ str jid +:+ ": no such job") st))
  /\ (forall a args,
        int W a = None ->
        builtin_fg W fuel (a :: args) st = Returned (print "fg: bad job id" st)
        /\ builtin_bg W (a :: args) st = Returned (print "bg: bad job id" st))
  /\ (forall token,
        int W (if startswith token "%" then drop_first token else token) = None ->
        builtin_kill W [token] st
        = Returned (print ("kill: invalid pid/job: " +:+ token) st))
  /\ (forall t0 rest background,
        Popen W (calls st) (t0 :: rest) = FileNotFoundError
        \/ (exists e, Popen W (calls st) (t0 :: rest) = SpawnRaised e) ->
        exists line,
          launch_external W fuel (t0 :: rest) background st
          = Returned (print line (called (call_Popen (t0 :: rest)) st)))
  /\ (forall token jid job e,
        startswith token "%" = true -> int W (drop_first token) = Some jid ->
        find_job_by_jid jid st = Some job ->
        getpgid W (calls st) (Job.pid job) = inl e ->
        builtin_kill W [token] st
        = Returned (print ("kill: " +:+ e) (called (call_getpgid (Job.pid job)) st)))
  /\ (forall token pid e,
        startswith token "%" = false -> int W token = Some pid ->
        kill W (calls st) pid SIGTERM = Some e ->
        builtin_kill W [token] st
        = Returned (print ("kill: " +:+ e) (called (call_kill pid SIGTERM) st)))
  /\ (forall args jid job e,
        select_job W "bg" args st = inr jid ->
        find_job_by_jid jid st = Some job ->
        getpgid W (calls st) (Job.pid job) = inl e ->
        builtin_bg W args st
        = Returned (print ("bg: " +:+ e) (called (call_getpgid (Job.pid job)) st)))
  /\ (forall args jid job e e',
        select_job W "fg" args st = inr jid ->
        find_job_by_jid jid st = Some job ->
        getpgid W (calls st) (Job.pid job) = inl e ->
        waitpid W (calls st ++ [call_getpgid (Job.pid job)]) (Job.pid job)
        = WaitRaised e' ->
        exists st',
          builtin_fg W (S fuel) args st = Returned st' /\ stdout st' = stdout st)
  /\ (forall line e st',
        parse_and_execute W fuel line st = Raised e st' ->
        exists tokens background,
          shlex_split W (strip W line) = inr tokens
          /\ ((exists args, background_marker tokens = ("exit"%string :: args, background)
                            /\ e = SystemExit 0)
              \/ background_marker tokens = ([], background)))
  /\ (forall line st' rest,
        parse_and_execute W fuel line st = Returned st' ->
        main_loop W fuel (Line line :: rest) st
        = main_loop W fuel rest (prune_done_jobs W st')).
Proof.
  repeat apply conj.
  - intros line e Hne Hsplit. unfold parse_and_execute. rewrite Hne, Hsplit. reflexivity.
  - intros a args jid Hint Hjob. unfold builtin_fg, builtin_bg, select_job.
    rewrite Hint, Hjob. split; reflexivity.
  - intros token jid Hpct Hint Hjob. simpl. unfold builtin_kill_token.
    rewrite Hpct, Hint, Hjob. reflexivity.
  - intros a args Hint. unfold builtin_fg, builtin_bg, select_job. rewrite Hint.
    split; reflexivity.
  - intros token Hint. simpl. unfold builtin_kill_token.
    destruct (startswith token "%"); rewrite Hint; reflexivity.
  - intros t0 rest background [H|[e H]]; unfold launch_external; rewrite H;
      eexists; reflexivity.
  - intros token jid job e Hpct Hint Hjob Hpg. simpl.
    unfold builtin_kill_token, killpg_getpgid. rewrite Hpct, Hint, Hjob, Hpg. reflexivity.
  - intros token pid e Hpct Hint Hk. simpl. unfold builtin_kill_token, os_kill.
    rewrite Hpct, Hint, Hk. reflexivity.
  - intros args jid job e Hsel Hjob Hpg. unfold builtin_bg, killpg_getpgid.
    rewrite Hsel, Hjob, Hpg. reflexivity.
  - intros args jid job e e' Hsel Hjob Hpg Hwait. unfold builtin_fg, killpg_getpgid.
    rewrite Hsel, Hjob, Hpg. simpl. rewrite Hwait. eexists. split; reflexivity.
  - intros line e st' H. eapply parse_and_execute_raised, H.
  - intros line st' rest H. simpl. rewrite H. reflexivity.
Qed.

(** On the shell left by [sleep 1 &] and the exit of the child: a line
    with an open quote, [fg 7], [fg x], [kill %7], [kill x], a program
    that is not installed, [kill %1], [kill 100] and [bg 1] with the
    process gone give one line each; [fg 1] gives none; the loop goes
    on. *)
Lemma job_control_errors_are_contained_witness :
  let W := Demo.machine false [] 0 in
  let st := after_exit in
  parse_and_execute W 1 ("echo " +:+ String (ascii_of_nat 34) "a") st
  = Returned (print "Parsing error: No closing quotation" st)
  /\ builtin_fg W 1 ["7"%string] st = Returned (print "fg: job 7 not found" st)
  /\ builtin_fg W 1 ["x"%string] st = Returned (print "fg: bad job id" st)
  /\ builtin_kill W ["%7"%string] st = Returned (print "kill: % 7: no such job" st)
  /\ builtin_kill W ["x"%string] st = Returned (print "kill: invalid pid/job: x" st)
  /\ (exists line,
        launch_external W 1 ["nosuch"%string] false st
        = Returned (print line (called (call_Popen ["nosuch"%string]) st)))
  /\ builtin_kill W ["%1"%string] st
     = Returned (print "kill: [Errno 3] No such process" (called (call_getpgid 100) st))
  /\ builtin_kill W ["100"%string] st
     = Returned (print "kill: [Errno 3] No such process"
                       (called (call_kill 100 SIGTERM) st))
  /\ builtin_bg W ["1"%string] st
     = Returned (print "bg: [Errno 3] No such process" (called (call_getpgid 100) st))
  /\ (exists st', builtin_fg W 2 ["1"%string] st = Returned st' /\ stdout st' = stdout st)
  /\ fst (main_loop W 1 [Line "bg 1"; Line "fg x"] st) = AtPrompt.
Proof.
  intros W st.
  destruct (job_control_errors_are_contained W 1 st)
    as (Hparse & Hunknown & Hunknown_kill & Hbad & Hbad_kill & Hlaunch & Hgone_job
        & Hgone_pid & Hgone_bg & Hgone_fg & _ & Hloop).
  repeat apply conj.
  - apply Hparse; reflexivity.
  - apply (Hunknown "7"%string [] 7); reflexivity.
  - apply (Hbad "x"%string []); reflexivity.
  - apply (Hunknown_kill "%7"%string 7); reflexivity.
  - apply (Hbad_kill "x"%string); reflexivity.
  - apply (Hlaunch "nosuch"%string [] false). left. reflexivity.
  - apply (Hgone_job "%1"%string 1
             (Job.mk 100 {| popen_pid := 100 |} "sleep 1" (Exited 0) 0 (Some 0)));
      reflexivity.
  - apply (Hgone_pid "100"%string 100); reflexivity.
  - apply (Hgone_bg ["1"%string] 1
             (Job.mk 100 {| popen_pid := 100 |} "sleep 1" (Exited 0) 0 (Some 0)));
      reflexivity.
  - apply (Hgone_fg ["1"%string] 1
             (Job.mk 100 {| popen_pid := 100 |} "sleep 1" (Exited 0) 0 (Some 0))
             "[Errno 3] No such process"%string "[Errno 10] No child processes"%string);
      reflexivity.
  - rewrite (Hloop "bg 1"%string _ [Line "fg x"] eq_refl). reflexivity.
Defined.

(** The line made of the background marker alone: after the marker is
    taken off no token is left, [tokens[0]] fails outside every handler of
    the dispatcher, and the loop ends with [Shell error]. *)
Example background_marker_alone_ends_the_loop :
  main_loop (Demo.machine true [] 0) 1 [Line "&"; Line "jobs"] initial
  = (ShellError "list index out of range",
     print "Shell error: list index out of range" initial).
Proof. reflexivity. Qed.

(** * Further properties *)

(** ** Registering and removing *)

Section Registry.
Variable W : world.
Import OrderedDict OrderedDictFacts.

Lemma pop_absent {V : Type} (k : Z) (d : OrderedDict.t V) :
  get k d = None -> pop k d = d.
Proof.
  unfold pop. induction d as [|[k0 v0] d IH]; simpl; [reflexivity|].
  destruct (Z.eqb_spec k k0) as [->|Hne]; [discriminate|].
  intros H. destruct (Z.eqb_spec k0 k); [congruence|]. simpl. f_equal. auto.
Qed.

Lemma pop_set {V : Type} (k : Z) (v : V) (d : OrderedDict.t V) :
  pop k (set k v d) = pop k d.
Proof.
  unfold pop. induction d as [|[k0 v0] d IH]; simpl.
  - rewrite Z.eqb_refl. reflexivity.
  - destruct (Z.eqb_spec k k0) as [->|Hne]; simpl.
    + rewrite Z.eqb_refl. reflexivity.
    + destruct (Z.eqb_spec k0 k); [congruence|]. simpl. f_equal. exact IH.
Qed.

Lemma alter_alter {V : Type} (f g : V -> V) (k : Z) (d : OrderedDict.t V) :
  alter f k (alter g k d) = alter (fun v => f (g v)) k d.
Proof.
  induction d as [|[k0 v0] d IH]; simpl; [reflexivity|].
  destruct (Z.eqb_spec k k0) as [->|Hne]; simpl.
  - rewrite Z.eqb_refl. reflexivity.
  - destruct (Z.eqb_spec k k0); [congruence|]. f_equal. exact IH.
Qed.

End Registry.

(** X1. A registration can be read back.  When the id at the counter is
    not in the table, [add_job] stores the record under that id with the
    process id, the command line, the status and the time of the call,
    enters the process id in the index, puts the record last in the
    table, and leaves every other record, every other index entry and
    the output as they were. *)
Theorem add_job_can_be_read_back
    (W : world) (p : Popen_obj) (cmdline status : string) (st : shell) :
  OrderedDict.get (next_job_id st) (jobs st) = None ->
  let jid := fst (add_job W p cmdline status st) in
  let st' := snd (add_job W p cmdline status st) in
  jid = next_job_id st
  /\ find_job_by_jid jid st'
     = Some (Job.mk (popen_pid p) p cmdline status (time W (calls st)) None)
  /\ pid_to_jid st' !! popen_pid p = Some jid
  /\ OrderedDict.last_key (jobs st') = Some jid
  /\ (forall k, k <> jid -> find_job_by_jid k st' = find_job_by_jid k st)
  /\ (forall q, q <> popen_pid p -> pid_to_jid st' !! q = pid_to_jid st !! q)
  /\ stdout st' = stdout st.
Proof.
  intros Hfresh jid st'. unfold add_job in jid, st'. simpl in jid, st'.
  subst jid st'. unfold find_job_by_jid. simpl. repeat apply conj.
  - reflexivity.
  - rewrite OrderedDictFacts.get_set, Z.eqb_refl. reflexivity.
  - apply lookup_insert_eq.
  - unfold OrderedDict.last_key. rewrite OrderedDictFacts.keys_set.
    unfold OrderedDict.mem. rewrite Hfresh. apply last_snoc.
  - intros k Hk. rewrite OrderedDictFacts.get_set.
    destruct (Z.eqb_spec k (next_job_id st)); [contradiction|reflexivity].
  - intros q Hq. apply lookup_insert_ne. congruence.
  - reflexivity.
Qed.

Lemma add_job_can_be_read_back_witness :
  let r := add_job (Demo.machine true [] 7) {| popen_pid := 200 |} "sleep 9" "Running"
             three_records in
  fst r = 4
  /\ find_job_by_jid 4 (snd r)
     = Some (Job.mk 200 {| popen_pid := 200 |} "sleep 9" "Running" 7 None)
  /\ pid_to_jid (snd r) !! 200 = Some 4
  /\ OrderedDict.last_key (jobs (snd r)) = Some 4.
Proof.
  destruct (add_job_can_be_read_back (Demo.machine true [] 7) {| popen_pid := 200 |}
              "sleep 9" "Running" three_records eq_refl)
    as (H1 & H2 & H3 & H4 & _).
  repeat apply conj; [exact H1|exact H2|exact H3|exact H4].
Defined.

(** X2. [remove_job_by_pid] takes a job out of the registry by its
    process id: the index entry and the record it leads to are gone, and
    every other record and entry stays.  For a process id that the index
    does not hold it changes nothing. *)
Theorem remove_job_by_pid_removes_record_and_entry (st : shell) (pid : Z) :
  (forall jid,
      pid_to_jid st !! pid = Some jid ->
      let st' := remove_job_by_pid pid st in
      find_job_by_jid jid st' = None
      /\ pid_to_jid st' !! pid = None
      /\ (forall k, k <> jid -> find_job_by_jid k st' = find_job_by_jid k st)
      /\ (forall q, q <> pid -> pid_to_jid st' !! q = pid_to_jid st !! q)
      /\ next_job_id st' = next_job_id st)
  /\ (pid_to_jid st !! pid = None -> remove_job_by_pid pid st = st).
Proof.
  unfold remove_job_by_pid, find_job_by_jid. split.
  - intros jid ->. simpl. repeat apply conj.
    + rewrite OrderedDictFacts.get_pop, Z.eqb_refl. reflexivity.
    + apply lookup_delete_eq.
    + intros k Hk. rewrite OrderedDictFacts.get_pop.
      destruct (Z.eqb_spec k jid); [contradiction|reflexivity].
    + intros q Hq. apply lookup_delete_ne. congruence.
    + reflexivity.
  - intros ->. reflexivity.
Qed.

Lemma remove_job_by_pid_removes_record_and_entry_witness :
  find_job_by_jid 1 (remove_job_by_pid 100 three_records) = None
  /\ pid_to_jid (remove_job_by_pid 100 three_records) !! 100 = None
  /\ remove_job_by_pid 555 three_records = three_records.
Proof.
  destruct (remove_job_by_pid_removes_record_and_entry three_records 100) as [H _].
  destruct (H 1 eq_refl) as (H1 & H2 & _).
  destruct (remove_job_by_pid_removes_record_and_entry three_records 555) as [_ H'].
  repeat apply conj; [exact H1|exact H2|apply H'; reflexivity].
Defined.

(** X3. Removing by process id undoes a registration, except for the
    counter: after [add_job] under a fresh id and [remove_job_by_pid] on
    the process just registered, the table is the one before, the
    process is not in the index, and the counter stays one further: the
    id is not given back. *)
Theorem remove_job_by_pid_undoes_add_job
    (W : world) (p : Popen_obj) (cmdline status : string) (st : shell) :
  OrderedDict.get (next_job_id st) (jobs st) = None ->
  let st' := remove_job_by_pid (popen_pid p) (snd (add_job W p cmdline status st)) in
  jobs st' = jobs st
  /\ pid_to_jid st' = delete (popen_pid p) (pid_to_jid st)
  /\ next_job_id st' = next_job_id st + 1.
Proof.
  intros Hfresh. unfold remove_job_by_pid, add_job. simpl.
  rewrite lookup_insert_eq. simpl. repeat apply conj.
  - rewrite pop_set. apply pop_absent, Hfresh.
  - apply delete_insert_eq.
  - reflexivity.
Qed.

Lemma remove_job_by_pid_undoes_add_job_witness :
  let st' := remove_job_by_pid 200
               (snd (add_job (Demo.machine true [] 7) {| popen_pid := 200 |} "sleep 9"
                       "Running" three_records)) in
  jobs st' = jobs three_records /\ next_job_id st' = 5.
Proof.
  destruct (remove_job_by_pid_undoes_add_job (Demo.machine true [] 7)
              {| popen_pid := 200 |} "sleep 9" "Running" three_records eq_refl)
    as (H1 & _ & H3).
  split; [exact H1|exact H3].
Defined.

(** ** The registry invariant, operation by operation *)

Section RegistryOk.
Import OrderedDict OrderedDictFacts.

Lemma not_live_terminal (status : string) : terminal status -> ~ live status.
Proof.
  intros [[c ->]|[[g ->]| ->]] [H|H]; unfold Exited, Signaled in H; simpl in H;
    discriminate H.
Qed.

(** The consistency of the registry is a matter of the table and the
    index alone. *)
Lemma registry_ok_ext (st st' : shell) :
  jobs st' = jobs st -> pid_to_jid st' = pid_to_jid st ->
  registry_ok st -> registry_ok st'.
Proof. unfold registry_ok, index_matches_status. intros -> ->. auto. Qed.

(** A record of an indexed job is rewritten, keeping its process id and
    ending Running or Stopped. *)
Lemma registry_ok_live_alter (st st' : shell) (jid : Z) (f : Job.t -> Job.t) :
  jobs st' = alter f jid (jobs st) ->
  pid_to_jid st' = pid_to_jid st ->
  (forall j, Job.pid (f j) = Job.pid j) ->
  (forall j, live (Job.status (f j))) ->
  (forall job, get jid (jobs st) = Some job -> pid_to_jid st !! Job.pid job = Some jid) ->
  registry_ok st -> registry_ok st'.
Proof.
  intros Hj Hi Hpid Hlive Hidx (Hwf & Hm & Hg).
  unfold registry_ok, index_matches_status. rewrite Hj, Hi. repeat apply conj.
  - apply wf_alter, Hwf.
  - intros k job'. rewrite get_alter. destruct (Z.eqb_spec k jid) as [->|Hne].
    + destruct (get jid (jobs st)) as [j0|] eqn:E; [|discriminate].
      intros [= <-]. rewrite Hpid. split; [intros _; apply Hlive|intros _; auto].
    + apply Hm.
  - intros q k Hq. destruct (Hg q k Hq) as (job & Hget & Hp).
    rewrite get_alter. destruct (k =? jid); rewrite Hget; simpl; eauto.
    exists (f job). rewrite Hpid. auto.
Qed.

(** A record of an indexed job is rewritten, keeping its process id and
    ending in a status that is neither Running nor Stopped, and its
    process leaves the index. *)
Lemma registry_ok_retire (st st' : shell) (jid pid : Z) (f : Job.t -> Job.t) :
  jobs st' = alter f jid (jobs st) ->
  pid_to_jid st' = delete pid (pid_to_jid st) ->
  (forall j, Job.pid (f j) = Job.pid j) ->
  (forall j, ~ live (Job.status (f j))) ->
  pid_to_jid st !! pid = Some jid ->
  registry_ok st -> registry_ok st'.
Proof.
  intros Hj Hi Hpid Hdead Hidx (Hwf & Hm & Hg).
  destruct (Hg pid jid Hidx) as (j0 & Hget0 & Hp0).
  unfold registry_ok, index_matches_status. rewrite Hj, Hi. repeat apply conj.
  - apply wf_alter, Hwf.
  - intros k job'. rewrite get_alter. destruct (Z.eqb_spec k jid) as [->|Hne].
    + rewrite Hget0. intros [= <-]. rewrite Hpid, Hp0, lookup_delete_eq.
      split; [discriminate|]. intros H. destruct (Hdead j0 H).
    + intros Hget. destruct (Z.eq_dec (Job.pid job') pid) as [Heq|Hneq].
      * rewrite Heq, lookup_delete_eq. split; [discriminate|].
        intros Hl. apply (Hm k job' Hget) in Hl. rewrite Heq, Hidx in Hl. congruence.
      * rewrite lookup_delete_ne by congruence. apply Hm, Hget.
  - intros q k Hq. apply lookup_delete_Some in Hq as [Hne Hq].
    destruct (Hg q k Hq) as (job & Hget & Hp).
    rewrite get_alter. destruct (k =? jid); rewrite Hget; simpl; eauto.
    exists (f job). rewrite Hpid. auto.
Qed.

(** What one reaped event does to the table and the index of a job that
    the index holds. *)
Lemma sigchld_event (st : shell) (pid jid : Z) (ws : wstatus) :
  0 < pid ->
  pid_to_jid st !! pid = Some jid ->
  mem jid (jobs st) = true ->
  let st' := sigchld_handler [(pid, ws)] st in
  match ws with
  | WEXITED c =>
      jobs st' = alter (fun j => Job.with_exitcode c (Job.with_status (Exited c) j))
                       jid (jobs st)
      /\ pid_to_jid st' = delete pid (pid_to_jid st)
  | WSIGNALED _ =>
      jobs st' = alter (Job.with_status "Done") jid (jobs st)
      /\ pid_to_jid st' = delete pid (pid_to_jid st)
  | WSTOPPED _ =>
      jobs st' = alter (Job.with_status "Stopped") jid (jobs st)
      /\ pid_to_jid st' = pid_to_jid st
  | WCONTINUED =>
      jobs st' = alter (Job.with_status "Running") jid (jobs st)
      /\ pid_to_jid st' = pid_to_jid st
  end.
Proof.
  intros Hpos Hidx Hmem. simpl.
  destruct (Z.eqb_spec pid 0); [lia|]. destruct (Z.ltb_spec pid 0); [lia|].
  unfold update_job_status, mark_job_done.
  destruct ws; rewrite Hidx, Hmem; simpl; rewrite ?Hidx, ?mem_alter, ?Hmem; simpl;
    rewrite ?alter_alter; auto.
Qed.

(** An event for a process that the index does not hold changes
    nothing. *)
Lemma sigchld_event_unknown (st : shell) (pid : Z) (ws : wstatus) :
  pid_to_jid st !! pid = None -> sigchld_handler [(pid, ws)] st = st.
Proof.
  intros Hidx. simpl. destruct (pid =? 0); [reflexivity|].
  destruct (pid <? 0); [reflexivity|].
  unfold update_job_status, mark_job_done. destruct ws; rewrite ?Hidx; reflexivity.
Qed.

Lemma sigchld_handler_cons (pid : Z) (ws : wstatus) (events : list (Z * wstatus))
    (st : shell) :
  0 < pid ->
  sigchld_handler ((pid, ws) :: events) st
  = sigchld_handler events (sigchld_handler [(pid, ws)] st).
Proof.
  intros Hpos. simpl.
  destruct (Z.eqb_spec pid 0); [lia|]. destruct (Z.ltb_spec pid 0); [lia|].
  reflexivity.
Qed.

Lemma registry_ok_sigchld_event (st : shell) (pid : Z) (ws : wstatus) :
  registry_ok st -> registry_ok (sigchld_handler [(pid, ws)] st).
Proof.
  intros Hok. destruct (Z_lt_le_dec 0 pid) as [Hpos|Hle].
  2:{ simpl. destruct (Z.eqb_spec pid 0); [exact Hok|].
      destruct (Z.ltb_spec pid 0); [exact Hok|lia]. }
  destruct (pid_to_jid st !! pid) as [jid|] eqn:Hidx.
  2:{ rewrite sigchld_event_unknown by exact Hidx. exact Hok. }
  pose proof Hok as (_ & _ & Hg). destruct (Hg pid jid Hidx) as (j0 & Hget0 & Hp0).
  pose proof (sigchld_event st pid jid ws Hpos Hidx (get_mem _ _ _ Hget0)) as Hev.
  assert (forall job, get jid (jobs st) = Some job ->
                      pid_to_jid st !! Job.pid job = Some jid) as Hself.
  { intros job Hget. rewrite Hget0 in Hget. injection Hget as <-. rewrite Hp0. exact Hidx. }
  destruct ws as [c|g|g|]; destruct Hev as [Hj Hi].
  - eapply registry_ok_retire; try eassumption; [reflexivity|].
    intros j. apply not_live_terminal. left. exists c. reflexivity.
  - eapply registry_ok_retire; try eassumption; [reflexivity|].
    intros j. apply not_live_terminal. right. right. reflexivity.
  - eapply registry_ok_live_alter; try eassumption; [reflexivity|].
    intros j. right. reflexivity.
  - eapply registry_ok_live_alter; try eassumption; [reflexivity|].
    intros j. left. reflexivity.
Qed.

End RegistryOk.

(** ** The reaper, event by event *)

(** X4. When the reaper drains the exit of an indexed job with code
    [exitcode], the record keeps its process id, command line and start
    time, has the status [Exited(exitcode)] and the exit code recorded,
    the process leaves the index, the record stays in the table, and
    every other record and index entry is as before. *)
Theorem sigchld_exit_is_recorded
    (st : shell) (pid jid exitcode : Z) (job : Job.t) :
  0 < pid ->
  pid_to_jid st !! pid = Some jid ->
  find_job_by_jid jid st = Some job ->
  let st' := sigchld_handler [(pid, WEXITED exitcode)] st in
  find_job_by_jid jid st'
  = Some (Job.mk (Job.pid job) (Job.proc job) (Job.cmdline job) (Exited exitcode)
                 (Job.start_time job) (Some exitcode))
  /\ pid_to_jid st' !! pid = None
  /\ (forall k, k <> jid -> find_job_by_jid k st' = find_job_by_jid k st)
  /\ (forall q, q <> pid -> pid_to_jid st' !! q = pid_to_jid st !! q)
  /\ OrderedDict.keys (jobs st') = OrderedDict.keys (jobs st).
Proof.
  intros Hpos Hidx Hget st'. unfold find_job_by_jid in *.
  destruct (sigchld_event st pid jid (WEXITED exitcode) Hpos Hidx
              (OrderedDictFacts.get_mem _ _ _ Hget)) as [Hj Hi].
  fold st' in Hj, Hi. rewrite Hj, Hi. repeat apply conj.
  - rewrite OrderedDictFacts.get_alter, Z.eqb_refl, Hget. reflexivity.
  - apply lookup_delete_eq.
  - intros k Hk. rewrite OrderedDictFacts.get_alter.
    destruct (Z.eqb_spec k jid); [contradiction|reflexivity].
  - intros q Hq. apply lookup_delete_ne. congruence.
  - apply OrderedDictFacts.keys_alter.
Qed.

Lemma sigchld_exit_is_recorded_witness :
  let st' := sigchld_handler [(100, WEXITED 3)] three_records in
  find_job_by_jid 1 st'
  = Some (Job.mk 100 {| popen_pid := 100 |} "sleep 1" (Exited 3) 0 (Some 3))
  /\ pid_to_jid st' !! 100 = None.
Proof.
  destruct (sigchld_exit_is_recorded three_records 100 1 3
              (Job.mk 100 {| popen_pid := 100 |} "sleep 1" "Running" 0 None))
    as (H1 & H2 & _); [lia|reflexivity|reflexivity|].
  split; [exact H1|exact H2].
Defined.

(** X5. When the reaper drains a stop or a continuation of an indexed
    job, the record gets the status [Stopped] or [Running], nothing else
    of it changes, and the index is left as it is: a stopped job stays
    reachable by its process id. *)
Theorem sigchld_stop_and_continue_keep_the_index
    (st : shell) (pid jid : Z) (job : Job.t) (ws : wstatus) (status : string) :
  0 < pid ->
  pid_to_jid st !! pid = Some jid ->
  find_job_by_jid jid st = Some job ->
  (exists sig, ws = WSTOPPED sig) /\ status = "Stopped"%string
  \/ ws = WCONTINUED /\ status = "Running"%string ->
  let st' := sigchld_handler [(pid, ws)] st in
  find_job_by_jid jid st' = Some (Job.with_status status job)
  /\ pid_to_jid st' = pid_to_jid st
  /\ (forall k, k <> jid -> find_job_by_jid k st' = find_job_by_jid k st).
Proof.
  intros Hpos Hidx Hget Hws st'. unfold find_job_by_jid in *.
  pose proof (sigchld_event st pid jid ws Hpos Hidx
                (OrderedDictFacts.get_mem _ _ _ Hget)) as Hev.
  fold st' in Hev.
  destruct Hws as [[[g ->] ->]|[-> ->]]; destruct Hev as [Hj Hi]; rewrite Hj, Hi;
    (repeat apply conj;
     [rewrite OrderedDictFacts.get_alter, Z.eqb_refl, Hget; reflexivity
     |reflexivity
     |intros k Hk; rewrite OrderedDictFacts.get_alter;
      destruct (Z.eqb_spec k jid); [contradiction|reflexivity]]).
Qed.

Lemma sigchld_stop_and_continue_keep_the_index_witness :
  let st' := sigchld_handler [(100, WSTOPPED 20)] three_records in
  find_job_by_jid 1 st'
  = Some (Job.mk 100 {| popen_pid := 100 |} "sleep 1" "Stopped" 0 None)
  /\ pid_to_jid st' = pid_to_jid three_records.
Proof.
  destruct (sigchld_stop_and_continue_keep_the_index three_records 100 1
              (Job.mk 100 {| popen_pid := 100 |} "sleep 1" "Running" 0 None)
              (WSTOPPED 20) "Stopped")
    as (H1 & H2 & _); [lia|reflexivity|reflexivity| |].
  - left. split; [exists 20; reflexivity|reflexivity].
  - split; [exact H1|exact H2].
Defined.

(** X6. The reaper skips what it does not know and stops at the end of
    the queue: an event for a process that is not in the index (a
    foreground child never registered, a job already finished) leaves
    the shell as it is and the drain goes on; an answer with a process
    id that is zero or negative ends the drain, and the events after it
    are not applied. *)
Theorem sigchld_skips_unknown_and_stops_at_nonpositive
    (pid : Z) (ws : wstatus) (events : list (Z * wstatus)) (st : shell) :
  (0 < pid -> pid_to_jid st !! pid = None ->
   sigchld_handler ((pid, ws) :: events) st = sigchld_handler events st)
  /\ (pid <= 0 -> sigchld_handler ((pid, ws) :: events) st = st).
Proof.
  split.
  - intros Hpos Hidx. rewrite sigchld_handler_cons by exact Hpos.
    rewrite sigchld_event_unknown by exact Hidx. reflexivity.
  - intros Hle. simpl. destruct (Z.eqb_spec pid 0); [reflexivity|].
    destruct (Z.ltb_spec pid 0); [reflexivity|lia].
Qed.

Lemma sigchld_skips_unknown_and_stops_at_nonpositive_witness :
  sigchld_handler [(555, WEXITED 0); (100, WSTOPPED 20)] three_records
  = sigchld_handler [(100, WSTOPPED 20)] three_records
  /\ sigchld_handler [(0, WEXITED 0); (100, WSTOPPED 20)] three_records = three_records.
Proof.
  split.
  - apply (sigchld_skips_unknown_and_stops_at_nonpositive 555 (WEXITED 0)
             [(100, WSTOPPED 20)] three_records); [lia|reflexivity].
  - apply (sigchld_skips_unknown_and_stops_at_nonpositive 0 (WEXITED 0)
             [(100, WSTOPPED 20)] three_records). lia.
Defined.

(** X7. Draining two batches of events of children in one call of the
    handler is draining the first batch and then the second: how the
    pending events are split over deliveries of SIGCHLD does not
    matter. *)
Theorem sigchld_batches_compose
    (events1 events2 : list (Z * wstatus)) (st : shell) :
  of_children events1 ->
  sigchld_handler (events1 ++ events2) st
  = sigchld_handler events2 (sigchld_handler events1 st).
Proof.
  unfold of_children. intros Hpos. revert st.
  induction Hpos as [|[pid ws] events1 Hpid _ IH]; intros st; [reflexivity|].
  simpl in Hpid. change (((pid, ws) :: events1) ++ events2)
    with ((pid, ws) :: (events1 ++ events2)).
  rewrite (sigchld_handler_cons pid ws (events1 ++ events2)) by exact Hpid.
  rewrite (sigchld_handler_cons pid ws events1) by exact Hpid. apply IH.
Qed.

Lemma sigchld_batches_compose_witness :
  sigchld_handler ([(100, WSTOPPED 20)] ++ [(100, WCONTINUED); (100, WEXITED 0)])
                  three_records
  = sigchld_handler [(100, WCONTINUED); (100, WEXITED 0)]
      (sigchld_handler [(100, WSTOPPED 20)] three_records).
Proof.
  apply (sigchld_batches_compose [(100, WSTOPPED 20)]
           [(100, WCONTINUED); (100, WEXITED 0)] three_records).
  repeat constructor.
Defined.

Section ReaperFrame.
Import OrderedDict OrderedDictFacts.

Lemma silent_refl st : silent st st.
Proof. unfold silent. auto 10. Qed.

Lemma silent_trans st1 st2 st3 : silent st1 st2 -> silent st2 st3 -> silent st1 st3.
Proof.
  intros (A1 & A2 & A3 & A4 & A5 & A6) (B1 & B2 & B3 & B4 & B5 & B6).
  unfold silent. repeat apply conj; try congruence. auto.
Qed.

Lemma silent_update_job_status pid status exitcode st :
  silent st (update_job_status pid status exitcode st).
Proof.
  unfold update_job_status, silent.
  repeat case_match; simpl; rewrite ?keys_alter; auto 10.
Qed.

Lemma silent_mark_job_done pid exitcode st :
  silent st (mark_job_done pid exitcode st).
Proof.
  unfold mark_job_done, silent.
  repeat case_match; simpl; rewrite ?keys_alter; repeat apply conj; auto;
    intros q jid Hq; apply lookup_delete_Some in Hq as [_ Hq]; exact Hq.
Qed.

Lemma silent_sigchld_handler events st : silent st (sigchld_handler events st).
Proof.
  revert st. induction events as [|[pid ws] events IH]; intros st; simpl;
    [apply silent_refl|].
  destruct (pid =? 0); [apply silent_refl|].
  destruct (pid <? 0); [apply silent_refl|].
  eapply silent_trans; [|apply IH].
  destruct ws;
    eauto using silent_trans, silent_update_job_status, silent_mark_job_done.
Qed.

Lemma registry_ok_sigchld_handler events st :
  registry_ok st -> registry_ok (sigchld_handler events st).
Proof.
  revert st. induction events as [|[pid ws] events IH]; intros st Hok; [exact Hok|].
  destruct (Z_lt_le_dec 0 pid) as [Hpos|Hle].
  - rewrite sigchld_handler_cons by exact Hpos. apply IH, registry_ok_sigchld_event, Hok.
  - simpl. destruct (Z.eqb_spec pid 0); [exact Hok|].
    destruct (Z.ltb_spec pid 0); [exact Hok|lia].
Qed.

Lemma filter_sublist {A : Type} (f : A -> bool) (l : list A) :
  List.filter f l `sublist_of` l.
Proof.
  induction l as [|a l IH]; simpl; [constructor|].
  destruct (f a); [apply sublist_skip|apply sublist_cons]; exact IH.
Qed.

Lemma pops_sublist {V : Type} (l : list Z) (d : OrderedDict.t V) :
  fold_left (fun d k => pop k d) l d `sublist_of` d.
Proof.
  revert d. induction l as [|k l IH]; intros d; simpl; [reflexivity|].
  etrans; [apply IH|]. apply filter_sublist.
Qed.

Lemma prune_survivor (W : world) (st : shell) (k : Z) (job : Job.t) :
  get k (jobs (prune_done_jobs W st)) = Some job -> get k (jobs st) = Some job.
Proof.
  destruct (prune_frame W st) as (-> & _). rewrite get_pops.
  destruct (existsb _ _); [discriminate|auto].
Qed.

End ReaperFrame.

(** X8. The reaper works in silence, whatever it drains: it prints
    nothing, makes no recorded call, leaves the foreground slot and the
    id counter alone, adds no record and removes none, and never adds an
    entry to the pid index. *)
Theorem sigchld_handler_is_silent (events : list (Z * wstatus)) (st : shell) :
  let st' := sigchld_handler events st in
  stdout st' = stdout st
  /\ calls st' = calls st
  /\ foreground_pid st' = foreground_pid st
  /\ next_job_id st' = next_job_id st
  /\ OrderedDict.keys (jobs st') = OrderedDict.keys (jobs st)
  /\ forall q jid, pid_to_jid st' !! q = Some jid -> pid_to_jid st !! q = Some jid.
Proof. apply silent_sigchld_handler. Qed.

(** X9. The reaper keeps the registry consistent: from a registry in
    which the index holds exactly the Running and Stopped jobs, any
    drain of events, known or unknown, leads to a registry of the same
    kind. *)
Theorem sigchld_handler_keeps_registry_consistent
    (events : list (Z * wstatus)) (st : shell) :
  registry_ok st -> registry_ok (sigchld_handler events st).
Proof. apply registry_ok_sigchld_handler. Qed.

Lemma three_records_ok : registry_ok three_records.
Proof.
  split; [apply (bool_decide_unpack _); reflexivity|]. split.
  - intros jid job. unfold three_records. simpl.
    destruct (Z.eqb_spec jid 1) as [->|_];
      [intros [= <-]; simpl; rewrite lookup_singleton_eq; split; [left|]; reflexivity|].
    destruct (Z.eqb_spec jid 2) as [->|_];
      [intros [= <-]; simpl; split; [discriminate|]; intros [H|H]; discriminate H|].
    destruct (Z.eqb_spec jid 3) as [->|_];
      [intros [= <-]; simpl; split; [discriminate|]; intros [H|H]; discriminate H|].
    discriminate.
  - intros q k Hq. unfold three_records in Hq. simpl in Hq.
    apply lookup_singleton_Some in Hq as [<- <-].
    eexists. split; reflexivity.
Defined.

Lemma sigchld_handler_keeps_registry_consistent_witness :
  registry_ok (sigchld_handler [(100, WSTOPPED 20); (7, WEXITED 1); (100, WSIGNALED 9)]
                               three_records).
Proof.
  apply (sigchld_handler_keeps_registry_consistent
           [(100, WSTOPPED 20); (7, WEXITED 1); (100, WSIGNALED 9)] three_records).
  exact three_records_ok.
Defined.

(** X10. A prune only takes records out: what stays in the table is
    what was there, unchanged and in the same order; the pid index, the
    id counter, the foreground slot and the output are untouched, and
    the clock is read once. *)
Theorem prune_only_takes_records_out (W : world) (st : shell) :
  let st' := prune_done_jobs W st in
  jobs st' `sublist_of` jobs st
  /\ pid_to_jid st' = pid_to_jid st
  /\ next_job_id st' = next_job_id st
  /\ foreground_pid st' = foreground_pid st
  /\ stdout st' = stdout st
  /\ calls st' = calls st ++ [call_time].
Proof.
  destruct (prune_frame W st) as (Hj & Hn & Hi & Hf & Ho & Hc). simpl.
  rewrite Hj. split; [apply pops_sublist|]. tauto.
Qed.

(** X11. The pruner keeps the registry consistent: it removes finished
    records only, which the index does not hold, so that every index
    entry still leads to its record. *)
Theorem prune_keeps_registry_consistent (W : world) (st : shell) :
  registry_ok st -> registry_ok (prune_done_jobs W st).
Proof.
  intros (Hwf & Hm & Hg).
  destruct (prune_frame W st) as (_ & _ & Hi & _).
  unfold registry_ok, index_matches_status. rewrite Hi. repeat apply conj.
  - apply prune_wf, Hwf.
  - intros k job Hget. apply Hm, (prune_survivor W st), Hget.
  - intros q k Hq. destruct (Hg q k Hq) as (job & Hget & Hp).
    exists job. split; [|exact Hp].
    rewrite (prune_get W st k job Hwf Hget).
    assert (live (Job.status job)) as Hl by (apply (Hm k job Hget); congruence).
    rewrite (finished_live _ Hl). reflexivity.
Qed.

Lemma prune_keeps_registry_consistent_witness :
  registry_ok (prune_done_jobs (Demo.machine true [] 100) three_records).
Proof.
  apply (prune_keeps_registry_consistent (Demo.machine true [] 100) three_records).
  exact three_records_ok.
Defined.

(** X12. A registration keeps the registry consistent when the job
    starts Running or Stopped, as both callers of [add_job] have it, the
    id at the counter is not in the table, and the process id is not in
    the index. *)
Theorem add_job_keeps_registry_consistent
    (W : world) (p : Popen_obj) (cmdline status : string) (st : shell) :
  registry_ok st ->
  OrderedDict.get (next_job_id st) (jobs st) = None ->
  pid_to_jid st !! popen_pid p = None ->
  live status ->
  registry_ok (snd (add_job W p cmdline status st)).
Proof.
  intros (Hwf & Hm & Hg) Hfresh Hpid Hlive.
  unfold registry_ok, index_matches_status, add_job. simpl. repeat apply conj.
  - apply OrderedDictFacts.wf_set, Hwf.
  - intros k job. rewrite OrderedDictFacts.get_set. destruct (Z.eqb_spec k (next_job_id st)) as [->|Hne].
    + intros [= <-]. simpl. rewrite lookup_insert_eq. tauto.
    + intros Hget. destruct (Z.eq_dec (Job.pid job) (popen_pid p)) as [Heq|Hneq].
      * rewrite Heq, lookup_insert_eq. split; [congruence|].
        intros Hl. apply (Hm k job Hget) in Hl. rewrite Heq, Hpid in Hl. discriminate.
      * rewrite lookup_insert_ne by congruence. apply Hm, Hget.
  - intros q k Hq. apply lookup_insert_Some in Hq as [[<- <-]|[Hne Hq]].
    + rewrite OrderedDictFacts.get_set, Z.eqb_refl. eauto.
    + destruct (Hg q k Hq) as (job & Hget & Hp). exists job. split; [|exact Hp].
      rewrite OrderedDictFacts.get_set. destruct (Z.eqb_spec k (next_job_id st)); [congruence|exact Hget].
Qed.

Lemma add_job_keeps_registry_consistent_witness :
  registry_ok (snd (add_job (Demo.machine true [] 7) {| popen_pid := 200 |} "sleep 9"
                      "Stopped" three_records)).
Proof.
  apply (add_job_keeps_registry_consistent (Demo.machine true [] 7)
           {| popen_pid := 200 |} "sleep 9" "Stopped" three_records).
  - exact three_records_ok.
  - reflexivity.
  - reflexivity.
  - right. reflexivity.
Defined.

(** ** Foreground waits *)

Section Waits.
Variable W : world.
Import OrderedDict OrderedDictFacts.

Lemma retried_S n pid st :
  retried W (S n) pid st ->
  inconclusive (waitpid W (calls st) pid) = true
  /\ retried W n pid (called (call_waitpid pid) st).
Proof.
  intros H. split; [apply (H O); lia|].
  intros i Hi. apply (H (S i)). lia.
Qed.

(** The wait loop of [builtin_fg] goes through inconclusive answers. *)
Lemma builtin_fg_wait_retries n fuel jid pid st :
  retried W n pid st ->
  builtin_fg_wait W (n + fuel) jid pid st
  = builtin_fg_wait W fuel jid pid (waiting n pid st).
Proof.
  revert st. induction n as [|n IH]; intros st Hr; [reflexivity|].
  apply retried_S in Hr as [H0 Hr]. simpl.
  destruct (waitpid W (calls st) pid) as [|wpid ws|e]; simpl in H0.
  - apply IH, Hr.
  - destruct (wpid =? 0); [apply IH, Hr|].
    destruct ws; try discriminate. apply IH, Hr.
  - discriminate.
Qed.

(** The wait loop of [launch_external] does the same. *)
Lemma launch_external_wait_retries n fuel p cmdline st :
  retried W n (popen_pid p) st ->
  launch_external_wait W (n + fuel) p cmdline st
  = launch_external_wait W fuel p cmdline (waiting n (popen_pid p) st).
Proof.
  revert st. induction n as [|n IH]; intros st Hr; [reflexivity|].
  apply retried_S in Hr as [H0 Hr]. simpl.
  destruct (waitpid W (calls st) (popen_pid p)) as [|wpid ws|e]; simpl in H0.
  - apply IH, Hr.
  - destruct (wpid =? 0); [apply IH, Hr|].
    destruct ws; try discriminate. apply IH, Hr.
  - discriminate.
Qed.

(** Waiting changes the record of calls only. *)
Lemma waiting_frame n pid st :
  jobs (waiting n pid st) = jobs st
  /\ next_job_id (waiting n pid st) = next_job_id st
  /\ pid_to_jid (waiting n pid st) = pid_to_jid st
  /\ foreground_pid (waiting n pid st) = foreground_pid st
  /\ stdout (waiting n pid st) = stdout st.
Proof.
  revert st. induction n as [|n IH]; intros st; simpl; [tauto|].
  destruct (IH (called (call_waitpid pid) st)) as (-> & -> & -> & -> & ->). tauto.
Qed.

End Waits.

Section Foreground.
Variable W : world.
Import OrderedDict OrderedDictFacts.

(** Signalling a process group changes the record of calls only. *)
Lemma killpg_getpgid_frame pid sig st :
  let st' := snd (killpg_getpgid W pid sig st) in
  jobs st' = jobs st
  /\ next_job_id st' = next_job_id st
  /\ pid_to_jid st' = pid_to_jid st
  /\ foreground_pid st' = foreground_pid st
  /\ stdout st' = stdout st.
Proof. unfold killpg_getpgid. case_match; simpl; tauto. Qed.

(** The shell at the start of the wait of [builtin_fg], and after [n]
    inconclusive answers. *)
Lemma fg_entry_frame n jid job st :
  let st1 := waiting n (Job.pid job) (fg_entry W jid job st) in
  jobs st1 = alter (Job.with_status "Running") jid (jobs st)
  /\ next_job_id st1 = next_job_id st
  /\ pid_to_jid st1 = pid_to_jid st
  /\ stdout st1 = stdout st.
Proof.
  destruct (waiting_frame n (Job.pid job) (fg_entry W jid job st))
    as (Hj & Hn & Hi & _ & Ho).
  destruct (killpg_getpgid_frame (Job.pid job) SIGCONT st) as (Hj' & Hn' & Hi' & _ & Ho').
  simpl. rewrite Hj, Hn, Hi, Ho. unfold fg_entry. simpl.
  rewrite Hj', Hn', Hi', Ho'. tauto.
Qed.

End Foreground.

(** X13. [fg] records what its wait reports, after any number of
    interruptions and other inconclusive answers.  For a job of the
    table, when the wait ends on
    - an exit with code [c]: the record is [Exited(c)] with the exit
      code recorded, and the process leaves the index;
    - a death by signal [g]: the record is [Signaled(g)], and the process
      leaves the index;
    - a stop: the record is [Stopped], the process is in the index, and
      the stop is announced;
    and in each case [fg] returns with the foreground slot empty, the
    counter and the other records as they were. *)
Theorem fg_records_what_the_wait_reports
    (W : world) (n fuel : nat) (args : list string) (jid : Z) (job : Job.t)
    (wpid : Z) (ws : wstatus) (st : shell) :
  select_job W "fg" args st = inr jid ->
  find_job_by_jid jid st = Some job ->
  let pid := Job.pid job in
  retried W n pid (fg_entry W jid job st) ->
  waitpid W (calls (waiting n pid (fg_entry W jid job st))) pid = Waited wpid ws ->
  inconclusive (Waited wpid ws) = false ->
  exists st',
    builtin_fg W (n + S fuel) args st = Returned st'
    /\ foreground_pid st' = None
    /\ next_job_id st' = next_job_id st
    /\ (forall k, k <> jid -> find_job_by_jid k st' = find_job_by_jid k st)
    /\ match ws with
       | WEXITED c =>
           find_job_by_jid jid st'
           = Some (Job.mk pid (Job.proc job) (Job.cmdline job) (Exited c)
                          (Job.start_time job) (Some c))
           /\ pid_to_jid st' = delete pid (pid_to_jid st)
           /\ stdout st' = stdout st
       | WSIGNALED g =>
           find_job_by_jid jid st' = Some (Job.with_status (Signaled g) job)
           /\ pid_to_jid st' = delete pid (pid_to_jid st)
           /\ stdout st' = stdout st
       | WSTOPPED _ =>
           find_job_by_jid jid st' = Some (Job.with_status "Stopped" job)
           /\ pid_to_jid st' = <[pid := jid]> (pid_to_jid st)
           /\ stdout st'
              = stdout st ++ [String (ascii_of_nat 10)
                                ("[" +:+ str jid +:+ "] " +:+ str pid +:+ " Stopped")]
       | WCONTINUED => False
       end.
Proof.
  intros Hsel Hjob pid Hretried Hwait Hdecisive.
  destruct (fg_entry_frame W n jid job st) as (Hj & Hn & Hi & Ho). fold pid in Hj, Hn, Hi, Ho.
  unfold builtin_fg. rewrite Hsel, Hjob.
  change (set_foreground_pid _ (set_jobs _ (snd (killpg_getpgid W _ SIGCONT st))))
    with (fg_entry W jid job st).
  fold pid. rewrite (builtin_fg_wait_retries W n (S fuel) jid pid _ Hretried).
  simpl builtin_fg_wait. unfold os_waitpid. rewrite Hwait.
  simpl in Hdecisive. apply orb_false_elim in Hdecisive as [Hwpid Hws]. rewrite Hwpid.
  unfold find_job_by_jid in *.
  destruct ws as [c|g|g|]; try discriminate;
    (eexists; split; [reflexivity|]; simpl; rewrite Hj, Hn, Hi, Ho;
     rewrite ?alter_alter;
     split; [reflexivity|]; split; [reflexivity|]; split;
     [intros k Hk; rewrite OrderedDictFacts.get_alter;
      destruct (Z.eqb_spec k jid); [contradiction|reflexivity]
     |rewrite OrderedDictFacts.get_alter, Z.eqb_refl, Hjob; repeat split]).
Qed.

Lemma fg_records_what_the_wait_reports_witness :
  let W := Demo.machine true
             [InterruptedError; Waited 0 WCONTINUED; Waited 100 (WSIGNALED 2)] 0 in
  exists st',
    builtin_fg W 3 ["1"%string] three_records = Returned st'
    /\ find_job_by_jid 1 st'
       = Some (Job.mk 100 {| popen_pid := 100 |} "sleep 1" (Signaled 2) 0 None)
    /\ pid_to_jid st' !! 100 = None
    /\ foreground_pid st' = None.
Proof.
  intros W.
  destruct (fg_records_what_the_wait_reports W 2 0 ["1"%string] 1
              (Job.mk 100 {| popen_pid := 100 |} "sleep 1" "Running" 0 None)
              100 (WSIGNALED 2) three_records)
    as (st' & Hrun & Hslot & _ & _ & Hjob & Hidx & _).
  - reflexivity.
  - reflexivity.
  - intros i Hi. destruct i as [|[|i]]; [reflexivity|reflexivity|lia].
  - reflexivity.
  - reflexivity.
  - exists st'. split; [exact Hrun|]. split; [exact Hjob|].
    split; [rewrite Hidx; reflexivity|exact Hslot].
Defined.

Section ResumeOk.
Variable W : world.
Import OrderedDict OrderedDictFacts.

Lemma registry_ok_builtin_fg_wait fuel jid pid st st' :
  registry_ok st ->
  pid_to_jid st !! pid = Some jid ->
  builtin_fg_wait W fuel jid pid st = Some st' ->
  registry_ok st'.
Proof.
  revert st. induction fuel as [|fuel IH]; intros st Hok Hidx; simpl; [discriminate|].
  assert (registry_ok (called (call_waitpid pid) st)) as Hok'
    by (eapply registry_ok_ext; [| |exact Hok]; reflexivity).
  pose proof Hok as (_ & _ & Hg). destruct (Hg pid jid Hidx) as (j0 & Hget0 & Hp0).
  assert (forall job, get jid (jobs st) = Some job ->
                      pid_to_jid st !! Job.pid job = Some jid) as Hself.
  { intros job Hget. rewrite Hget0 in Hget. injection Hget as <-. rewrite Hp0. exact Hidx. }
  destruct (waitpid W (calls st) pid) as [|wpid ws|e].
  - apply IH; assumption.
  - destruct (wpid =? 0); [apply IH; assumption|].
    destruct ws as [c|g|g|]; try (apply IH; assumption); intros [= <-].
    + eapply (registry_ok_retire st _ jid pid); try eassumption;
        [simpl; rewrite alter_alter; reflexivity|reflexivity|reflexivity|].
      intros j. apply not_live_terminal. left. exists c. reflexivity.
    + eapply (registry_ok_retire st _ jid pid); try eassumption;
        [reflexivity|reflexivity|reflexivity|].
      intros j. apply not_live_terminal. right. left. exists g. reflexivity.
    + eapply (registry_ok_live_alter st _ jid); try eassumption;
        [reflexivity|simpl; apply insert_id, Hidx|reflexivity|].
      intros j. right. reflexivity.
  - intros [= <-]. exact Hok'.
Qed.

Lemma registry_ok_builtin_fg fuel args st :
  registry_ok st ->
  (forall jid job,
      select_job W "fg" args st = inr jid -> find_job_by_jid jid st = Some job ->
      live (Job.status job)) ->
  registry_ok (state_of (builtin_fg W fuel args st)).
Proof.
  intros Hok Hlive. unfold builtin_fg.
  destruct (select_job W "fg" args st) as [st1|jid] eqn:Hsel.
  { simpl. unfold select_job in Hsel.
    repeat case_match; simplify_eq; (eapply registry_ok_ext; [| |exact Hok]; reflexivity). }
  destruct (find_job_by_jid jid st) as [job|] eqn:Hjob;
    [|simpl; eapply registry_ok_ext; [| |exact Hok]; reflexivity].
  specialize (Hlive jid job eq_refl Hjob).
  pose proof Hok as (_ & Hm & _).
  assert (pid_to_jid st !! Job.pid job = Some jid) as Hidx by (apply (Hm jid job Hjob), Hlive).
  destruct (killpg_getpgid_frame W (Job.pid job) SIGCONT st) as (Hj & _ & Hi & _).
  assert (registry_ok (fg_entry W jid job st)) as Hentry.
  { eapply (registry_ok_live_alter st _ jid (Job.with_status "Running"));
      [unfold fg_entry; simpl; rewrite Hj; reflexivity
      |unfold fg_entry; simpl; exact Hi
      |reflexivity
      |intros j; left; reflexivity
      | |exact Hok].
    intros job' Hget. unfold find_job_by_jid in Hjob. rewrite Hjob in Hget.
    injection Hget as <-. exact Hidx. }
  change (set_foreground_pid _ (set_jobs _ (snd (killpg_getpgid W _ SIGCONT st))))
    with (fg_entry W jid job st).
  destruct (builtin_fg_wait W fuel jid (Job.pid job) (fg_entry W jid job st))
    as [st2|] eqn:Hwait; simpl; [|exact Hentry].
  apply (registry_ok_ext st2); [reflexivity|reflexivity|].
  eapply registry_ok_builtin_fg_wait; [exact Hentry| |exact Hwait].
  unfold fg_entry. simpl. rewrite Hi. exact Hidx.
Qed.

Lemma registry_ok_builtin_bg args st :
  registry_ok st ->
  (forall jid job,
      select_job W "bg" args st = inr jid -> find_job_by_jid jid st = Some job ->
      live (Job.status job)) ->
  registry_ok (state_of (builtin_bg W args st)).
Proof.
  intros Hok Hlive. unfold builtin_bg.
  destruct (select_job W "bg" args st) as [st1|jid] eqn:Hsel.
  { simpl. unfold select_job in Hsel.
    repeat case_match; simplify_eq; (eapply registry_ok_ext; [| |exact Hok]; reflexivity). }
  destruct (find_job_by_jid jid st) as [job|] eqn:Hjob;
    [|simpl; eapply registry_ok_ext; [| |exact Hok]; reflexivity].
  specialize (Hlive jid job eq_refl Hjob).
  pose proof Hok as (_ & Hm & _).
  assert (pid_to_jid st !! Job.pid job = Some jid) as Hidx by (apply (Hm jid job Hjob), Hlive).
  destruct (killpg_getpgid_frame W (Job.pid job) SIGCONT st) as (Hj & _ & Hi & _).
  destruct (killpg_getpgid W (Job.pid job) SIGCONT st) as [[e|] st1]; simpl in *.
  - eapply registry_ok_ext; [| |exact Hok]; assumption.
  - eapply (registry_ok_live_alter st _ jid (Job.with_status "Running"));
      [simpl; rewrite Hj; reflexivity
      |simpl; rewrite Hi; apply insert_id, Hidx
      |reflexivity
      |intros j; left; reflexivity
      | |exact Hok].
    intros job' Hget. unfold find_job_by_jid in Hjob. rewrite Hjob in Hget.
    injection Hget as <-. exact Hidx.
Qed.

End ResumeOk.

(** X14. [fg] and [bg] keep the registry consistent when the job they
    select, if there is one, is Running or Stopped: whatever the signal
    and the wait answer, and also when the argument is no job id or the
    job is not found, the index still holds exactly the Running and
    Stopped jobs afterwards. *)
Theorem fg_and_bg_keep_registry_consistent_on_live_jobs
    (W : world) (fuel : nat) (name : string) (args : list string) (st : shell) :
  registry_ok st ->
  (forall jid job,
      select_job W name args st = inr jid -> find_job_by_jid jid st = Some job ->
      live (Job.status job)) ->
  (name = "fg"%string -> registry_ok (state_of (builtin_fg W fuel args st)))
  /\ (name = "bg"%string -> registry_ok (state_of (builtin_bg W args st))).
Proof.
  intros Hok Hlive. split; intros ->.
  - apply registry_ok_builtin_fg; assumption.
  - apply registry_ok_builtin_bg; assumption.
Qed.

Lemma fg_and_bg_keep_registry_consistent_on_live_jobs_witness :
  registry_ok (state_of (builtin_fg (Demo.machine true [Waited 100 (WEXITED 0)] 0) 1
                           ["1"%string] three_records))
  /\ registry_ok (state_of (builtin_bg (Demo.machine true [] 0) [] 
                              (sigchld_handler [(100, WSTOPPED 20)]
                                 (mk_shell
                                    [(1, Job.mk 100 {| popen_pid := 100 |} "sleep 1"
                                           "Running" 0 None)]
                                    2 {[ 100 := 1 ]} None [] [])))).
Proof.
  split.
  - apply (fg_and_bg_keep_registry_consistent_on_live_jobs
             (Demo.machine true [Waited 100 (WEXITED 0)] 0) 1 "fg" ["1"%string]
             three_records three_records_ok); [|reflexivity].
    intros jid job Hs Hf. injection Hs as <-. injection Hf as <-. left. reflexivity.
  - apply (fg_and_bg_keep_registry_consistent_on_live_jobs
             (Demo.machine true [] 0) 0 "bg" []); [| |reflexivity].
    + apply (registry_ok_sigchld_handler [(100, WSTOPPED 20)]).
      split; [apply (bool_decide_unpack _); reflexivity|]. split.
      * intros jid job. simpl. destruct (Z.eqb_spec jid 1) as [->|_]; [|discriminate].
        intros [= <-]. simpl. rewrite lookup_singleton_eq. split; [left|]; reflexivity.
      * intros q k Hq. simpl in Hq. apply lookup_singleton_Some in Hq as [<- <-].
        eexists. split; reflexivity.
    + intros jid job Hs Hf. injection Hs as <-. injection Hf as <-. right. reflexivity.
Defined.

(** ** Launches *)

(** X15. A foreground child gets a record only if it stops.  When the
    wait of a foreground launch ends, after any number of inconclusive
    answers, on an exit or a death by signal, the table, the index, the
    counter and the output are as before the launch; when it ends on a
    stop, the child is registered under the id at the counter as a
    Stopped job with the command line, its process id enters the index,
    and the stop is announced.  In each case the call returns with the
    foreground slot empty. *)
Theorem foreground_launch_registers_only_a_stopped_child
    (W : world) (n fuel : nat) (tokens : list string) (p : Popen_obj)
    (wpid : Z) (ws : wstatus) (st : shell) :
  Popen W (calls st) tokens = Spawned p ->
  let pid := popen_pid p in
  retried W n pid (launch_entry tokens p st) ->
  waitpid W (calls (waiting n pid (launch_entry tokens p st))) pid = Waited wpid ws ->
  inconclusive (Waited wpid ws) = false ->
  exists st',
    launch_external W (n + S fuel) tokens false st = Returned st'
    /\ foreground_pid st' = None
    /\ match ws with
       | WEXITED _ | WSIGNALED _ =>
           jobs st' = jobs st
           /\ pid_to_jid st' = pid_to_jid st
           /\ next_job_id st' = next_job_id st
           /\ stdout st' = stdout st
       | WSTOPPED _ =>
           (exists t,
              find_job_by_jid (next_job_id st) st'
              = Some (Job.mk pid p (join " " tokens) "Stopped" t None))
           /\ pid_to_jid st' = <[pid := next_job_id st]> (pid_to_jid st)
           /\ next_job_id st' = next_job_id st + 1
           /\ stdout st'
              = stdout st ++ [String (ascii_of_nat 10)
                                ("[" +:+ str (next_job_id st) +:+ "] " +:+ str pid
                                 +:+ " Stopped")]
       | WCONTINUED => False
       end.
Proof.
  intros Hspawn pid Hretried Hwait Hdecisive.
  destruct (waiting_frame n pid (launch_entry tokens p st)) as (Hj & Hn & Hi & _ & Ho).
  unfold launch_external. rewrite Hspawn.
  change (set_foreground_pid _ (called (call_Popen tokens) st))
    with (launch_entry tokens p st).
  fold pid. rewrite (launch_external_wait_retries W n (S fuel) p _ _ Hretried). fold pid.
  simpl launch_external_wait. unfold os_waitpid. fold pid. rewrite Hwait.
  simpl in Hdecisive. apply orb_false_elim in Hdecisive as [Hwpid Hws]. rewrite Hwpid.
  unfold find_job_by_jid.
  destruct ws as [c|g|g|]; try discriminate.
  - eexists. split; [reflexivity|]. simpl. rewrite Hj, Hi, Hn, Ho. tauto.
  - eexists. split; [reflexivity|]. simpl. rewrite Hj, Hi, Hn, Ho. tauto.
  - unfold add_job. simpl. eexists. split; [reflexivity|]. simpl.
    rewrite Hi, Hn, Ho. split; [reflexivity|]. split; [|tauto].
    eexists. rewrite OrderedDictFacts.get_set, Z.eqb_refl. reflexivity.
Qed.

Lemma foreground_launch_registers_only_a_stopped_child_witness :
  (exists st',
     launch_external (Demo.machine true [InterruptedError; Waited 100 (WEXITED 0)] 0) 2
       ["sleep"; "1"]%string false three_records = Returned st'
     /\ jobs st' = jobs three_records /\ next_job_id st' = 4)
  /\ (exists st',
        launch_external (Demo.machine true [Waited 100 (WSTOPPED 20)] 5) 1
          ["sleep"; "1"]%string false initial = Returned st'
        /\ find_job_by_jid 1 st'
           = Some (Job.mk 100 {| popen_pid := 100 |} "sleep 1" "Stopped" 5 None)
        /\ foreground_pid st' = None).
Proof.
  split.
  - destruct (foreground_launch_registers_only_a_stopped_child
                (Demo.machine true [InterruptedError; Waited 100 (WEXITED 0)] 0) 1 0
                ["sleep"; "1"]%string {| popen_pid := 100 |} 100 (WEXITED 0)
                three_records)
      as (st' & Hrun & _ & Hj & _ & Hn & _).
    + reflexivity.
    + intros i Hi. destruct i as [|i]; [reflexivity|lia].
    + reflexivity.
    + reflexivity.
    + exists st'. split; [exact Hrun|]. split; [exact Hj|exact Hn].
  - destruct (foreground_launch_registers_only_a_stopped_child
                (Demo.machine true [Waited 100 (WSTOPPED 20)] 5) 0 0
                ["sleep"; "1"]%string {| popen_pid := 100 |} 100 (WSTOPPED 20) initial)
      as (st' & Hrun & Hslot & _).
    + reflexivity.
    + intros i Hi. lia.
    + reflexivity.
    + reflexivity.
    + exists st'. split; [exact Hrun|]. split; [|exact Hslot].
      injection Hrun as <-. reflexivity.
Defined.

(** X16. A background launch registers and returns at once: the child is
    in the table under the id at the counter as a Running job with the
    command line and the time of registration, its process id is in the
    index, the counter moves on by one, the line [[jid] pid] is printed,
    and the only calls made are the spawn and the reading of the clock:
    there is no wait, whatever the fuel, and the foreground slot is not
    touched. *)
Theorem background_launch_registers_and_returns
    (W : world) (fuel : nat) (tokens : list string) (p : Popen_obj) (st : shell) :
  Popen W (calls st) tokens = Spawned p ->
  let pid := popen_pid p in
  let jid := next_job_id st in
  exists st',
    launch_external W fuel tokens true st = Returned st'
    /\ find_job_by_jid jid st'
       = Some (Job.mk pid p (join " " tokens) "Running"
                      (time W (calls st ++ [call_Popen tokens])) None)
    /\ pid_to_jid st' = <[pid := jid]> (pid_to_jid st)
    /\ next_job_id st' = jid + 1
    /\ stdout st' = stdout st ++ ["[" +:+ str jid +:+ "] " +:+ str pid]
    /\ calls st' = calls st ++ [call_Popen tokens; call_time]
    /\ foreground_pid st' = foreground_pid st.
Proof.
  intros Hspawn pid jid. unfold launch_external. rewrite Hspawn.
  unfold add_job, find_job_by_jid. simpl. eexists. split; [reflexivity|]. simpl.
  rewrite OrderedDictFacts.get_set, Z.eqb_refl, <- app_assoc. repeat split.
Qed.

Lemma background_launch_registers_and_returns_witness :
  exists st',
    launch_external (Demo.machine true [] 5) 0 ["sleep"; "1"]%string true three_records
    = Returned st'
    /\ find_job_by_jid 4 st'
       = Some (Job.mk 100 {| popen_pid := 100 |} "sleep 1" "Running" 5 None)
    /\ last (stdout st') = Some "[4] 100"%string.
Proof.
  destruct (background_launch_registers_and_returns (Demo.machine true [] 5) 0
              ["sleep"; "1"]%string {| popen_pid := 100 |} three_records eq_refl)
    as (st' & Hrun & Hjob & _ & _ & Hout & _).
  exists st'. split; [exact Hrun|]. split; [exact Hjob|]. rewrite Hout. reflexivity.
Defined.

(** ** Builtins that leave the registry alone *)

Section Quiet.
Variable W : world.

Lemma quiet_refl st : quiet st st.
Proof. unfold quiet. auto. Qed.

Lemma quiet_trans st1 st2 st3 : quiet st1 st2 -> quiet st2 st3 -> quiet st1 st3.
Proof.
  intros (A1 & A2 & A3 & A4) (B1 & B2 & B3 & B4).
  unfold quiet. repeat apply conj; congruence.
Qed.

Lemma quiet_fold {A : Type} (f : shell -> A -> shell) (l : list A) st :
  (forall st a, quiet st (f st a)) -> quiet st (fold_left f l st).
Proof.
  intros Hf. revert st. induction l as [|a l IH]; intros st; simpl;
    [apply quiet_refl|].
  eapply quiet_trans; [apply Hf|apply IH].
Qed.

Lemma quiet_killpg_getpgid pid sig st : quiet st (snd (killpg_getpgid W pid sig st)).
Proof. unfold killpg_getpgid, quiet. case_match; simpl; auto. Qed.

Lemma quiet_builtin_kill_token token st : quiet st (builtin_kill_token W token st).
Proof.
  unfold builtin_kill_token, killpg_getpgid, os_kill, quiet.
  repeat case_match; simplify_eq; simpl; auto.
Qed.

Lemma fold_print (lines : list string) (st : shell) :
  let st' := fold_left (fun st l => print l st) lines st in
  quiet st st' /\ stdout st' = stdout st ++ lines /\ calls st' = calls st.
Proof.
  revert st. induction lines as [|l lines IH]; intros st; simpl.
  - rewrite app_nil_r. split; [apply quiet_refl|auto].
  - destruct (IH (print l st)) as (Hq & Ho & Hc). simpl in *.
    rewrite Ho, Hc, <- app_assoc. split; [|auto].
    eapply quiet_trans; [|exact Hq]. unfold quiet. auto.
Qed.

Lemma builtin_jobs_rows (now : Z) (d : OrderedDict.t Job.t) (st : shell) :
  let st' :=
    fold_left
      (fun st '(jid, job) =>
         let status := Job.status job in
         let age := now - Job.start_time job in
         print ("[" +:+ str jid +:+ "] " +:+ str (Job.pid job) +:+ " " +:+ status
                +:+ String (ascii_of_nat 9) (Job.cmdline job)
                +:+ " (age " +:+ str age +:+ "s)") st)
      d st in
  quiet st st' /\ stdout st' = stdout st ++ map (jobs_row now) d /\ calls st' = calls st.
Proof.
  revert st. induction d as [|[jid job] d IH]; intros st; simpl.
  - rewrite app_nil_r. split; [apply quiet_refl|auto].
  - match goal with |- context [fold_left _ d ?s] => destruct (IH s) as (Hq & Ho & Hc) end.
    simpl in *. rewrite Ho, Hc, <- app_assoc. split; [|auto].
    eapply quiet_trans; [|exact Hq]. unfold quiet. auto.
Qed.

End Quiet.

Lemma quiet_builtins (W : world) (fuel : nat) (cmd : string)
    (builtin : list string -> shell -> outcome) (args : list string) (st : shell) :
  builtins W fuel cmd = Some builtin ->
  cmd <> "fg"%string -> cmd <> "bg"%string ->
  quiet st (state_of (builtin args st)).
Proof.
  intros Hb Hfg Hbg.
  unfold builtins in Hb.
  destruct (String.eqb_spec cmd "fg") as [->|_]; [contradiction|].
  destruct (String.eqb_spec cmd "bg") as [->|_]; [contradiction|].
  repeat case_match; simplify_eq.
  - unfold builtin_exit. simpl.
    eapply quiet_trans; [|apply quiet_fold; intros st0 [jid job];
                          apply quiet_killpg_getpgid].
    unfold quiet. auto.
  - unfold quiet. auto.
  - unfold quiet. auto.
  - unfold builtin_kill. destruct args; simpl; [unfold quiet; auto|].
    eapply quiet_trans; [apply quiet_builtin_kill_token|].
    apply quiet_fold. intros. apply quiet_builtin_kill_token.
  - unfold builtin_jobs. simpl.
    destruct (builtin_jobs_rows (time W (calls st)) (jobs st) (called call_time st))
      as (Hq & _).
    eapply quiet_trans; [|exact Hq]. unfold quiet. auto.
  - unfold builtin_file. case_match; simpl.
    + match goal with |- context [fold_left _ ?l ?s] =>
        destruct (fold_print l s) as (Hq & _) end.
      eapply quiet_trans; [|exact Hq]. unfold quiet. auto.
    + unfold quiet. auto.
Qed.


(** X17. Every builtin except [fg] and [bg] leaves the registry alone:
    [kill], [jobs], [exit], [echo], [clear] and the file builtins return
    or raise with the table, the id counter, the pid index and the
    foreground slot exactly as they found them.  In particular [kill]
    never marks a job as finished: that is left to the reaper. *)
Theorem builtins_other_than_fg_and_bg_leave_registry
    (W : world) (fuel : nat) (cmd : string)
    (builtin : list string -> shell -> outcome) (args : list string) (st : shell) :
  builtins W fuel cmd = Some builtin ->
  cmd <> "fg"%string -> cmd <> "bg"%string ->
  let st' := state_of (builtin args st) in
  jobs st' = jobs st
  /\ next_job_id st' = next_job_id st
  /\ pid_to_jid st' = pid_to_jid st
  /\ foreground_pid st' = foreground_pid st.
Proof.
  intros Hb Hfg Hbg st'. subst st'.
  destruct (quiet_builtins W fuel cmd builtin args st Hb Hfg Hbg) as (H1 & H2 & H3 & H4).
  auto.
Qed.

Lemma builtins_other_than_fg_and_bg_leave_registry_witness :
  let st' := state_of (builtin_kill (Demo.machine true [] 0) ["%1"; "100"; "x"]%string
                         three_records) in
  jobs st' = jobs three_records /\ pid_to_jid st' = pid_to_jid three_records.
Proof.
  destruct (builtins_other_than_fg_and_bg_leave_registry (Demo.machine true [] 0) 0
              "kill" (builtin_kill (Demo.machine true [] 0)) ["%1"; "100"; "x"]%string
              three_records eq_refl)
    as (H1 & _ & H3 & _); [discriminate|discriminate|].
  split; [exact H1|exact H3].
Defined.

(** X18. [jobs] prints the table as it stands: one row per record, in
    the order of insertion, finished records included, each with the
    id, the process id, the status, the command line and the age counted
    from the start time; it reads the clock once, takes no notice of its
    arguments, and prints nothing for an empty table. *)
Theorem jobs_prints_one_row_per_record
    (W : world) (args : list string) (st : shell) :
  exists st',
    builtin_jobs W args st = Returned st'
    /\ stdout st' = stdout st ++ map (jobs_row (time W (calls st))) (jobs st)
    /\ calls st' = calls st ++ [call_time]
    /\ jobs st' = jobs st.
Proof.
  unfold builtin_jobs. eexists. split; [reflexivity|].
  destruct (builtin_jobs_rows (time W (calls st)) (jobs st) (called call_time st))
    as ((Hj & _) & Ho & Hc).
  simpl in *. rewrite Ho, Hc, Hj. auto.
Qed.

(** ** The background marker *)

Section Marker.

Lemma rev_app_snoc (s acc : string) (c : ascii) :
  String.rev_app (s +:+ String c "") acc = String c (String.rev_app s acc).
Proof.
  revert acc. induction s as [|a s IH]; intros acc; simpl; [reflexivity|]. apply IH.
Qed.

Lemma rev_snoc (s : string) (c : ascii) :
  String.rev (s +:+ String c "") = String c (String.rev s).
Proof. unfold String.rev. apply rev_app_snoc. Qed.

Lemma endswith_snoc (s : string) (c : ascii) :
  endswith (s +:+ String c "") (String c "") = true.
Proof.
  unfold endswith, startswith. rewrite rev_snoc. simpl.
  destruct (ascii_dec c c); [|congruence]. destruct (String.rev s); reflexivity.
Qed.

Lemma drop_last_snoc (s : string) (c : ascii) : drop_last (s +:+ String c "") = s.
Proof.
  induction s as [|a s IH]; simpl; [reflexivity|].
  rewrite IH. destruct s; reflexivity.
Qed.

Lemma snoc_not_single (s : string) (c : ascii) :
  s <> ""%string -> String.eqb (s +:+ String c "") (String c "") = false.
Proof.
  destruct s as [|a s]; [congruence|]. intros _. simpl.
  destruct (Ascii.eqb a c); [|reflexivity]. destruct s; reflexivity.
Qed.

Lemma background_marker_apart (tokens : list string) :
  background_marker (tokens ++ ["&"%string]) = (tokens, true).
Proof.
  unfold background_marker. rewrite last_snoc. simpl.
  rewrite removelast_last. reflexivity.
Qed.

Lemma background_marker_attached (tokens : list string) (t : string) :
  t <> ""%string ->
  background_marker (tokens ++ [t +:+ "&"]) = (tokens ++ [t], true).
Proof.
  intros Ht. unfold background_marker. rewrite last_snoc.
  rewrite (snoc_not_single t "&" Ht), (endswith_snoc t "&"). simpl.
  rewrite removelast_last, (drop_last_snoc t "&"). reflexivity.
Qed.

End Marker.

(** X19. The background marker may stand apart or be attached.  A token
    list that ends in [&] loses that token, one whose last token ends in
    [&] loses that character, and both are marked for the background;
    and two lines that the tokenizer splits into [... t &] and
    [... t&] are executed in the same way. *)
Theorem background_marker_apart_or_attached
    (W : world) (fuel : nat) (line1 line2 : string) (tokens : list string)
    (t : string) (st : shell) :
  t <> ""%string ->
  background_marker ((tokens ++ [t]) ++ ["&"%string]) = (tokens ++ [t], true)
  /\ background_marker (tokens ++ [t +:+ "&"]) = (tokens ++ [t], true)
  /\ (String.eqb (strip W line1) "" = false ->
      String.eqb (strip W line2) "" = false ->
      shlex_split W (strip W line1) = inr ((tokens ++ [t]) ++ ["&"%string]) ->
      shlex_split W (strip W line2) = inr (tokens ++ [t +:+ "&"]) ->
      parse_and_execute W fuel line1 st = parse_and_execute W fuel line2 st).
Proof.
  intros Ht. split; [apply background_marker_apart|].
  split; [apply background_marker_attached, Ht|].
  intros Hne1 Hne2 Hs1 Hs2. unfold parse_and_execute.
  rewrite Hne1, Hne2, Hs1, Hs2.
  destruct ((tokens ++ [t]) ++ ["&"%string]) as [|a l] eqn:E1;
    [apply app_eq_nil in E1 as [_ E1]; discriminate E1|].
  destruct (tokens ++ [t +:+ "&"]) as [|b m] eqn:E2;
    [apply app_eq_nil in E2 as [_ E2]; discriminate E2|].
  rewrite <- E1, <- E2, background_marker_apart, (background_marker_attached _ _ Ht).
  reflexivity.
Qed.

Lemma background_marker_apart_or_attached_witness :
  let W := Demo.machine true [] 0 in
  parse_and_execute W 0 "sleep 5 &" three_records
  = parse_and_execute W 0 "sleep 5&" three_records.
Proof.
  intros W.
  destruct (background_marker_apart_or_attached W 0 "sleep 5 &" "sleep 5&"
              ["sleep"%string] "5" three_records) as (_ & _ & H); [discriminate|].
  apply H; reflexivity.
Defined.

(** ** Leaving the shell *)

Section ExitCalls.
Variable W : world.


End ExitCalls.



(** ** The loop *)

(** X21. The loop takes its input piece by piece: when a run over a
    first batch of inputs ends at the prompt, the run over that batch
    followed by a second one is the run over the second from the shell
    the first has left; when the first run has ended otherwise (end of
    input, [exit], an escaped exception, a wait that has not returned),
    what follows is not read at all. *)
Theorem main_loop_runs_batch_after_batch
    (W : world) (fuel : nat) (inputs1 inputs2 : list input) (st : shell) :
  (fst (main_loop W fuel inputs1 st) = AtPrompt ->
   main_loop W fuel (inputs1 ++ inputs2) st
   = main_loop W fuel inputs2 (snd (main_loop W fuel inputs1 st)))
  /\ (fst (main_loop W fuel inputs1 st) <> AtPrompt ->
      main_loop W fuel (inputs1 ++ inputs2) st = main_loop W fuel inputs1 st).
Proof.
  revert st. induction inputs1 as [|i inputs1 IH]; intros st.
  - split; [reflexivity|]. intros H. contradiction H. reflexivity.
  - destruct i as [line| | |events]; simpl.
    + destruct (parse_and_execute W fuel line st) as [st1|[code|e] st1|st1];
        simpl; try (split; [discriminate|reflexivity]).
      apply IH.
    + split; [discriminate|reflexivity].
    + apply IH.
    + apply IH.
Qed.

Lemma main_loop_runs_batch_after_batch_witness :
  let W := Demo.machine true [] 0 in
  main_loop W 0 ([Line "sleep 1 &"; SIGCHLD [(100, WEXITED 0)]] ++ [Line "jobs"]) initial
  = main_loop W 0 [Line "jobs"]
      (snd (main_loop W 0 [Line "sleep 1 &"; SIGCHLD [(100, WEXITED 0)]] initial))
  /\ main_loop W 0 ([EOFError] ++ [Line "jobs"]) initial = main_loop W 0 [EOFError] initial.
Proof.
  intros W. split.
  - apply (main_loop_runs_batch_after_batch W 0
             [Line "sleep 1 &"; SIGCHLD [(100, WEXITED 0)]] [Line "jobs"] initial).
    reflexivity.
  - apply (main_loop_runs_batch_after_batch W 0 [EOFError] [Line "jobs"] initial).
    discriminate.
Defined.

(** ** The order of the table *)

Section Ascending.
Variable W : world.
Import OrderedDict OrderedDictFacts.

Lemma StronglySorted_snoc (l : list Z) (x : Z) :
  StronglySorted Z.lt l -> Forall (fun k => k < x) l -> StronglySorted Z.lt (l ++ [x]).
Proof.
  induction 1 as [|a l Hs IH Ha]; intros Hx; simpl.
  - repeat constructor.
  - apply Forall_cons in Hx as [Hax Hx]. constructor; [auto|].
    apply Forall_app. split; [exact Ha|]. repeat constructor. exact Hax.
Qed.

Lemma StronglySorted_filter (f : Z -> bool) (l : list Z) :
  StronglySorted Z.lt l -> StronglySorted Z.lt (List.filter f l).
Proof.
  induction 1 as [|a l Hs IH Ha]; simpl; [constructor|].
  destruct (f a); [|exact IH]. constructor; [exact IH|].
  apply Forall_forall. intros k Hk. apply list_elem_of_In, filter_In in Hk as [Hk _].
  eapply Forall_forall in Ha; [exact Ha|]. apply list_elem_of_In, Hk.
Qed.

Lemma last_is_greatest (l : list Z) (x : Z) :
  StronglySorted Z.lt l -> last l = Some x -> In x l /\ forall k, In k l -> k <= x.
Proof.
  induction 1 as [|a l Hs IH Ha]; [discriminate|].
  destruct l as [|b l].
  - intros [= <-]. split; [now left|]. intros k [<-|[]]. lia.
  - intros Hlast. change (last (b :: l) = Some x) in Hlast.
    destruct (IH Hlast) as [Hin Hle]. split; [now right|].
    intros k [<-|Hk]; [|auto].
    eapply Forall_forall in Ha; [|apply list_elem_of_In, Hin]. lia.
Qed.

Lemma ascending_same st st' : same_ids st st' -> ascending_ids st -> ascending_ids st'.
Proof. intros [Hk Hn]. unfold ascending_ids. rewrite Hk, Hn. auto. Qed.

Lemma ascending_register st st' (v : Job.t) :
  jobs st' = set (next_job_id st) v (jobs st) ->
  next_job_id st' = next_job_id st + 1 ->
  ascending_ids st -> ascending_ids st'.
Proof.
  intros Hj Hn (Hs & Hb & H1). unfold ascending_ids. rewrite Hj, Hn, keys_set.
  assert (mem (next_job_id st) (jobs st) = false) as ->.
  { destruct (mem (next_job_id st) (jobs st)) eqn:E; [|reflexivity].
    apply mem_true in E. eapply Forall_forall in Hb; [|apply list_elem_of_In, E]. lia. }
  repeat apply conj; [| |lia].
  - apply StronglySorted_snoc; [exact Hs|].
    eapply Forall_impl; [exact Hb|]. simpl. intros; lia.
  - apply Forall_app. split; [|repeat constructor; lia].
    eapply Forall_impl; [exact Hb|]. simpl. intros; lia.
Qed.

Lemma ascending_prune_done_jobs st :
  ascending_ids st -> ascending_ids (prune_done_jobs W st).
Proof.
  destruct (prune_frame W st) as (Hj & Hn & _). unfold ascending_ids.
  rewrite Hj, Hn. generalize (to_remove (time W (calls st)) (jobs st)) as l.
  generalize (jobs st) as d. intros d l. revert d.
  induction l as [|k l IH]; intros d H; simpl; [exact H|].
  apply IH. destruct H as (Hs & Hb & H1). rewrite keys_pop.
  repeat apply conj; [apply StronglySorted_filter, Hs| |exact H1].
  apply Forall_forall. intros x Hx. apply list_elem_of_In, filter_In in Hx as [Hx _].
  eapply Forall_forall in Hb; [exact Hb|]. apply list_elem_of_In, Hx.
Qed.

Lemma ascending_launch_external_wait fuel p cmdline st st' :
  launch_external_wait W fuel p cmdline st = Some st' ->
  ascending_ids st -> ascending_ids st'.
Proof.
  revert st. induction fuel as [|fuel IH]; intros st; simpl; [discriminate|].
  assert (launch_external_wait W fuel p cmdline (called (call_waitpid (popen_pid p)) st)
          = Some st' -> ascending_ids st -> ascending_ids st') as Hloop.
  { intros Hw Ha. eapply IH; [exact Hw|]. exact Ha. }
  destruct (waitpid W (calls st) (popen_pid p)) as [|wpid ws|e]; [exact Hloop| |].
  - destruct (wpid =? 0); [exact Hloop|].
    destruct ws; try exact Hloop; intros [= <-]; try (intros Ha; exact Ha).
    unfold add_job. simpl. eapply ascending_register; reflexivity.
  - intros [= <-] Ha. exact Ha.
Qed.

Lemma ascending_launch_external fuel tokens background st :
  ascending_ids st ->
  ascending_ids (state_of (launch_external W fuel tokens background st)).
Proof.
  intros Ha. unfold launch_external.
  destruct (Popen W (calls st) tokens) as [p| |e].
  - destruct background.
    + unfold add_job. simpl. eapply ascending_register; [| |exact Ha]; reflexivity.
    + destruct (launch_external_wait _ _ _ _ _) as [st1|] eqn:Hwait; simpl; [|exact Ha].
      eapply ascending_launch_external_wait in Hwait; [exact Hwait|exact Ha].
  - destruct tokens; exact Ha.
  - destruct tokens; exact Ha.
Qed.

Lemma ascending_step st st' : step W st st' -> ascending_ids st -> ascending_ids st'.
Proof.
  intros [fuel line st0|st0|events st0] Ha.
  - unfold parse_and_execute.
    destruct (String.eqb (strip W line) ""); [exact Ha|].
    destruct (shlex_split W (strip W line)) as [e|tokens]; [exact Ha|].
    destruct tokens as [|t ts]; [exact Ha|].
    destruct (background_marker (t :: ts)) as [[|cmd args] background]; [exact Ha|].
    destruct (builtins W fuel cmd) as [builtin|] eqn:Hb;
      [|apply ascending_launch_external, Ha].
    pose proof (same_ids_builtins W fuel cmd builtin args st0 Hb) as Hs.
    eapply ascending_same; [|exact Ha].
    destruct (builtin args st0) as [st1|[c|e] st1|st1]; exact Hs.
  - apply ascending_prune_done_jobs, Ha.
  - eapply ascending_same; [apply same_ids_sigchld_handler|exact Ha].
Qed.

Lemma ascending_steps st st' :
  rtc (step W) st st' -> ascending_ids st -> ascending_ids st'.
Proof. induction 1; eauto using ascending_step. Qed.

End Ascending.

(** X22. The table is in the order of its ids.  In every shell reached
    from the start by commands, prunes and reaped events, the ids grow
    strictly along the table and lie between 1 and the counter; so the
    job that [fg] or [bg] selects when it is given no id, the last one
    inserted, is the job with the greatest id of the table. *)
Theorem table_is_in_id_order_and_default_job_is_newest (W : world) (st : shell) :
  rtc (step W) initial st ->
  ascending_ids st
  /\ forall name jid,
       select_job W name [] st = inr jid ->
       In jid (OrderedDict.keys (jobs st))
       /\ forall k, In k (OrderedDict.keys (jobs st)) -> k <= jid.
Proof.
  intros Hr.
  assert (ascending_ids st) as Ha.
  { eapply ascending_steps; [exact Hr|]. unfold ascending_ids. simpl.
    split; [constructor|]. split; [constructor|lia]. }
  split; [exact Ha|]. intros name jid. unfold select_job, OrderedDict.last_key.
  destruct (last (OrderedDict.keys (jobs st))) as [k|] eqn:Hlast; [|discriminate].
  intros [= <-]. apply last_is_greatest; [apply Ha|exact Hlast].
Qed.

Lemma table_is_in_id_order_and_default_job_is_newest_witness :
  let W := Demo.ticking true [] in
  let st := prune_done_jobs W
              (state_of (parse_and_execute W 0 "sleep 2 &"
                 (state_of (parse_and_execute W 0 "sleep 1 &" initial)))) in
  ascending_ids st /\ select_job W "fg" [] st = inr 2.
Proof.
  intros W st.
  destruct (table_is_in_id_order_and_default_job_is_newest W st) as [Ha _].
  - eapply rtc_l; [apply (step_line W 0 "sleep 1 &")|].
    eapply rtc_l; [apply (step_line W 0 "sleep 2 &")|].
    eapply rtc_l; [apply step_prune|]. apply rtc_refl.
  - split; [exact Ha|reflexivity].
Defined.

(** ** The foreground slot *)

Section Slot.
Variable W : world.

Lemma slot_builtin_fg_wait fuel jid pid st st' :
  builtin_fg_wait W fuel jid pid st = Some st' -> foreground_pid st' = foreground_pid st.
Proof.
  revert st. induction fuel as [|fuel IH]; intros st; simpl; [discriminate|].
  assert (builtin_fg_wait W fuel jid pid (called (call_waitpid pid) st) = Some st' ->
          foreground_pid st' = foreground_pid st) as Hloop.
  { intros Hw. apply IH in Hw. exact Hw. }
  destruct (waitpid W (calls st) pid) as [|wpid ws|e]; [exact Hloop| |].
  - destruct (wpid =? 0); [exact Hloop|].
    destruct ws; try exact Hloop; intros [= <-]; reflexivity.
  - intros [= <-]. reflexivity.
Qed.

(** Of the builtins, [fg] alone waits. *)
Lemma builtins_blocked fuel cmd builtin args st st' :
  builtins W fuel cmd = Some builtin ->
  builtin args st = Blocked st' ->
  cmd = "fg"%string.
Proof.
  unfold builtins.
  destruct (String.eqb_spec cmd "fg") as [->|_]; [reflexivity|].
  repeat case_match; intros [= <-].
  - discriminate.
  - discriminate.
  - discriminate.
  - unfold builtin_kill. destruct args; discriminate.
  - discriminate.
  - unfold builtin_bg. repeat case_match; discriminate.
  - unfold builtin_file. case_match; discriminate.
Qed.

Lemma slot_builtins fuel cmd builtin args st :
  builtins W fuel cmd = Some builtin ->
  foreground_pid st = None ->
  slot_matches (builtin args st).
Proof.
  intros Hb Hnone.
  destruct (String.eqb_spec cmd "fg") as [->|Hfg].
  { injection Hb as <-. unfold builtin_fg.
    destruct (select_job W "fg" args st) as [st1|jid] eqn:Hsel.
    { unfold select_job in Hsel. repeat case_match; simplify_eq; exact Hnone. }
    destruct (find_job_by_jid jid st) as [job|]; [|exact Hnone].
    destruct (builtin_fg_wait _ _ _ _ _); simpl; eauto. }
  destruct (String.eqb_spec cmd "bg") as [->|Hbg].
  { injection Hb as <-. unfold builtin_bg.
    destruct (select_job W "bg" args st) as [st1|jid] eqn:Hsel.
    { unfold select_job in Hsel. repeat case_match; simplify_eq; exact Hnone. }
    destruct (find_job_by_jid jid st) as [job|]; [|exact Hnone].
    destruct (killpg_getpgid_frame W (Job.pid job) SIGCONT st) as (_ & _ & _ & Hf & _).
    destruct (killpg_getpgid W (Job.pid job) SIGCONT st) as [[e|] st1]; simpl in *;
      congruence. }
  destruct (quiet_builtins W fuel cmd builtin args st Hb Hfg Hbg) as (_ & _ & _ & Hf).
  destruct (builtin args st) as [st1|e st1|st1] eqn:Hr; simpl in *; try congruence.
  contradiction Hfg. eapply builtins_blocked; eassumption.
Qed.

Lemma slot_launch_external fuel tokens background st :
  foreground_pid st = None ->
  slot_matches (launch_external W fuel tokens background st).
Proof.
  intros Hnone. unfold launch_external.
  destruct (Popen W (calls st) tokens) as [p| |e].
  - destruct background; [exact Hnone|].
    destruct (launch_external_wait _ _ _ _ _); simpl; eauto.
  - destruct tokens; exact Hnone.
  - destruct tokens; exact Hnone.
Qed.

Lemma slot_parse_and_execute fuel line st :
  foreground_pid st = None -> slot_matches (parse_and_execute W fuel line st).
Proof.
  intros Hnone. unfold parse_and_execute.
  destruct (String.eqb (strip W line) ""); [exact Hnone|].
  destruct (shlex_split W (strip W line)) as [e|tokens]; [exact Hnone|].
  destruct tokens as [|t ts]; [exact Hnone|].
  destruct (background_marker (t :: ts)) as [[|cmd args] background]; [exact Hnone|].
  destruct (builtins W fuel cmd) as [builtin|] eqn:Hb;
    [|apply slot_launch_external, Hnone].
  pose proof (slot_builtins fuel cmd builtin args st Hb Hnone) as Hs.
  destruct (builtin args st) as [st1|[c|e] st1|st1]; exact Hs.
Qed.

End Slot.

(** X23. The foreground slot is taken during a foreground wait and at no
    other time.  However the loop stands after any inputs (at the
    prompt, at the end of the input, after [exit], after an escaped
    exception), the slot is empty; it holds a process id exactly when
    the shell is inside a wait that has not returned. *)
Theorem foreground_slot_is_taken_only_during_a_wait
    (W : world) (fuel : nat) (inputs : list input) :
  let r := main W fuel inputs in
  (fst r <> InWait -> foreground_pid (snd r) = None)
  /\ (fst r = InWait -> exists pid, foreground_pid (snd r) = Some pid).
Proof.
  unfold main.
  assert (forall st, foreground_pid st = None ->
            (fst (main_loop W fuel inputs st) <> InWait ->
             foreground_pid (snd (main_loop W fuel inputs st)) = None)
            /\ (fst (main_loop W fuel inputs st) = InWait ->
                exists pid, foreground_pid (snd (main_loop W fuel inputs st)) = Some pid))
    as Hloop; [|apply Hloop; reflexivity].
  induction inputs as [|i inputs IH]; intros st Hnone.
  - simpl. split; [auto|discriminate].
  - destruct i as [line| | |events]; simpl.
    + pose proof (slot_parse_and_execute W fuel line st Hnone) as Hs.
      destruct (parse_and_execute W fuel line st) as [st1|[code|e] st1|st1]; simpl in *.
      * apply IH. destruct (prune_frame W st1) as (_ & _ & _ & Hf & _). congruence.
      * split; [auto|discriminate].
      * split; [auto|discriminate].
      * split; [intros H; contradiction H; reflexivity|auto].
    + split; [auto|discriminate].
    + apply IH. exact Hnone.
    + apply IH. destruct (silent_sigchld_handler events st) as (_ & _ & Hf & _). congruence.
Qed.

(** ** A background job from launch to removal *)

(** X24. The life of a background job.  A child launched in the
    background under a fresh id and reaped with exit code [c] is listed
    as [Exited(c)], with its exit code and the start time of its launch,
    and is out of the index; the prune that follows keeps that record as
    long as the time since the launch does not exceed 60, and removes it
    once it does. *)
Theorem background_job_is_kept_until_the_window_ends
    (W : world) (fuel : nat) (tokens : list string) (p : Popen_obj) (c : Z)
    (st : shell) :
  Popen W (calls st) tokens = Spawned p ->
  0 < popen_pid p ->
  OrderedDict.wf (jobs st) ->
  let jid := next_job_id st in
  let pid := popen_pid p in
  let st1 := state_of (launch_external W fuel tokens true st) in
  let st2 := sigchld_handler [(pid, WEXITED c)] st1 in
  let st3 := prune_done_jobs W st2 in
  let started := time W (calls st ++ [call_Popen tokens]) in
  let record := Job.mk pid p (join " " tokens) (Exited c) started (Some c) in
  find_job_by_jid jid st2 = Some record
  /\ pid_to_jid st2 !! pid = None
  /\ (time W (calls st2) - started <= 60 -> find_job_by_jid jid st3 = Some record)
  /\ (time W (calls st2) - started > 60 -> find_job_by_jid jid st3 = None).
Proof.
  intros Hspawn Hpos Hwf jid pid st1 st2 st3 started record.
  assert (jobs st1 = OrderedDict.set jid
                       (Job.mk pid p (join " " tokens) "Running" started None) (jobs st)
          /\ pid_to_jid st1 = <[pid := jid]> (pid_to_jid st)) as [Hj1 Hi1].
  { subst st1. unfold launch_external. rewrite Hspawn. unfold add_job. simpl. auto. }
  assert (OrderedDict.get jid (jobs st1)
          = Some (Job.mk pid p (join " " tokens) "Running" started None)) as Hget1.
  { rewrite Hj1, OrderedDictFacts.get_set, Z.eqb_refl. reflexivity. }
  assert (pid_to_jid st1 !! pid = Some jid) as Hidx1
    by (rewrite Hi1; apply lookup_insert_eq).
  destruct (sigchld_event st1 pid jid (WEXITED c) Hpos Hidx1
              (OrderedDictFacts.get_mem _ _ _ Hget1)) as [Hj2 Hi2].
  fold st2 in Hj2, Hi2.
  assert (OrderedDict.get jid (jobs st2) = Some record) as Hget2.
  { rewrite Hj2, OrderedDictFacts.get_alter, Z.eqb_refl, Hget1. reflexivity. }
  assert (OrderedDict.wf (jobs st2)) as Hwf2.
  { rewrite Hj2, Hj1. apply OrderedDictFacts.wf_alter, OrderedDictFacts.wf_set, Hwf. }
  unfold find_job_by_jid. split; [exact Hget2|].
  split; [rewrite Hi2; apply lookup_delete_eq|].
  subst st3. rewrite (prune_get W st2 jid record Hwf2 Hget2). simpl.
  unfold DONE_ENTRY_TTL.
  split; intros Hage;
    destruct (Z.gtb_spec (time W (calls st2) - started) 60); try reflexivity; lia.
Qed.

Lemma background_job_is_kept_until_the_window_ends_witness :
  let W := Demo.ticking true [] in
  let st1 := state_of (launch_external W 0 ["sleep"; "1"]%string true initial) in
  let st2 := sigchld_handler [(100, WEXITED 0)] st1 in
  find_job_by_jid 1 st2
  = Some (Job.mk 100 {| popen_pid := 100 |} "sleep 1" (Exited 0) 100 (Some 0))
  /\ find_job_by_jid 1 (prune_done_jobs W st2) = None.
Proof.
  intros W st1 st2.
  destruct (background_job_is_kept_until_the_window_ends W 0 ["sleep"; "1"]%string
              {| popen_pid := 100 |} 0 initial)
    as (Hget & _ & _ & Hgone).
  - reflexivity.
  - simpl. lia.
  - apply (bool_decide_unpack _). reflexivity.
  - split; [exact Hget|]. apply Hgone. vm_compute. reflexivity.
Defined.

(** ** Age is counted from creation *)

Section Stamps.
Variable W : world.
Import OrderedDict OrderedDictFacts.

Lemma same_stamps_refl st : same_stamps st st.
Proof. split; reflexivity. Qed.

Lemma same_stamps_trans st1 st2 st3 :
  same_stamps st1 st2 -> same_stamps st2 st3 -> same_stamps st1 st3.
Proof.
  intros [H1 H2] [H3 H4]. split; [congruence|]. intros jid. rewrite H4. apply H2.
Qed.

Lemma quiet_same_stamps st st' : quiet st st' -> same_stamps st st'.
Proof.
  intros (Hj & Hn & _). unfold same_stamps, find_job_by_jid. rewrite Hj, Hn. auto.
Qed.

Lemma same_stamps_keeps st st' : same_stamps st st' -> keeps_stamps st st'.
Proof.
  intros [Hn Hs]. split; [lia|]. intros jid job' _ Hget.
  specialize (Hs jid). rewrite Hget in Hs.
  destruct (find_job_by_jid jid st) as [job|]; [|discriminate Hs].
  injection Hs as Hs. eauto.
Qed.

Lemma keeps_stamps_refl st : keeps_stamps st st.
Proof. apply same_stamps_keeps, same_stamps_refl. Qed.

Lemma keeps_stamps_trans st1 st2 st3 :
  keeps_stamps st1 st2 -> keeps_stamps st2 st3 -> keeps_stamps st1 st3.
Proof.
  intros [Hn1 H1] [Hn2 H2]. split; [lia|]. intros jid job3 Hlt Hget.
  assert (jid < next_job_id st2) as Hlt2 by lia.
  destruct (H2 jid job3 Hlt2 Hget) as (job2 & Hget2 & Hs2).
  destruct (H1 jid job2 Hlt Hget2) as (job1 & Hget1 & Hs1).
  exists job1. split; [exact Hget1|congruence].
Qed.

(** Changes of status and exit code, output and calls leave the start
    times where they are. *)
Local Ltac stamps :=
  unfold same_stamps, find_job_by_jid; simpl; split; [reflexivity|];
  intros; rewrite ?get_alter;
  repeat match goal with |- context [if ?b then _ else _] => destruct b end;
  try reflexivity;
  match goal with |- context [get ?k ?d] => destruct (get k d) end; reflexivity.

Lemma same_stamps_update_job_status pid status exitcode st :
  same_stamps st (update_job_status pid status exitcode st).
Proof. unfold update_job_status. repeat case_match; stamps. Qed.

Lemma same_stamps_mark_job_done pid exitcode st :
  same_stamps st (mark_job_done pid exitcode st).
Proof. unfold mark_job_done. repeat case_match; stamps. Qed.

Lemma same_stamps_sigchld_handler events st :
  same_stamps st (sigchld_handler events st).
Proof.
  revert st. induction events as [|[pid ws] events IH]; intros st; simpl;
    [apply same_stamps_refl|].
  destruct (pid =? 0); [apply same_stamps_refl|].
  destruct (pid <? 0); [apply same_stamps_refl|].
  eapply same_stamps_trans; [|apply IH].
  destruct ws;
    eauto using same_stamps_trans, same_stamps_update_job_status,
      same_stamps_mark_job_done.
Qed.

Lemma same_stamps_killpg_getpgid pid sig st :
  same_stamps st (snd (killpg_getpgid W pid sig st)).
Proof. unfold killpg_getpgid. case_match; stamps. Qed.

Lemma same_stamps_select_job name args st st' :
  select_job W name args st = inl st' -> same_stamps st st'.
Proof. unfold select_job. repeat case_match; intros [= <-]; stamps. Qed.

Lemma same_stamps_builtin_fg_wait fuel jid pid st st' :
  builtin_fg_wait W fuel jid pid st = Some st' -> same_stamps st st'.
Proof.
  revert st. induction fuel as [|fuel IH]; intros st; simpl; [discriminate|].
  assert (forall st0, same_stamps st (called (call_waitpid pid) st0) ->
            builtin_fg_wait W fuel jid pid (called (call_waitpid pid) st0) = Some st' ->
            same_stamps st st') as Hloop.
  { intros st0 Hs Hw. apply IH in Hw. eapply same_stamps_trans; eassumption. }
  destruct (waitpid W (calls st) pid) as [|wpid ws|e].
  - apply Hloop. stamps.
  - destruct (wpid =? 0); [apply Hloop; stamps|].
    destruct ws; try (intros [= <-]; stamps). apply Hloop. stamps.
  - intros [= <-]. stamps.
Qed.

(** No builtin rewrites a start time, [fg] and [bg] included. *)
Lemma same_stamps_builtins fuel cmd builtin args st :
  builtins W fuel cmd = Some builtin -> same_stamps st (state_of (builtin args st)).
Proof.
  intros Hb.
  destruct (String.eqb_spec cmd "fg") as [->|Hfg].
  { unfold builtins in Hb. simpl in Hb. injection Hb as <-.
    unfold builtin_fg. destruct (select_job W "fg" args st) as [st1|jid] eqn:Hsel.
    { simpl. eapply same_stamps_select_job, Hsel. }
    destruct (find_job_by_jid jid st) as [job|]; [|stamps].
    destruct (builtin_fg_wait _ _ _ _ _) as [st2|] eqn:Hwait; simpl.
    - apply same_stamps_builtin_fg_wait in Hwait.
      eapply same_stamps_trans; [|eapply same_stamps_trans; [exact Hwait|stamps]].
      eapply same_stamps_trans;
        [apply (same_stamps_killpg_getpgid (Job.pid job) SIGCONT)|stamps].
    - eapply same_stamps_trans;
        [apply (same_stamps_killpg_getpgid (Job.pid job) SIGCONT)|stamps]. }
  destruct (String.eqb_spec cmd "bg") as [->|Hbg].
  { unfold builtins in Hb. simpl in Hb. injection Hb as <-.
    unfold builtin_bg. destruct (select_job W "bg" args st) as [st1|jid] eqn:Hsel.
    { simpl. eapply same_stamps_select_job, Hsel. }
    destruct (find_job_by_jid jid st) as [job|]; [|stamps].
    pose proof (same_stamps_killpg_getpgid (Job.pid job) SIGCONT st) as Hk.
    destruct (killpg_getpgid W (Job.pid job) SIGCONT st) as [[e|] st1]; simpl in *;
      (eapply same_stamps_trans; [exact Hk|stamps]). }
  apply quiet_same_stamps.
  apply (quiet_builtins W fuel cmd builtin args st Hb Hfg Hbg).
Qed.

(** A registration writes under the id at the counter, and under no id
    drawn before. *)
Local Ltac registered :=
  unfold keeps_stamps, add_job, find_job_by_jid; simpl; split; [lia|];
  let jid := fresh "jid" in
  let job' := fresh "job'" in
  let Hlt := fresh "Hlt" in
  intros jid job' Hlt; rewrite get_set;
  match goal with |- context [?a =? ?b] => destruct (Z.eqb_spec a b); [lia|] end;
  eauto.

Lemma keeps_stamps_add_job p cmdline status st :
  keeps_stamps st (snd (add_job W p cmdline status st)).
Proof. registered. Qed.

Lemma keeps_stamps_launch_external_wait fuel p cmdline st st' :
  launch_external_wait W fuel p cmdline st = Some st' -> keeps_stamps st st'.
Proof.
  revert st. induction fuel as [|fuel IH]; intros st; simpl; [discriminate|].
  assert (forall st0, same_stamps st (called (call_waitpid (popen_pid p)) st0) ->
            launch_external_wait W fuel p cmdline (called (call_waitpid (popen_pid p)) st0)
            = Some st' ->
            keeps_stamps st st') as Hloop.
  { intros st0 Hs Hw. apply IH in Hw.
    eapply keeps_stamps_trans; [apply same_stamps_keeps|]; eassumption. }
  destruct (waitpid W (calls st) (popen_pid p)) as [|wpid ws|e].
  - apply Hloop. stamps.
  - destruct (wpid =? 0); [apply Hloop; stamps|].
    destruct ws; try (intros [= <-]; apply same_stamps_keeps; stamps; fail).
    + intros [= <-]. registered.
    + apply Hloop. stamps.
  - intros [= <-]. apply same_stamps_keeps. stamps.
Qed.

Lemma keeps_stamps_launch_external fuel tokens background st :
  keeps_stamps st (state_of (launch_external W fuel tokens background st)).
Proof.
  unfold launch_external.
  destruct (Popen W (calls st) tokens) as [p| |e].
  - destruct background.
    + registered.
    + destruct (launch_external_wait _ _ _ _ _) as [st1|] eqn:Hwait; simpl.
      * apply keeps_stamps_launch_external_wait in Hwait.
        eapply keeps_stamps_trans; [|eapply keeps_stamps_trans; [exact Hwait|]];
          apply same_stamps_keeps; stamps.
      * apply same_stamps_keeps. stamps.
  - destruct tokens; apply same_stamps_keeps; stamps.
  - destruct tokens; apply same_stamps_keeps; stamps.
Qed.

Lemma keeps_stamps_parse_and_execute fuel line st :
  keeps_stamps st (state_of (parse_and_execute W fuel line st)).
Proof.
  unfold parse_and_execute.
  destruct (String.eqb (strip W line) ""); [apply keeps_stamps_refl|].
  destruct (shlex_split W (strip W line)) as [e|tokens];
    [apply same_stamps_keeps; stamps|].
  destruct tokens as [|t ts]; [apply keeps_stamps_refl|].
  destruct (background_marker (t :: ts)) as [[|cmd args] background];
    [apply keeps_stamps_refl|].
  destruct (builtins W fuel cmd) as [builtin|] eqn:Hb;
    [|apply keeps_stamps_launch_external].
  pose proof (same_stamps_builtins fuel cmd builtin args st Hb) as Hs.
  apply same_stamps_keeps.
  destruct (builtin args st) as [st1|[c|e] st1|st1]; simpl in *; exact Hs.
Qed.

Lemma keeps_stamps_prune_done_jobs st : keeps_stamps st (prune_done_jobs W st).
Proof.
  destruct (prune_frame W st) as (_ & Hn & _). unfold keeps_stamps.
  rewrite Hn. split; [lia|]. intros jid job' _ Hget.
  exists job'. split; [|reflexivity]. apply (prune_survivor W st), Hget.
Qed.

Lemma keeps_stamps_step st st' : step W st st' -> keeps_stamps st st'.
Proof.
  intros [fuel line st0|st0|events st0].
  - apply keeps_stamps_parse_and_execute.
  - apply keeps_stamps_prune_done_jobs.
  - apply same_stamps_keeps, same_stamps_sigchld_handler.
Qed.

(** Nothing the shell does rewrites the start time of a record. *)
Lemma keeps_stamps_steps st st' : rtc (step W) st st' -> keeps_stamps st st'.
Proof.
  induction 1 as [st|st1 st2 st3 Hstep _ IH]; [apply keeps_stamps_refl|].
  eapply keeps_stamps_trans; [apply keeps_stamps_step, Hstep|exact IH].
Qed.

(** What a prune does to a terminal record, by its age. *)
Lemma prune_terminal st jid job :
  wf (jobs st) ->
  find_job_by_jid jid st = Some job ->
  terminal (Job.status job) ->
  let age := time W (calls st) - Job.start_time job in
  (age > DONE_ENTRY_TTL -> find_job_by_jid jid (prune_done_jobs W st) = None)
  /\ (age <= DONE_ENTRY_TTL -> find_job_by_jid jid (prune_done_jobs W st) = Some job).
Proof.
  intros Hwf Hget Hterm age. unfold find_job_by_jid in *.
  rewrite (prune_get W st jid job Hwf Hget), (finished_terminal _ Hterm). simpl.
  fold age. split; intros Hage; destruct (Z.gtb_spec age DONE_ENTRY_TTL);
    try reflexivity; lia.
Qed.

(** The reaper makes an indexed job terminal and leaves its start time. *)
Lemma sigchld_handler_finishes st pid jid ws job :
  0 < pid ->
  pid_to_jid st !! pid = Some jid ->
  find_job_by_jid jid st = Some job ->
  final ws ->
  let st' := sigchld_handler [(pid, ws)] st in
  exists job',
    find_job_by_jid jid st' = Some job'
    /\ terminal (Job.status job')
    /\ Job.start_time job' = Job.start_time job
    /\ keys (jobs st') = keys (jobs st)
    /\ calls st' = calls st.
Proof.
  intros Hpos Hidx Hget Hws. unfold find_job_by_jid in *.
  destruct ws as [c|g|g|]; try contradiction.
  - destruct (sigchld_exited st pid jid c job Hpos Hidx Hget) as (H1 & _ & H3 & _ & H5 & _).
    eexists. split; [exact H1|]. split; [left; exists c; reflexivity|].
    split; [reflexivity|]. split; [exact H3|exact H5].
  - destruct (sigchld_signaled st pid jid g job Hpos Hidx Hget) as (H1 & _ & H3 & _ & H5 & _).
    eexists. split; [exact H1|]. split; [right; right; reflexivity|].
    split; [reflexivity|]. split; [exact H3|exact H5].
Qed.

(** [fg] makes the job terminal when its wait reports an exit or a death
    by signal, after any number of inconclusive answers, and leaves its
    start time. *)
Lemma builtin_fg_finishes n fuel args jid job wpid ws st :
  select_job W "fg" args st = inr jid ->
  find_job_by_jid jid st = Some job ->
  retried W n (Job.pid job) (fg_entry W jid job st) ->
  waitpid W (calls (waiting n (Job.pid job) (fg_entry W jid job st))) (Job.pid job)
  = Waited wpid ws ->
  wpid <> 0 ->
  final ws ->
  exists st' job',
    builtin_fg W (n + S fuel) args st = Returned st'
    /\ find_job_by_jid jid st' = Some job'
    /\ terminal (Job.status job')
    /\ Job.start_time job' = Job.start_time job
    /\ keys (jobs st') = keys (jobs st).
Proof.
  intros Hsel Hjob Hretried Hwait Hwpid Hws.
  destruct (fg_entry_frame W n jid job st) as (Hj & _).
  unfold builtin_fg. rewrite Hsel, Hjob.
  change (set_foreground_pid _ (set_jobs _ (snd (killpg_getpgid W _ SIGCONT st))))
    with (fg_entry W jid job st).
  rewrite (builtin_fg_wait_retries W n (S fuel) jid (Job.pid job) _ Hretried).
  simpl builtin_fg_wait. unfold os_waitpid. rewrite Hwait.
  destruct (Z.eqb_spec wpid 0) as [|_]; [contradiction|].
  unfold find_job_by_jid in *.
  destruct ws as [c|g|g|]; try contradiction;
    (eexists; eexists; split; [reflexivity|]; simpl; rewrite Hj;
     rewrite !get_alter, Z.eqb_refl, Hjob, !keys_alter; simpl;
     split; [reflexivity|]; split; [|split; reflexivity]).
  - left. exists c. reflexivity.
  - right. left. exists g. reflexivity.
Qed.

End Stamps.

(** C10. The pruner measures the age of a record from its creation.
    [add_job] stamps the record it creates with the time the clock shows
    at the registration, [created]; the record holds no time of
    termination, and nothing the shell does afterwards (commands, [fg]
    and [bg], reaped events, prunes) rewrites that stamp: as long as the
    record is in the table, its start time is [created].  Here [st1] is
    the shell when the caller of [add_job] returns (after the
    registration [launch_external] only prints and clears the slot,
    which touches neither the table nor the counter) and [st] the shell
    after any operations from there on.  Consequently, whichever way the
    job becomes terminal,
    - the reaper recording its exit or its death by signal, or
    - [fg] recording the exit or the death by signal its wait reports,
    a job whose time since creation exceeds the retention window at that
    moment is gone after the very next prune, which reads the same
    clock: it is listed as finished for no time at all.  In general, a
    prune in any state in which the record is terminal removes it
    exactly when the time since [created] exceeds the window. *)
Theorem prune_counts_age_from_creation
    (W : world) (p : Popen_obj) (cmdline status : string) (st0 st1 st : shell) :
  let jid := fst (add_job W p cmdline status st0) in
  let created := time W (calls st0) in
  OrderedDict.wf (jobs st0) ->
  jobs st1 = jobs (snd (add_job W p cmdline status st0)) ->
  next_job_id st1 = next_job_id (snd (add_job W p cmdline status st0)) ->
  rtc (step W) st1 st ->
  find_job_by_jid jid st1 = Some (Job.mk (popen_pid p) p cmdline status created None)
  /\ (forall job, find_job_by_jid jid st = Some job -> Job.start_time job = created)
  /\ (forall pid ws job,
        0 < pid ->
        pid_to_jid st !! pid = Some jid ->
        find_job_by_jid jid st = Some job ->
        final ws ->
        let st' := sigchld_handler [(pid, ws)] st in
        exists job',
          find_job_by_jid jid st' = Some job'
          /\ terminal (Job.status job')
          /\ Job.start_time job' = created
          /\ (time W (calls st') - created > DONE_ENTRY_TTL ->
              find_job_by_jid jid (prune_done_jobs W st') = None))
  /\ (forall n fuel args job wpid ws,
        select_job W "fg" args st = inr jid ->
        find_job_by_jid jid st = Some job ->
        retried W n (Job.pid job) (fg_entry W jid job st) ->
        waitpid W (calls (waiting n (Job.pid job) (fg_entry W jid job st))) (Job.pid job)
        = Waited wpid ws ->
        wpid <> 0 ->
        final ws ->
        exists st' job',
          builtin_fg W (n + S fuel) args st = Returned st'
          /\ find_job_by_jid jid st' = Some job'
          /\ terminal (Job.status job')
          /\ Job.start_time job' = created
          /\ (time W (calls st') - created > DONE_ENTRY_TTL ->
              find_job_by_jid jid (prune_done_jobs W st') = None))
  /\ (forall job,
        find_job_by_jid jid st = Some job ->
        terminal (Job.status job) ->
        (time W (calls st) - created > DONE_ENTRY_TTL ->
         find_job_by_jid jid (prune_done_jobs W st) = None)
        /\ (time W (calls st) - created <= DONE_ENTRY_TTL ->
            find_job_by_jid jid (prune_done_jobs W st) = Some job)).
Proof.
  intros jid created Hwf0 Hjobs Hnext Hrun.
  assert (find_job_by_jid jid st1
          = Some (Job.mk (popen_pid p) p cmdline status created None)) as Hborn.
  { unfold find_job_by_jid. rewrite Hjobs. unfold add_job. simpl.
    rewrite OrderedDictFacts.get_set, Z.eqb_refl. reflexivity. }
  assert (OrderedDict.wf (jobs st)) as Hwf.
  { apply (advances_steps W st1 st Hrun). rewrite Hjobs. unfold add_job. simpl.
    apply OrderedDictFacts.wf_set, Hwf0. }
  assert (forall job, find_job_by_jid jid st = Some job -> Job.start_time job = created)
    as Hstamp.
  { intros job Hget. destruct (keeps_stamps_steps W st1 st Hrun) as [_ Hkeep].
    destruct (Hkeep jid job) as (job1 & Hget1 & ->); [|exact Hget|].
    - rewrite Hnext. subst jid. unfold add_job. simpl. lia.
    - rewrite Hborn in Hget1. injection Hget1 as <-. reflexivity. }
  split; [exact Hborn|]. split; [exact Hstamp|]. split; [|split].
  - intros pid ws job Hpos Hidx Hget Hws st'.
    destruct (sigchld_handler_finishes st pid jid ws job Hpos Hidx Hget Hws)
      as (job' & Hget' & Hterm & Hsame & Hkeys & _).
    fold st' in Hget', Hkeys.
    assert (Job.start_time job' = created) as Hcreated
      by (rewrite Hsame; apply (Hstamp job Hget)).
    exists job'. split; [exact Hget'|]. split; [exact Hterm|]. split; [exact Hcreated|].
    assert (OrderedDict.wf (jobs st')) as Hwf'
      by (unfold OrderedDict.wf; rewrite Hkeys; exact Hwf).
    rewrite <- Hcreated. apply (prune_terminal W st' jid job' Hwf' Hget' Hterm).
  - intros n fuel args job wpid ws Hsel Hget Hretried Hwait Hwpid Hws.
    destruct (builtin_fg_finishes W n fuel args jid job wpid ws st
                Hsel Hget Hretried Hwait Hwpid Hws)
      as (st' & job' & Hfg & Hget' & Hterm & Hsame & Hkeys).
    assert (Job.start_time job' = created) as Hcreated
      by (rewrite Hsame; apply (Hstamp job Hget)).
    exists st', job'. split; [exact Hfg|]. split; [exact Hget'|].
    split; [exact Hterm|]. split; [exact Hcreated|].
    assert (OrderedDict.wf (jobs st')) as Hwf'
      by (unfold OrderedDict.wf; rewrite Hkeys; exact Hwf).
    rewrite <- Hcreated. apply (prune_terminal W st' jid job' Hwf' Hget' Hterm).
  - intros job Hget Hterm. rewrite <- (Hstamp job Hget).
    apply (prune_terminal W st jid job Hwf Hget Hterm).
Qed.

(** [sleep 90 &] on a machine whose clock moves 100 on at every call:
    the record is created at 100.  Whether the reaper then records the
    exit of the child or [fg 1] waits for it, the record is terminal
    with the start time 100, and the prune that follows removes it. *)
Lemma prune_counts_age_from_creation_witness :
  let W := Demo.ticking true [Waited 100 (WEXITED 3)] in
  let st1 := state_of (parse_and_execute W 1 "sleep 90 &" (snd (main W 1 []))) in
  let st := prune_done_jobs W st1 in
  find_job_by_jid 1 st
  = Some (Job.mk 100 {| popen_pid := 100 |} "sleep 90" "Running" 100 None)
  /\ (exists job',
        find_job_by_jid 1 (sigchld_handler [(100, WEXITED 0)] st) = Some job'
        /\ terminal (Job.status job')
        /\ Job.start_time job' = 100
        /\ find_job_by_jid 1 (prune_done_jobs W (sigchld_handler [(100, WEXITED 0)] st))
           = None)
  /\ (exists st' job',
        builtin_fg W 1 ["1"%string] st = Returned st'
        /\ find_job_by_jid 1 st' = Some job'
        /\ terminal (Job.status job')
        /\ Job.start_time job' = 100
        /\ find_job_by_jid 1 (prune_done_jobs W st') = None).
Proof.
  intros W st1 st.
  destruct (prune_counts_age_from_creation W {| popen_pid := 100 |} "sleep 90" "Running"
              (called (call_Popen ["sleep"; "90"]%string) (snd (main W 1 []))) st1 st)
    as (_ & _ & Hreaped & Hfg & _).
  - apply NoDup_nil_2.
  - reflexivity.
  - reflexivity.
  - eapply rtc_l; [apply step_prune|]. apply rtc_refl.
  - split; [reflexivity|]. split.
    + destruct (Hreaped 100 (WEXITED 0)
                  (Job.mk 100 {| popen_pid := 100 |} "sleep 90" "Running" 100 None))
        as (job' & Hget & Hterm & Hstart & Hgone).
      * lia.
      * reflexivity.
      * reflexivity.
      * exact I.
      * exists job'. split; [exact Hget|]. split; [exact Hterm|].
        split; [exact Hstart|]. apply Hgone. vm_compute. reflexivity.
    + destruct (Hfg 0%nat 0%nat ["1"%string]
                  (Job.mk 100 {| popen_pid := 100 |} "sleep 90" "Running" 100 None)
                  100 (WEXITED 3))
        as (st' & job' & Hrun & Hget & Hterm & Hstart & Hgone).
      * reflexivity.
      * reflexivity.
      * intros i Hi. lia.
      * reflexivity.
      * lia.
      * exact I.
      * exists st', job'. split; [exact Hrun|]. split; [exact Hget|].
        split; [exact Hterm|]. split; [exact Hstart|]. apply Hgone.
        injection Hrun as <-. vm_compute. reflexivity.
Defined.

(** The same run through the loop: after [fg 1] has waited for the
    child, the prune at the end of that command empties the table, and
    the [jobs] typed next prints no row. *)
Example job_finished_in_foreground_is_never_listed :
  let W := Demo.ticking true [Waited 100 (WEXITED 3)] in
  let st := snd (main W 1 [Line "sleep 90 &"; Line "fg 1"; Line "jobs"]) in
  jobs st = [] /\ last (stdout st) = Some "[1] 100"%string.
Proof. split; reflexivity. Qed.

(** ** The prompt and the file builtins *)

Section Prompt.

Lemma slash_in_app (dir name : string) :
  existsb (Ascii.eqb "/") (list_ascii_of_string (dir +:+ String "/" name)) = true.
Proof. induction dir as [|c dir IH]; simpl; [reflexivity|]. rewrite IH. apply orb_true_r. Qed.

Lemma basename_app (dir name : string) :
  existsb (Ascii.eqb "/") (list_ascii_of_string name) = false ->
  basename (dir +:+ String "/" name) = name.
Proof.
  intros Hname. induction dir as [|c dir IH]; simpl.
  - rewrite Hname. reflexivity.
  - rewrite slash_in_app. exact IH.
Qed.

End Prompt.

(** X25. The prompt shows the last component of the working directory:
    for a directory [dir/name], where [name] is not empty and holds no
    slash, it is [user:name$ ]; and for the root directory, whose last
    component is empty, it is [user:/$ ]. *)
Theorem prompt_shows_last_component (user dir name : string) :
  name <> ""%string ->
  existsb (Ascii.eqb "/") (list_ascii_of_string name) = false ->
  prompt user (dir +:+ String "/" name) = user +:+ ":" +:+ name +:+ "$ "
  /\ prompt user "/" = user +:+ ":/$ ".
Proof.
  intros Hne Hname. split; [|reflexivity].
  unfold prompt. rewrite (basename_app dir name Hname).
  destruct name as [|c name]; [contradiction|]. reflexivity.
Qed.

Lemma prompt_shows_last_component_witness :
  prompt "ann" ("/home/ann" +:+ String "/" "src") = "ann:src$ "%string
  /\ prompt "ann" "/" = "ann:/$ "%string.
Proof.
  apply (prompt_shows_last_component "ann" "/home/ann" "src"); [discriminate|reflexivity].
Defined.

Section FileBuiltins.
Variable F : Files.files.
Import Files.

Lemma insert_sorted_perm (name : string) (names : list string) :
  Permutation (name :: names) (insert_sorted name names).
Proof.
  induction names as [|n names IH]; simpl; [reflexivity|].
  destruct (String.leb name n); [reflexivity|].
  rewrite perm_swap. apply perm_skip, IH.
Qed.

Lemma insert_sorted_sorted (name : string) (names : list string) :
  Sorted (fun a b => String.leb a b = true) names ->
  Sorted (fun a b => String.leb a b = true) (insert_sorted name names).
Proof.
  induction 1 as [|n names Hs IH Hhd]; simpl; [repeat constructor|].
  destruct (String.leb name n) eqn:E.
  - constructor; [constructor; assumption|]. constructor. exact E.
  - constructor; [exact IH|].
    destruct names as [|m names]; simpl.
    + constructor. destruct (String.leb_total name n); congruence.
    + destruct (String.leb name m).
      * constructor. destruct (String.leb_total name n); congruence.
      * constructor. inversion Hhd. assumption.
Qed.

Lemma sort_sorted (names : list string) :
  Sorted (fun a b => String.leb a b = true) (sort names).
Proof.
  induction names as [|n names IH]; simpl; [constructor|].
  apply insert_sorted_sorted, IH.
Qed.

Lemma sort_perm (names : list string) : Permutation names (sort names).
Proof.
  induction names as [|n names IH]; simpl; [reflexivity|].
  rewrite <- insert_sorted_perm. apply perm_skip, IH.
Qed.

Lemma fold_written (lines : list string) (s : io) :
  fold_left (fun s n => written n s) lines s = (fst s, snd s ++ lines).
Proof.
  revert s. induction lines as [|l lines IH]; intros [ops out]; simpl.
  - rewrite app_nil_r. reflexivity.
  - rewrite IH. simpl. rewrite <- app_assoc. reflexivity.
Qed.

End FileBuiltins.

(** X26. [ls] prints the names of the directory sorted: each name of
    the listing once for each time it is listed, in the order of the
    characters, one name a line, after one call of [listdir] on its
    first argument or on [.] when it has none; when that call fails it
    prints the one line [ls: e]. *)
Theorem ls_prints_the_names_sorted
    (F : Files.files) (args : list string) (s : Files.io) :
  let target := match args with a :: _ => a | [] => "."%string end in
  (forall names,
      Files.do_listdir F (fst s) target = inr names ->
      Files.builtin_ls F args s
      = (fst s ++ [Files.listdir target], snd s ++ Files.sort names)
      /\ Sorted (fun a b => String.leb a b = true) (Files.sort names)
      /\ Permutation names (Files.sort names))
  /\ (forall e,
        Files.do_listdir F (fst s) target = inl e ->
        Files.builtin_ls F args s
        = (fst s ++ [Files.listdir target], snd s ++ ["ls: " +:+ e])).
Proof.
  intros target. split.
  - intros names Hlist. unfold Files.builtin_ls. fold target. rewrite Hlist.
    rewrite fold_written. simpl.
    split; [reflexivity|]. split; [apply sort_sorted|apply sort_perm].
  - intros e Hlist. unfold Files.builtin_ls. fold target. rewrite Hlist. reflexivity.
Qed.

Lemma ls_prints_the_names_sorted_witness :
  Files.builtin_ls Files.demo ["d"%string] ([], [])
  = ([Files.listdir "d"], ["Apple"; "fig"; "pear"]%string)
  /\ Files.builtin_ls Files.demo [] ([], [])
     = ([Files.listdir "."], ["ls: [Errno 2] No such file or directory"%string]).
Proof.
  destruct (ls_prints_the_names_sorted Files.demo ["d"%string] ([], [])) as [Hok _].
  destruct (ls_prints_the_names_sorted Files.demo [] ([], [])) as [_ Herr].
  split.
  - apply (Hok ["pear"; "Apple"; "fig"]%string). reflexivity.
  - apply (Herr "[Errno 2] No such file or directory"%string). reflexivity.
Defined.

Section Guarded.
Import Files.

(** A loop whose body performs a check [g f] and, when the check allows
    it, an action [a f] right after: in the operations of the whole loop
    every action stands right after its check, which allowed it. *)
Variables (body : io -> string -> io) (g a : string -> op).
Variable allowed : list op -> string -> Prop.
Hypothesis check_is_no_action : forall f f', g f <> a f'.
Hypothesis action_inj : forall f f', a f = a f' -> f = f'.
Hypothesis body_ops :
  forall s f,
    fst (body s f) = fst s ++ [g f]
    \/ (fst (body s f) = fst s ++ [g f; a f] /\ allowed (fst s) f).

Lemma guarded_loop (args : list string) (s : io) :
  exists new,
    fst (fold_left body args s) = fst s ++ new
    /\ (forall f, In f args -> In (g f) new)
    /\ forall pre f post,
         new = pre ++ a f :: post ->
         exists pre', pre = pre' ++ [g f] /\ allowed (fst s ++ pre') f.
Proof.
  revert s. induction args as [|x args IH]; intros s; simpl.
  - exists []. rewrite app_nil_r. split; [reflexivity|]. split; [intros ? []|].
    intros pre f post H. destruct pre; discriminate H.
  - destruct (IH (body s x)) as (new & Hnew & Hin & Hguard).
    destruct (body_ops s x) as [Hone|[Htwo Hok]].
    + exists (g x :: new). rewrite Hnew, Hone, <- app_assoc. split; [reflexivity|].
      split; [intros f [<-|Hf]; [now left|right; auto]|].
      intros pre f post H. destruct pre as [|o pre].
      * injection H as H _. destruct (check_is_no_action _ _ H).
      * injection H as <- H. destruct (Hguard pre f post H) as (pre' & -> & Hal).
        exists (g x :: pre'). split; [reflexivity|].
        rewrite Hone, <- app_assoc in Hal. exact Hal.
    + exists (g x :: a x :: new). rewrite Hnew, Htwo, <- app_assoc.
      split; [reflexivity|].
      split; [intros f [<-|Hf]; [now left|right; right; auto]|].
      intros pre f post H. destruct pre as [|o pre].
      * injection H as H _. destruct (check_is_no_action _ _ H).
      * injection H as <- H. destruct pre as [|o' pre].
        -- injection H as Ha _. apply action_inj in Ha as <-.
           exists []. split; [reflexivity|]. rewrite app_nil_r. exact Hok.
        -- injection H as <- H. destruct (Hguard pre f post H) as (pre' & -> & Hal).
           exists (g x :: a x :: pre'). split; [reflexivity|].
           rewrite Htwo, <- app_assoc in Hal. exact Hal.
Qed.

End Guarded.

(** X27. [rm] removes no directory.  Over all its operands [rm] asks of
    each whether it is a directory, and every removal it attempts comes
    right after that question for the same path, answered no: a path
    that is a directory is reported and never passed to [os.remove], and
    a failure on one operand does not keep [rm] from the next. *)
Theorem rm_removes_no_directory
    (F : Files.files) (args : list string) (s : Files.io) :
  exists new,
    fst (Files.builtin_rm F args s) = fst s ++ new
    /\ (forall f, In f args -> In (Files.isdir f) new)
    /\ forall pre f post,
         new = pre ++ Files.remove f :: post ->
         exists pre',
           pre = pre' ++ [Files.isdir f] /\ Files.do_isdir F (fst s ++ pre') f = false.
Proof.
  destruct (guarded_loop (Files.builtin_rm_one F) Files.isdir Files.remove
              (fun ops f => Files.do_isdir F ops f = false)) with (args := args) (s := s)
    as (new & Hnew & Hin & Hguard).
  - discriminate.
  - intros f f' H. injection H. auto.
  - intros s0 f. unfold Files.builtin_rm_one.
    destruct (Files.do_isdir F (fst s0) f) eqn:Hd; simpl; [left; reflexivity|].
    right. split; [|reflexivity].
    destruct (Files.do_remove F _ f); simpl; rewrite <- app_assoc; reflexivity.
  - exists new. split; [|split; assumption].
    destruct args as [|x args]; [|exact Hnew].
    simpl in *. rewrite <- Hnew. reflexivity.
Qed.

Lemma rm_removes_no_directory_witness :
  fst (Files.builtin_rm Files.demo ["d"; "f"; "g"]%string ([], []))
  = [Files.isdir "d"; Files.isdir "f"; Files.remove "f"; Files.isdir "g"; Files.remove "g"]
  /\ snd (Files.builtin_rm Files.demo ["d"; "f"; "g"]%string ([], []))
     = ["rm: d: is a directory"; "rm: g: [Errno 2] No such file or directory"]%string
  /\ exists new,
       fst (Files.builtin_rm Files.demo ["d"; "f"; "g"]%string ([], [])) = new
       /\ forall pre f post,
            new = pre ++ Files.remove f :: post ->
            exists pre', pre = pre' ++ [Files.isdir f].
Proof.
  split; [reflexivity|]. split; [reflexivity|].
  destruct (rm_removes_no_directory Files.demo ["d"; "f"; "g"]%string ([], []))
    as (new & Hnew & _ & Hguard).
  exists new. split; [exact Hnew|].
  intros pre f post H. destruct (Hguard pre f post H) as (pre' & Hpre & _). eauto.
Defined.

(** X28. [touch] sets no time on a file it could not open.  Over all
    its operands [touch] opens each for appending, and every call of
    [os.utime] comes right after the opening of the same path, which
    succeeded; a failure on one operand does not keep it from the
    next. *)
Theorem touch_sets_times_of_opened_files_only
    (F : Files.files) (args : list string) (s : Files.io) :
  exists new,
    fst (Files.builtin_touch F args s) = fst s ++ new
    /\ (forall f, In f args -> In (Files.open_append f) new)
    /\ forall pre f post,
         new = pre ++ Files.utime f :: post ->
         exists pre',
           pre = pre' ++ [Files.open_append f]
           /\ Files.do_open_append F (fst s ++ pre') f = None.
Proof.
  destruct (guarded_loop (Files.builtin_touch_one F) Files.open_append Files.utime
              (fun ops f => Files.do_open_append F ops f = None))
    with (args := args) (s := s) as (new & Hnew & Hin & Hguard).
  - discriminate.
  - intros f f' H. injection H. auto.
  - intros s0 f. unfold Files.builtin_touch_one.
    destruct (Files.do_open_append F (fst s0) f) eqn:Hd; simpl; [left; reflexivity|].
    right. split; [|reflexivity].
    destruct (Files.do_utime F _ f); simpl; rewrite <- app_assoc; reflexivity.
  - exists new. split; [|split; assumption].
    destruct args as [|x args]; [|exact Hnew].
    simpl in *. rewrite <- Hnew. reflexivity.
Qed.

Lemma touch_sets_times_of_opened_files_only_witness :
  fst (Files.builtin_touch Files.demo ["d"; "f"]%string ([], []))
  = [Files.open_append "d"; Files.open_append "f"; Files.utime "f"]
  /\ exists new,
       fst (Files.builtin_touch Files.demo ["d"; "f"]%string ([], [])) = new
       /\ forall pre f post,
            new = pre ++ Files.utime f :: post ->
            exists pre', pre = pre' ++ [Files.open_append f].
Proof.
  split; [reflexivity|].
  destruct (touch_sets_times_of_opened_files_only Files.demo ["d"; "f"]%string ([], []))
    as (new & Hnew & _ & Hguard).
  exists new. split; [exact Hnew|].
  intros pre f post H. destruct (Hguard pre f post H) as (pre' & Hpre & _). eauto.
Defined.

Section Operands.
Variable F : Files.files.
Import Files.

(** The loop of [cat]: one read and one piece of output for each
    operand, the piece made from the answer to that read. *)
Lemma cat_loop (args : list string) (s : io) :
  let s' :=
    fold_left
      (fun s filename =>
         let r := do_read F (fst s) filename in
         let s := performed (read filename) s in
         match r with
         | inr text => written text s
         | inl e => written ("cat: " +:+ filename +:+ ": " +:+ e) s
         end)
      args s in
  fst s' = fst s ++ map read args
  /\ exists pieces,
       snd s' = snd s ++ pieces
       /\ length pieces = length args
       /\ forall (i : nat) filename,
            args !! i = Some filename ->
            pieces !! i
            = Some match do_read F (fst s ++ map read (take i args)) filename with
                   | inr text => text
                   | inl e => "cat: " +:+ filename +:+ ": " +:+ e
                   end.
Proof.
  revert s. induction args as [|x args IH]; intros s.
  - simpl. rewrite app_nil_r. split; [reflexivity|].
    exists []. rewrite app_nil_r. split; [reflexivity|]. split; [reflexivity|].
    intros i f Hi. destruct i; discriminate Hi.
  - cbv zeta in *. cbn [fold_left]. cbv beta zeta.
    destruct (do_read F (fst s) x) as [e|text] eqn:E;
      match goal with |- context [fold_left _ args ?s0] =>
        destruct (IH s0) as (Hops & pieces & Hout & Hlen & Hat) end;
      simpl in Hops, Hout, Hat;
      (split; [rewrite Hops, <- app_assoc; reflexivity|]);
      [exists (("cat: " +:+ x +:+ ": " +:+ e) :: pieces)|exists (text :: pieces)];
      (split; [rewrite Hout, <- app_assoc; reflexivity|];
       split; [simpl; rewrite Hlen; reflexivity|];
       intros i f Hi; destruct i as [|i]; simpl in Hi |- *;
       [injection Hi as <-; rewrite app_nil_r, E; reflexivity
       |rewrite (Hat i f Hi), <- app_assoc; reflexivity]).
Qed.

(** The loops of [mkdir] and [rmdir]: one call for each operand, and
    for each operand the lines its call gives rise to, the error line
    when the call fails and none when it does not. *)
Lemma dir_loop (act : list op -> string -> option string) (o : string -> op)
    (name : string) (args : list string) (s : io) :
  let s' :=
    fold_left
      (fun s d =>
         let r := act (fst s) d in
         let s := performed (o d) s in
         match r with
         | Some e => written (name +:+ ": " +:+ d +:+ ": " +:+ e) s
         | None => s
         end)
      args s in
  fst s' = fst s ++ map o args
  /\ (exists lines,
        snd s' = snd s ++ concat lines
        /\ length lines = length args
        /\ forall (i : nat) d,
             args !! i = Some d ->
             lines !! i
             = Some match act (fst s ++ map o (take i args)) d with
                    | Some e => [name +:+ ": " +:+ d +:+ ": " +:+ e]
                    | None => []
                    end)
  /\ ((forall ops d, act ops d = None) -> snd s' = snd s).
Proof.
  revert s. induction args as [|x args IH]; intros s.
  - simpl. rewrite app_nil_r. split; [reflexivity|]. split; [|reflexivity].
    exists []. simpl. rewrite app_nil_r. split; [reflexivity|]. split; [reflexivity|].
    intros i f Hi. destruct i; discriminate Hi.
  - cbv zeta in *. cbn [fold_left]. cbv beta zeta.
    destruct (act (fst s) x) as [e|] eqn:E;
      match goal with |- context [fold_left _ args ?s0] =>
        destruct (IH s0) as (Hops & (lines & Hout & Hlen & Hat) & Hquiet) end;
      simpl in Hops, Hout, Hat, Hquiet;
      (split; [rewrite Hops, <- app_assoc; reflexivity|]); split.
    + exists ([name +:+ ": " +:+ x +:+ ": " +:+ e] :: lines).
      split; [rewrite Hout, <- app_assoc; reflexivity|].
      split; [simpl; rewrite Hlen; reflexivity|].
      intros i f Hi. destruct i as [|i]; simpl in Hi |- *.
      * injection Hi as <-. rewrite app_nil_r, E. reflexivity.
      * rewrite (Hat i f Hi), <- app_assoc. reflexivity.
    + intros Hok. rewrite Hok in E. discriminate E.
    + exists ([] :: lines). split; [exact Hout|].
      split; [simpl; rewrite Hlen; reflexivity|].
      intros i f Hi. destruct i as [|i]; simpl in Hi |- *.
      * injection Hi as <-. rewrite app_nil_r, E. reflexivity.
      * rewrite (Hat i f Hi), <- app_assoc. reflexivity.
    + intros Hok. apply (Hquiet Hok).
Qed.

End Operands.

(** X29. [cat], [mkdir] and [rmdir] go through all their operands in
    order.  [cat] reads every file it is given, one after the other, and
    writes one piece of output for each: the content of the file when
    the read succeeds, the line [cat: <filename>: <error>] when it
    fails, each from the answer to the read of that operand, which comes
    after the reads of the operands before it.  [mkdir] and [rmdir] call
    [os.makedirs] and [os.rmdir] on every operand in order, failures
    included; an operand whose call fails gives the line
    [mkdir: <d>: <error>] or [rmdir: <d>: <error>], an operand whose call
    succeeds gives nothing, so that nothing is printed when no call
    fails. *)
Theorem cat_mkdir_rmdir_handle_every_operand
    (F : Files.files) (x : string) (rest : list string) (s : Files.io) :
  let args := x :: rest in
  (fst (Files.builtin_cat F args s) = fst s ++ map Files.read args
   /\ exists pieces,
        snd (Files.builtin_cat F args s) = snd s ++ pieces
        /\ length pieces = length args
        /\ forall (i : nat) filename,
             args !! i = Some filename ->
             pieces !! i
             = Some match Files.do_read F (fst s ++ map Files.read (take i args))
                                        filename with
                    | inr text => text
                    | inl e => "cat: " +:+ filename +:+ ": " +:+ e
                    end)
  /\ (fst (Files.builtin_mkdir F args s) = fst s ++ map Files.makedirs args
      /\ (exists lines,
            snd (Files.builtin_mkdir F args s) = snd s ++ concat lines
            /\ length lines = length args
            /\ forall (i : nat) d,
                 args !! i = Some d ->
                 lines !! i
                 = Some match Files.do_makedirs F
                                (fst s ++ map Files.makedirs (take i args)) d with
                        | Some e => ["mkdir: " +:+ d +:+ ": " +:+ e]
                        | None => []
                        end)
      /\ ((forall ops d, Files.do_makedirs F ops d = None) ->
          snd (Files.builtin_mkdir F args s) = snd s))
  /\ (fst (Files.builtin_rmdir F args s) = fst s ++ map Files.rmdir args
      /\ (exists lines,
            snd (Files.builtin_rmdir F args s) = snd s ++ concat lines
            /\ length lines = length args
            /\ forall (i : nat) d,
                 args !! i = Some d ->
                 lines !! i
                 = Some match Files.do_rmdir F
                                (fst s ++ map Files.rmdir (take i args)) d with
                        | Some e => ["rmdir: " +:+ d +:+ ": " +:+ e]
                        | None => []
                        end)
      /\ ((forall ops d, Files.do_rmdir F ops d = None) ->
          snd (Files.builtin_rmdir F args s) = snd s)).
Proof.
  intros args. split; [|split].
  - apply (cat_loop F args s).
  - apply (dir_loop (Files.do_makedirs F) Files.makedirs "mkdir" args s).
  - apply (dir_loop (Files.do_rmdir F) Files.rmdir "rmdir" args s).
Qed.

(** [cat a b] where only [a] exists, and [mkdir n n]: the content of
    [a] and the error line for [b]; one directory made, and the error
    line for the second call. *)
Lemma cat_mkdir_rmdir_handle_every_operand_witness :
  Files.builtin_cat Files.shelf ["a"; "b"]%string ([], [])
  = ([Files.read "a"; Files.read "b"],
     ["first line"; "cat: b: [Errno 2] No such file or directory: 'b'"]%string)
  /\ Files.builtin_mkdir Files.shelf ["n"; "n"]%string ([], [])
     = ([Files.makedirs "n"; Files.makedirs "n"],
        ["mkdir: n: [Errno 17] File exists: 'n'"%string])
  /\ snd (Files.builtin_mkdir Files.demo ["a"; "b"]%string ([], [])) = [].
Proof.
  destruct (cat_mkdir_rmdir_handle_every_operand Files.shelf "a" ["b"%string] ([], []))
    as ((Hcat & pieces & Hout & Hlen & Hat) & _).
  destruct (cat_mkdir_rmdir_handle_every_operand Files.shelf "n" ["n"%string] ([], []))
    as (_ & (Hmk & (lines & Hlines & Hlen' & Hat') & _) & _).
  destruct (cat_mkdir_rmdir_handle_every_operand Files.demo "a" ["b"%string] ([], []))
    as (_ & (_ & _ & Hquiet) & _).
  split; [|split].
  - apply injective_projections; [exact Hcat|]. rewrite Hout.
    pose proof (Hat 0%nat "a"%string eq_refl) as H0.
    pose proof (Hat 1%nat "b"%string eq_refl) as H1.
    destruct pieces as [|p0 [|p1 [|p2 pieces]]]; try discriminate Hlen.
    simpl in H0, H1. injection H0 as ->. injection H1 as ->. reflexivity.
  - apply injective_projections; [exact Hmk|]. rewrite Hlines.
    pose proof (Hat' 0%nat "n"%string eq_refl) as H0.
    pose proof (Hat' 1%nat "n"%string eq_refl) as H1.
    destruct lines as [|l0 [|l1 [|l2 lines]]]; try discriminate Hlen'.
    simpl in H0, H1. injection H0 as ->. injection H1 as ->. reflexivity.
  - apply Hquiet. reflexivity.
Defined.
